(** * Scrap-Whatsapp-Bot: the schedule engine of [interactive_scraper.py]

    A shallow embedding of the scheduling part of [InteractiveScraper]
    (conflict detection, safe-time suggestions, sequencing, duration and
    time validation, loading and saving the store, the job executor and
    the scheduler loop) together with the properties its specification
    states about it.

    Conventions of the embedding.
    - Python [str] is [string]: text whose characters are the code points
      below 256, a character being its code point.  The [str] methods and
      [int] are modelled on all of these; text with a character from
      U+0100 on is outside the model.
    - Python [int] is [Z]; the conversions between [int] and decimal text
      carry the interpreter's limit of 4300 digits
      ([sys.int_max_str_digits], at its default).
    - The one [float] computation, the minutes of a run in the report of
      [execute_schedule], is done on the binary64 values as exact
      rationals, rounded to nearest-even where the interpreter rounds.
    - A naive [datetime] is the number of microseconds since
      1900-01-01T00:00:00 (the date [strptime] gives to a bare time of
      day); [timedelta] is a number of microseconds.  Both carry the range
      checks of the [datetime] module, whose failure is [OverflowError].
    - Code that can raise returns a [result]; a [try/except] is a match on
      it.
    - Objects that are shared and mutated ([Schedule] instances held by
      [self.schedules]) live in a heap and are named by their address.
    - The clock, the job runner and the writes of the schedules file are
      the outside world: an [Env] says what each reading, run and write
      gives, and stateful code passes a [State] along. *)

From Stdlib Require Import ZArith Lia Bool Ascii String.
From stdpp Require Import base list strings.

Local Open Scope Z_scope.

(* ================================================================== *)
(** * Python [str] methods *)
(* ================================================================== *)

Module Str.

Definition code (c : ascii) : Z := Z.of_N (N_of_ascii c).

(** [c.isspace()]: tab, LF, VT, FF, CR, FS, GS, RS, US, space, and past
    ASCII the next-line control U+0085 and the no-break space U+00A0. *)
Definition isspace (c : ascii) : bool :=
  let n := code c in
  ((9 <=? n) && (n <=? 13)) || ((28 <=? n) && (n <=? 32)) || (n =? 133) || (n =? 160).

(** [c.isdecimal()]: the digits [int] and the [\d] of [strptime] read;
    below 256 these are 0 to 9 ([isdigit] has the superscripts one, two
    and three besides, which neither reads). *)
Definition isdecimal (c : ascii) : bool :=
  let n := code c in (48 <=? n) && (n <=? 57).

Definition digit_value (c : ascii) : Z := code c - 48.

(** [c.lower()]: A to Z, and past ASCII the capitals from U+00C0 to
    U+00DE, the multiplication sign U+00D7 apart. *)
Definition lower_char (c : ascii) : ascii :=
  let n := code c in
  if ((65 <=? n) && (n <=? 90))
     || ((192 <=? n) && (n <=? 222) && negb (n =? 215))
  then ascii_of_N (Z.to_N (n + 32)) else c.

(** [s.lower()] *)
Fixpoint lower (s : string) : string :=
  match s with
  | EmptyString => EmptyString
  | String c r => String (lower_char c) (lower r)
  end.

(** The white space [int] skips at both ends: that of C's [isspace],
    after [int] has turned the white space past ASCII, U+0085 and U+00A0,
    into spaces.  (FS, GS, RS and US are white space to [strip] and not
    to [int].) *)
Definition isspace_int (c : ascii) : bool :=
  let n := code c in
  ((9 <=? n) && (n <=? 13)) || (n =? 32) || (n =? 133) || (n =? 160).

Fixpoint lstrip_by (sp : ascii -> bool) (s : string) : string :=
  match s with
  | EmptyString => EmptyString
  | String c r => if sp c then lstrip_by sp r else s
  end.

(** Drops trailing white space: a character stays when it is not white
    space or when something stays after it. *)
Fixpoint rstrip_by (sp : ascii -> bool) (s : string) : string :=
  match s with
  | EmptyString => EmptyString
  | String c r =>
      match rstrip_by sp r with
      | EmptyString => if sp c then EmptyString else String c EmptyString
      | r' => String c r'
      end
  end.

Definition strip_by (sp : ascii -> bool) (s : string) : string :=
  rstrip_by sp (lstrip_by sp s).

Definition lstrip : string -> string := lstrip_by isspace.

(** [s.strip()] *)
Definition strip : string -> string := strip_by isspace.

(** The characters up to the first white space. *)
Fixpoint token (s : string) : string :=
  match s with
  | EmptyString => EmptyString
  | String c r => if isspace c then EmptyString else String c (token r)
  end.

(** [s.split()[0]]: the first white-space separated word; [None] is the
    [IndexError] of indexing the empty list. *)
Definition split_first (s : string) : option string :=
  match lstrip s with
  | EmptyString => None
  | t => Some (token t)
  end.

(** [s.endswith(suffix)] *)
Fixpoint endswith (s suffix : string) : bool :=
  if String.eqb s suffix then true
  else match s with
       | EmptyString => false
       | String _ r => endswith r suffix
       end.

(** [s.replace(old, '')] for a non-empty [old]: scanning from the left,
    every occurrence found is dropped and the scan resumes after it.
    [skip] counts the characters of the current occurrence still to
    drop. *)
Fixpoint remove_from (old : string) (skip : nat) (s : string) : string :=
  match s with
  | EmptyString => EmptyString
  | String c r =>
      match skip with
      | S k => remove_from old k r
      | O =>
          if String.prefix old s
          then remove_from old (Nat.pred (String.length old)) r
          else String c (remove_from old O r)
      end
  end.

Definition remove (old s : string) : string := remove_from old O s.

(** The digits of an [int] literal: at least one digit, single
    underscores allowed between digits only. *)
Fixpoint int_digits (acc : Z) (after_digit : bool) (s : string) : option Z :=
  match s with
  | EmptyString => if after_digit then Some acc else None
  | String c r =>
      if isdecimal c then int_digits (10 * acc + digit_value c) true r
      else if Ascii.eqb c "_"%char
           then if after_digit then int_digits acc false r else None
           else None
  end.

(** [sys.int_max_str_digits], at its default. *)
Definition max_str_digits : Z := 4300.

(** The number of digits in a text, sign and underscores not counted. *)
Fixpoint count_digits (s : string) : Z :=
  match s with
  | EmptyString => 0
  | String c r => (if isdecimal c then 1 else 0) + count_digits r
  end.

(** [int(s)]: surrounding white space, an optional sign, digits, no more
    than [max_str_digits] of them.  [None] is the [ValueError]. *)
Definition int (s : string) : option Z :=
  let t := strip_by isspace_int s in
  if max_str_digits <? count_digits t then None
  else
    match t with
    | String "-"%char r => option_map Z.opp (int_digits 0 false r)
    | String "+"%char r => int_digits 0 false r
    | t => int_digits 0 false t
    end.

End Str.

(** Texts of decimal digits and the number they denote. *)
Fixpoint all_digits (s : string) : bool :=
  match s with
  | EmptyString => true
  | String c r => Str.isdecimal c && all_digits r
  end.

Fixpoint has_digit (s : string) : bool :=
  match s with
  | EmptyString => false
  | String c r => Str.isdecimal c || has_digit r
  end.

Fixpoint no_space (s : string) : bool :=
  match s with
  | EmptyString => true
  | String c r => negb (Str.isspace c) && no_space r
  end.

Definition decimal_value (s : string) : Z :=
  fold_left (fun n c => 10 * n + Str.digit_value c) (list_ascii_of_string s) 0.

(** [validate_duration]: [None] is the function's [None]. *)
Definition validate_duration (duration_str : string) : option Z :=
  let duration_str := Str.strip (Str.lower duration_str) in
  if Str.endswith duration_str "m" || Str.endswith duration_str "min"
     || Str.endswith duration_str "minute" || Str.endswith duration_str "minutes"
  then
    match Str.split_first duration_str with
    | None => None
    | Some w =>
        Str.int (Str.remove "s" (Str.remove "ute" (Str.remove "in" (Str.remove "m" w))))
    end
  else if Str.endswith duration_str "h" || Str.endswith duration_str "hour"
          || Str.endswith duration_str "hours"
  then
    match Str.split_first duration_str with
    | None => None
    | Some w =>
        match Str.int (Str.remove "s" (Str.remove "our" (Str.remove "h" w))) with
        | Some hours => Some (hours * 60)
        | None => None
        end
    end
  else if Str.endswith duration_str "d" || Str.endswith duration_str "day"
          || Str.endswith duration_str "days"
  then
    match Str.split_first duration_str with
    | None => None
    | Some w =>
        match Str.int (Str.remove "s" (Str.remove "ay" (Str.remove "d" w))) with
        | Some days => Some (days * 24 * 60)
        | None => None
        end
    end
  else Str.int duration_str.


(* ================================================================== *)
(** * Exceptions *)
(* ================================================================== *)

Inductive exn : Type :=
| ValueError          (* [strptime] on text that does not match the format;
                         [str] of an [int] of more than 4300 digits *)
| OverflowError       (* [datetime]/[timedelta] arithmetic out of range *)
| KeyboardInterrupt   (* the operator's interrupt; not an [Exception] *)
| StepBudget.         (* not a Python exception: a [while] loop of the model
                         used up its steps; [while_loop_returns] shows that
                         a loop with a decreasing measure never does *)

(** The outcome of code that may raise. *)
Inductive result (A : Type) : Type :=
| Ok (a : A)
| Raise (e : exn).
Arguments Ok {A} a.
Arguments Raise {A} e.

#[global] Instance result_ret : MRet result := fun A a => Ok a.

#[global] Instance result_bind : MBind result := fun A B k r =>
  match r with
  | Ok a => k a
  | Raise e => Raise e
  end.

(** [try: r except: pass] where the value is only used inside the [try]. *)
Definition attempt {A} (r : result A) : option A :=
  match r with
  | Ok a => Some a
  | Raise _ => None
  end.

(* ================================================================== *)
(** * [datetime] and [timedelta] *)
(* ================================================================== *)

Module Dt.

Definition us_per_second : Z := 1000000.
Definition us_per_minute : Z := 60 * us_per_second.
Definition us_per_hour : Z := 60 * us_per_minute.
Definition us_per_day : Z := 24 * us_per_hour.

(** Microseconds since 1900-01-01T00:00:00. *)
Definition datetime : Type := Z.

(** [datetime.min] is 0001-01-01, 693595 days before 1900-01-01;
    [datetime.max] is the last microsecond of 9999-12-31, the day
    2958463 after it. *)
Definition min : datetime := - 693595 * us_per_day.
Definition max : datetime := 2958464 * us_per_day - 1.

Definition timedelta : Type := Z.

(** A [timedelta] holds at most 999999999 days either way. *)
Definition make_timedelta (us : Z) : result timedelta :=
  if (-999999999 <=? us / us_per_day) && (us / us_per_day <=? 999999999)
  then Ok us else Raise OverflowError.

Definition minutes (n : Z) : result timedelta := make_timedelta (n * us_per_minute).
Definition hours (n : Z) : result timedelta := make_timedelta (n * us_per_hour).
Definition days (n : Z) : result timedelta := make_timedelta (n * us_per_day).

(** [d + td] *)
Definition add (d : datetime) (td : timedelta) : result datetime :=
  if (min <=? d + td) && (d + td <=? max) then Ok (d + td) else Raise OverflowError.

(** [d - td] *)
Definition sub (d : datetime) (td : timedelta) : result datetime :=
  if (min <=? d - td) && (d - td <=? max) then Ok (d - td) else Raise OverflowError.

Definition add_minutes (d : datetime) (n : Z) : result datetime :=
  td ← minutes n; add d td.

Definition add_hours (d : datetime) (n : Z) : result datetime :=
  td ← hours n; add d td.

(** The fields of a [datetime]. *)
Definition hour (d : datetime) : Z := (d / us_per_hour) mod 24.
Definition minute (d : datetime) : Z := (d / us_per_minute) mod 60.
Definition second (d : datetime) : Z := (d / us_per_second) mod 60.

(** [d.replace(minute=m, second=0)] *)
Definition replace_minute_second0 (d : datetime) (m : Z) : datetime :=
  d - minute d * us_per_minute - second d * us_per_second + m * us_per_minute.

(** [d.replace(hour=h, minute=m)] *)
Definition replace_hour_minute (d : datetime) (h m : Z) : datetime :=
  d - hour d * us_per_hour - minute d * us_per_minute
    + h * us_per_hour + m * us_per_minute.

(** [d.replace(hour=h, minute=0, second=0)] *)
Definition replace_hour_minute0_second0 (d : datetime) (h : Z) : datetime :=
  d - hour d * us_per_hour - minute d * us_per_minute - second d * us_per_second
    + h * us_per_hour.

(** The time of day [h:m] on 1900-01-01. *)
Definition of_hm (h m : Z) : datetime := h * us_per_hour + m * us_per_minute.

Definition digit_char (n : Z) : ascii := ascii_of_N (Z.to_N (48 + n)).

(** [%02d] of a number below 100. *)
Definition two_digits (n : Z) : string :=
  String (digit_char (n / 10)) (String (digit_char (n mod 10)) EmptyString).

(** [d.strftime("%H:%M")] *)
Definition strftime_HM (d : datetime) : string :=
  two_digits (hour d) +:+ ":" +:+ two_digits (minute d).

(** The ways the directive [%H], the regular expression
    [2[0-3]|[0-1]\d|\d], matches at the start of [s]: the value read and
    the rest of the text, in the order the alternatives are tried. *)
Definition match_H (s : string) : list (Z * string) :=
  match s with
  | String a r =>
      (match r with
       | String b r' =>
           (if Ascii.eqb a "2"%char && Str.isdecimal b && (Str.digit_value b <=? 3)
            then [(20 + Str.digit_value b, r')] else [])
           ++ (if (Ascii.eqb a "0"%char || Ascii.eqb a "1"%char) && Str.isdecimal b
               then [(10 * Str.digit_value a + Str.digit_value b, r')] else [])
       | EmptyString => []
       end)
      ++ (if Str.isdecimal a then [(Str.digit_value a, r)] else [])
  | EmptyString => []
  end.

(** The directive [%M], the regular expression [[0-5]\d|\d]. *)
Definition match_M (s : string) : list (Z * string) :=
  match s with
  | String a r =>
      (match r with
       | String b r' =>
           if Str.isdecimal a && (Str.digit_value a <=? 5) && Str.isdecimal b
           then [(10 * Str.digit_value a + Str.digit_value b, r')] else []
       | EmptyString => []
       end)
      ++ (if Str.isdecimal a then [(Str.digit_value a, r)] else [])
  | EmptyString => []
  end.

(** The literal [:] of the format. *)
Definition match_colon (s : string) : list string :=
  match s with
  | String c r => if Ascii.eqb c ":"%char then [r] else []
  | EmptyString => []
  end.

(** All matches of the format [%H:%M] at the start of [s], in the order
    a backtracking matcher finds them. *)
Definition matches_HM (s : string) : list (Z * Z * string) :=
  '(h, r1) ← match_H s;
  r2 ← match_colon r1;
  '(m, r3) ← match_M r2;
  [(h, m, r3)].

(** [datetime.strptime(s, "%H:%M")]: the first match is taken and must
    use up the whole text. *)
Definition strptime_HM (s : string) : result datetime :=
  match matches_HM s with
  | (h, m, EmptyString) :: _ => Ok (of_hm h m)
  | _ => Raise ValueError
  end.

End Dt.

Abbreviation datetime := Dt.datetime.

(** [validate_time_format] *)
Definition validate_time_format (time_str : string) : bool :=
  match Dt.strptime_HM time_str with
  | Ok _ => true
  | Raise _ => false
  end.


(* ================================================================== *)
(** * [while] loops *)
(* ================================================================== *)

Section Loop.
Context {St R : Type}.
(** One turn of a loop: the next state, or the value the loop ends with. *)
Variable step : St -> St + R.

(** Up to [2 ^ n] turns. *)
Fixpoint iterate (n : nat) (s : St) : St + R :=
  match n with
  | O => step s
  | S n' =>
      match iterate n' s with
      | inl s' => iterate n' s'
      | inr r => inr r
      end
  end.

(** A loop whose turns decrease [measure]: it is given as many turns as
    the measure of its first state allows. *)
Definition while_loop (measure : St -> Z) (s : St) : option R :=
  match iterate (Z.to_nat (Z.log2_up (measure s + 1))) s with
  | inr r => Some r
  | inl _ => None
  end.
End Loop.

(* ================================================================== *)
(** * The [Schedule] dataclass *)
(* ================================================================== *)

Record Schedule : Type := mkSchedule {
  id : string;
  name : string;
  search_terms : list string;
  start_time : string;
  duration_minutes : Z;
  limit_per_run : Z;
  skip_duplicates : bool;
  is_recurring : bool;
  is_active : bool;
  last_run : string;
  total_runs : Z;
  estimated_duration_minutes : Z;
  auto_sequence : bool;
  currently_running : bool
}.

(* ================================================================== *)
(** * Interval math and the conflict detector *)
(* ================================================================== *)

(** The test shared by [check_execution_overlap],
    [check_schedule_conflicts_between] and [schedules_would_conflict_now]:
    the body of their [try], up to the condition of the [if]. *)
Definition windows_overlap (schedule1 schedule2 : Schedule) : result bool :=
  time1 ← Dt.strptime_HM (start_time schedule1);
  time2 ← Dt.strptime_HM (start_time schedule2);
  end1 ← Dt.add_minutes time1 (estimated_duration_minutes schedule1);
  end2 ← Dt.add_minutes time2 (estimated_duration_minutes schedule2);
  mret (((time1 <=? time2) && (time2 <? end1)) || ((time2 <=? time1) && (time1 <? end2))).

(** [check_execution_overlap]: the message, or [None]. *)
Definition check_execution_overlap (schedule1 schedule2 : Schedule) : option string :=
  match attempt (windows_overlap schedule1 schedule2) with
  | Some true => Some ("Execution overlap with '" +:+ name schedule1 +:+ "'")
  | _ => None
  end.

(** [check_schedule_conflicts]; [schedules] is [self.schedules.values()],
    in the order of the dictionary. *)
Definition check_schedule_conflicts (schedules : list Schedule) (new_schedule : Schedule)
  : list string :=
  flat_map (fun existing =>
    if negb (is_active existing) then []
    else
      (if String.eqb (start_time existing) (start_time new_schedule)
       then ["Direct time conflict with '" +:+ name existing +:+ "' at " +:+ start_time existing]
       else [])
      ++ match check_execution_overlap existing new_schedule with
         | Some overlap => [overlap]
         | None => []
         end) schedules.

(** [check_schedule_conflicts_between] *)
Definition check_schedule_conflicts_between (schedule1 schedule2 : Schedule) : list string :=
  (if String.eqb (start_time schedule1) (start_time schedule2)
   then ["Direct time conflict"] else [])
  ++ match attempt (windows_overlap schedule1 schedule2) with
     | Some true => ["Execution overlap"]
     | _ => []
     end.

(* ================================================================== *)
(** * The safe-time suggester *)
(* ================================================================== *)

(** [is_time_slot_safe]: the probe schedule is a fresh, active "temp"
    schedule at [test_time] with the candidate's other settings and the
    default [last_run], [total_runs] and flags. *)
Definition probe (test_time : string) (new_schedule : Schedule) : Schedule :=
  {| id := "temp"; name := "temp";
     search_terms := search_terms new_schedule;
     start_time := test_time;
     duration_minutes := duration_minutes new_schedule;
     limit_per_run := limit_per_run new_schedule;
     skip_duplicates := skip_duplicates new_schedule;
     is_recurring := is_recurring new_schedule;
     is_active := true;
     last_run := ""; total_runs := 0;
     estimated_duration_minutes := estimated_duration_minutes new_schedule;
     auto_sequence := false; currently_running := false |}.

Definition is_time_slot_safe (schedules : list Schedule) (test_time : string)
    (new_schedule : Schedule) : bool :=
  match check_schedule_conflicts schedules (probe test_time new_schedule) with
  | [] => true
  | _ => false
  end.

(** The start time of the earliest conflicting schedule whose start time
    parses (the first loop of [find_slots_before_conflicts]). *)
Definition earliest_conflict (conflicting_schedules : list Schedule) : option datetime :=
  fold_left (fun earliest conflict_schedule =>
    match Dt.strptime_HM (start_time conflict_schedule) with
    | Ok conflict_time =>
        match earliest with
        | None => Some conflict_time
        | Some e => if conflict_time <? e then Some conflict_time else earliest
        end
    | Raise _ => earliest
    end) conflicting_schedules None.

(** One turn of the [while] of [find_slots_before_conflicts]. *)
Definition before_step (schedules : list Schedule) (new_schedule : Schedule)
    (latest_start : datetime) (st : datetime * list string)
  : (datetime * list string) + result (list string) :=
  let '(checking_time, before_slots) := st in
  if (checking_time <=? latest_start) && (Z.of_nat (length before_slots) <? 4) then
    let minute := Dt.minute checking_time in
    let rounded :=
      if minute <? 15 then Ok (0, checking_time)
      else if minute <? 45 then Ok (30, checking_time)
      else (later ← Dt.add_hours checking_time 1; mret (0, later)) in
    match rounded with
    | Raise e => inr (Raise e)
    | Ok (rounded_minute, checking_time) =>
        let rounded_time := Dt.replace_minute_second0 checking_time rounded_minute in
        let time_str := Dt.strftime_HM rounded_time in
        let before_slots :=
          if is_time_slot_safe schedules time_str new_schedule
          then before_slots ++ [time_str] else before_slots in
        match Dt.add_minutes checking_time 30 with
        | Raise e => inr (Raise e)
        | Ok checking_time => inl (checking_time, before_slots)
        end
    end
  else inr (Ok before_slots).

(** Half hours left up to [bound]. *)
Definition slots_left (bound : datetime) (st : datetime * list string) : Z :=
  Z.max 0 ((bound - fst st) / (30 * Dt.us_per_minute) + 1).

Definition run_while (r : option (result (list string))) : result (list string) :=
  match r with
  | Some r => r
  | None => Raise StepBudget
  end.

(** [find_slots_before_conflicts] *)
Definition find_slots_before_conflicts (schedules : list Schedule) (new_schedule : Schedule)
    (conflicting_schedules : list Schedule) (current_time : datetime)
  : result (list string) :=
  match conflicting_schedules with
  | [] => Ok []
  | _ =>
      match earliest_conflict conflicting_schedules with
      | None => Ok []
      | Some earliest_conflict =>
          let buffer_minutes := 10 in
          td ← Dt.minutes (estimated_duration_minutes new_schedule + buffer_minutes);
          latest_start ← Dt.sub earliest_conflict td;
          current_plus_buffer ← Dt.add_minutes current_time 5;
          if current_plus_buffer <? latest_start then
            let start_checking :=
              Z.max current_plus_buffer (Dt.replace_minute_second0 current_time 0) in
            run_while (while_loop (before_step schedules new_schedule latest_start)
                                  (slots_left latest_start) (start_checking, []))
          else Ok []
      end
  end.

(** The latest end among the conflicting schedules whose start time
    parses and whose end is a [datetime] (the first loop of
    [find_slots_after_conflicts]). *)
Definition latest_end (conflicting_schedules : list Schedule) : option datetime :=
  fold_left (fun latest conflict_schedule =>
    match (conflict_start ← Dt.strptime_HM (start_time conflict_schedule);
           Dt.add_minutes conflict_start (estimated_duration_minutes conflict_schedule)) with
    | Ok conflict_end =>
        match latest with
        | None => Some conflict_end
        | Some l => if l <? conflict_end then Some conflict_end else latest
        end
    | Raise _ => latest
    end) conflicting_schedules None.

(** One turn of the [while] of [find_slots_after_conflicts]. *)
Definition after_step (schedules : list Schedule) (new_schedule : Schedule)
    (end_of_day : datetime) (st : datetime * list string)
  : (datetime * list string) + result (list string) :=
  let '(checking_time, after_slots) := st in
  if (checking_time <=? end_of_day) && (Z.of_nat (length after_slots) <? 4) then
    let minute := Dt.minute checking_time in
    if (minute <? 15) || (minute <? 45) then
      let rounded_minute := if minute <? 15 then 0 else 30 in
      let rounded_time := Dt.replace_minute_second0 checking_time rounded_minute in
      let time_str := Dt.strftime_HM rounded_time in
      let after_slots :=
        if is_time_slot_safe schedules time_str new_schedule
        then after_slots ++ [time_str] else after_slots in
      match Dt.add_minutes checking_time 30 with
      | Raise e => inr (Raise e)
      | Ok checking_time => inl (checking_time, after_slots)
      end
    else
      (* minute >= 45: an hour later, and [continue] *)
      match Dt.add_hours checking_time 1 with
      | Raise e => inr (Raise e)
      | Ok checking_time => inl (checking_time, after_slots)
      end
  else inr (Ok after_slots).

(** [find_slots_after_conflicts]; [now] is the reading of
    [datetime.now()] that [end_of_day] is made from. *)
Definition find_slots_after_conflicts (schedules : list Schedule) (new_schedule : Schedule)
    (conflicting_schedules : list Schedule) (now : datetime)
  : result (list string) :=
  match conflicting_schedules with
  | [] => Ok []
  | _ =>
      match latest_end conflicting_schedules with
      | None => Ok []
      | Some latest_end =>
          let buffer_minutes := 10 in
          earliest_after ← Dt.add_minutes latest_end buffer_minutes;
          let end_of_day := Dt.replace_hour_minute0_second0 now 22 in
          run_while (while_loop (after_step schedules new_schedule end_of_day)
                                (slots_left end_of_day) (earliest_after, []))
      end
  end.

(** [find_fallback_slots] *)
Definition find_fallback_slots (schedules : list Schedule) (new_schedule : Schedule)
    (current_time : datetime) : result (list string) :=
  t1 ← Dt.add_hours current_time 1;
  t2 ← Dt.add_hours current_time 2;
  t3 ← Dt.add_hours current_time 3;
  t4 ← (if 7 <? Dt.hour current_time
        then td ← Dt.hours 1; Dt.sub current_time td
        else Dt.add_hours current_time 4);
  let base_times := [t1; t2; t3; t4] in
  mret (flat_map (fun base_time =>
    if (6 <=? Dt.hour base_time) && (Dt.hour base_time <=? 22) then
      let minute := if Dt.minute base_time <? 30 then 0 else 30 in
      let rounded_time := Dt.replace_minute_second0 base_time minute in
      let time_str := Dt.strftime_HM rounded_time in
      if is_time_slot_safe schedules time_str new_schedule then [time_str] else []
    else []) base_times).

(** The key of [sort_by_time_proximity], in minutes.  Both times come from
    [strptime], so their difference is a whole number of minutes and the
    division is exact. *)
Definition time_distance (current_time : datetime) (time_str : string) : Z :=
  match Dt.strptime_HM time_str with
  | Ok test_time =>
      let diff := Z.abs (test_time - current_time) / Dt.us_per_minute in
      if current_time <? test_time then diff else diff + 30
  | Raise _ => 9999
  end.

(** [sorted(l, key=key)]: a stable sort, here by insertion from the right;
    an element goes before the first one whose key is not smaller. *)
Fixpoint insert_by {A} (key : A -> Z) (x : A) (l : list A) : list A :=
  match l with
  | [] => [x]
  | y :: l' => if key x <=? key y then x :: l else y :: insert_by key x l'
  end.

Fixpoint sorted {A} (key : A -> Z) (l : list A) : list A :=
  match l with
  | [] => []
  | x :: l' => insert_by key x (sorted key l')
  end.

(** [sort_by_time_proximity] *)
Definition sort_by_time_proximity (time_list : list string) (current_time_str : string)
  : list string :=
  match Dt.strptime_HM current_time_str with
  | Ok current_time => sorted (time_distance current_time) time_list
  | Raise _ => time_list
  end.

(** [list(dict.fromkeys(l))]: the first occurrence of each text, in
    order; [seen] holds the keys already in the dictionary. *)
Fixpoint fromkeys (seen l : list string) : list string :=
  match l with
  | [] => []
  | x :: l' =>
      if existsb (String.eqb x) seen then fromkeys seen l'
      else x :: fromkeys (x :: seen) l'
  end.

(** [get_safe_time_suggestions]; [current_time] is the reading of the
    clock at the start and [now] the one taken in
    [find_slots_after_conflicts]. *)
Definition get_safe_time_suggestions (schedules : list Schedule) (new_schedule : Schedule)
    (current_time now : datetime) : result (list string) :=
  let current_hour_minute := Dt.strftime_HM current_time in
  let conflicting_schedules :=
    filter (fun existing =>
      is_active existing = true
      ∧ check_schedule_conflicts_between new_schedule existing ≠ []) schedules in
  before_slots ← find_slots_before_conflicts schedules new_schedule
                    conflicting_schedules current_time;
  let safe_times := before_slots in
  after_slots ← find_slots_after_conflicts schedules new_schedule
                   conflicting_schedules now;
  let safe_times := safe_times ++ after_slots in
  safe_times ← (if Z.of_nat (length safe_times) <? 3
                then fallback_slots ← find_fallback_slots schedules new_schedule current_time;
                     mret (safe_times ++ fallback_slots)
                else mret safe_times);
  let safe_times := fromkeys [] safe_times in
  let safe_times := sort_by_time_proximity safe_times current_hour_minute in
  mret (take 8 safe_times).

(* ================================================================== *)
(** * The sequencer *)
(* ================================================================== *)

(** The end of a schedule's window, when its start time parses and the
    end is a [datetime]. *)
Definition window_end (s : Schedule) : result datetime :=
  existing_start ← Dt.strptime_HM (start_time s);
  Dt.add_minutes existing_start (estimated_duration_minutes s).

(** One turn of the loop of [calculate_sequential_time]. *)
Definition later_end (latest : option datetime) (existing : Schedule) : option datetime :=
  if negb (is_active existing) then latest
  else
    match window_end existing with
    | Ok existing_end =>
        match latest with
        | None => Some existing_end
        | Some l => if l <? existing_end then Some existing_end else latest
        end
    | Raise _ => latest
    end.

(** The loop of [calculate_sequential_time]. *)
Definition latest_end_time (schedules : list Schedule) : option datetime :=
  fold_left later_end schedules None.

(** [calculate_sequential_time] before its final [strftime]. *)
Definition sequential_datetime (schedules : list Schedule) : result (option datetime) :=
  match latest_end_time schedules with
  | Some latest_end_time =>
      sequential_time ← Dt.add_minutes latest_end_time 10;
      if 23 <=? Dt.hour sequential_time then
        day ← Dt.days 1;
        next ← Dt.add (Dt.replace_hour_minute sequential_time 8 0) day;
        mret (Some next)
      else mret (Some sequential_time)
  | None => mret None
  end.

(** [calculate_sequential_time]; the candidate is not used by the code. *)
Definition calculate_sequential_time (schedules : list Schedule) (new_schedule : Schedule)
  : result (option string) :=
  t ← sequential_datetime schedules;
  mret (option_map Dt.strftime_HM t).

(* ================================================================== *)
(** * The schedule store: objects, dictionary, file *)
(* ================================================================== *)

(** Assignments to the attributes the engine mutates. *)
Definition set_currently_running (b : bool) (s : Schedule) : Schedule :=
  mkSchedule (id s) (name s) (search_terms s) (start_time s) (duration_minutes s)
    (limit_per_run s) (skip_duplicates s) (is_recurring s) (is_active s)
    (last_run s) (total_runs s) (estimated_duration_minutes s) (auto_sequence s) b.

Definition set_last_run (t : string) (s : Schedule) : Schedule :=
  mkSchedule (id s) (name s) (search_terms s) (start_time s) (duration_minutes s)
    (limit_per_run s) (skip_duplicates s) (is_recurring s) (is_active s)
    t (total_runs s) (estimated_duration_minutes s) (auto_sequence s)
    (currently_running s).

Definition set_total_runs (n : Z) (s : Schedule) : Schedule :=
  mkSchedule (id s) (name s) (search_terms s) (start_time s) (duration_minutes s)
    (limit_per_run s) (skip_duplicates s) (is_recurring s) (is_active s)
    (last_run s) n (estimated_duration_minutes s) (auto_sequence s)
    (currently_running s).

Definition set_auto_sequence (b : bool) (s : Schedule) : Schedule :=
  mkSchedule (id s) (name s) (search_terms s) (start_time s) (duration_minutes s)
    (limit_per_run s) (skip_duplicates s) (is_recurring s) (is_active s)
    (last_run s) (total_runs s) (estimated_duration_minutes s) b
    (currently_running s).

(** One object of the JSON array in the schedules file, read as the
    keyword arguments a [Schedule] is built from: the fields without a
    default are there, the five with a default may be missing. *)
Record schedule_data : Type := mkData {
  d_id : string;
  d_name : string;
  d_search_terms : list string;
  d_start_time : string;
  d_duration_minutes : Z;
  d_limit_per_run : Z;
  d_skip_duplicates : bool;
  d_is_recurring : bool;
  d_is_active : bool;
  d_last_run : option string;
  d_total_runs : option Z;
  d_estimated_duration_minutes : option Z;
  d_auto_sequence : option bool;
  d_currently_running : option bool
}.

(** The [Schedule] built from the keyword arguments, with the defaults of
    the dataclass. *)
Definition from_data (d : schedule_data) : Schedule :=
  {| id := d_id d; name := d_name d; search_terms := d_search_terms d;
     start_time := d_start_time d; duration_minutes := d_duration_minutes d;
     limit_per_run := d_limit_per_run d; skip_duplicates := d_skip_duplicates d;
     is_recurring := d_is_recurring d; is_active := d_is_active d;
     last_run := default "" (d_last_run d);
     total_runs := default 0 (d_total_runs d);
     estimated_duration_minutes := default 15 (d_estimated_duration_minutes d);
     auto_sequence := default false (d_auto_sequence d);
     currently_running := default false (d_currently_running d) |}.

(** [asdict(schedule)] *)
Definition asdict (s : Schedule) : schedule_data :=
  {| d_id := id s; d_name := name s; d_search_terms := search_terms s;
     d_start_time := start_time s; d_duration_minutes := duration_minutes s;
     d_limit_per_run := limit_per_run s; d_skip_duplicates := skip_duplicates s;
     d_is_recurring := is_recurring s; d_is_active := is_active s;
     d_last_run := Some (last_run s);
     d_total_runs := Some (total_runs s);
     d_estimated_duration_minutes := Some (estimated_duration_minutes s);
     d_auto_sequence := Some (auto_sequence s);
     d_currently_running := Some (currently_running s) |}.

(** The file [multi_schedules.json]. *)
Inductive file : Type :=
| NoFile
| Unreadable   (* not JSON, or JSON that is not an array *)
| Records (data : list (option schedule_data)).
    (* a JSON array; [None] is an element no [Schedule] can be built from: a
       missing field without default, an unknown field, not an object *)

(** The address of a [Schedule] object. *)
Abbreviation addr := nat.

(** What [save_schedules] meets when it writes the file. *)
Inductive write_outcome : Type :=
| Written
| WriteFailed (remains : file).   (* an [Exception]; the file is left as [remains] *)

(** What happens to one [subprocess.run]. *)
Inductive run_outcome : Type :=
| Returned (returncode : Z)
| Failed         (* an [Exception] *)
| Interrupted.   (* [KeyboardInterrupt] *)

(** The lines of the console the model keeps. *)
Inductive line : Type :=
| SaveError
| Executing (schedule : addr)
| Running (search_term : string) (limit : Z) (skip_duplicates : bool)
| SearchCompleted
| SearchFailed
| SearchError
| Completed (schedule : addr) (success_count : Z) (total_runs : Z) (actual_minutes : Z)
| NextRun (at_time : datetime)
| WillNowRun (queued : addr)
| Waiting (schedule : addr) (running : nat)
| Queued (schedule : addr)
| Starting (first_run : bool) (schedule : addr)
| Monitoring.

(** The scraper and its surroundings.  [objects] is the heap of
    [Schedule] instances, [schedules] the dictionary [self.schedules]
    (keys in insertion order), [disk] the schedules file; the three
    counters say how much of the outside world has been used up. *)
Record State : Type := mkState {
  objects : list Schedule;
  schedules : list (string * addr);
  disk : file;
  console : list line;
  clock_reads : nat;
  runs : nat;
  saves : nat
}.

(** The outside world: what the clock shows at each reading, how each run
    of the job runner ends, how each write of the file ends, and the C
    library's rendering and reading of ["%Y-%m-%d %H:%M:%S"]. *)
Record Env : Type := mkEnv {
  clock : nat -> datetime;
  runner : nat -> run_outcome;
  writes : nat -> write_outcome;
  strftime_full : datetime -> string;
  strptime_full : string -> result datetime
}.

(** [d[k] = v] *)
Fixpoint dict_set (k : string) (v : addr) (d : list (string * addr)) : list (string * addr) :=
  match d with
  | [] => [(k, v)]
  | (k', v') :: d' => if String.eqb k' k then (k, v) :: d' else (k', v') :: dict_set k v d'
  end.

(** [self.schedules.values()] *)
Definition values (st : State) : list Schedule :=
  omap (fun kv => objects st !! snd kv) (schedules st).

(** Stateful code: a state in, an outcome and a state out; the state
    reached is kept when an exception leaves. *)
Definition M (A : Type) : Type := State -> result A * State.

#[global] Instance M_ret : MRet M := fun A a st => (Ok a, st).

#[global] Instance M_bind : MBind M := fun A B k m st =>
  match m st with
  | (Ok a, st') => k a st'
  | (Raise e, st') => (Raise e, st')
  end.

Definition get : M State := fun st => (Ok st, st).
Definition raise {A} (e : exn) : M A := fun st => (Raise e, st).
Definition lift {A} (r : result A) : M A := fun st => (r, st).

(** [try: body finally: handler] *)
Definition finally {A} (body : M A) (handler : M unit) : M A := fun st =>
  match body st with
  | (r, st') =>
      match handler st' with
      | (Ok _, st'') => (r, st'')
      | (Raise e, st'') => (Raise e, st'')
      end
  end.

Definition print (l : line) : M unit := fun st =>
  (Ok (), mkState (objects st) (schedules st) (disk st) (console st ++ [l])
            (clock_reads st) (runs st) (saves st)).

(** An assignment to an attribute of the object at [a]. *)
Definition update (a : addr) (f : Schedule -> Schedule) : M unit := fun st =>
  (Ok (), mkState (alter f a (objects st)) (schedules st) (disk st) (console st)
            (clock_reads st) (runs st) (saves st)).

Definition deref (a : addr) : M (option Schedule) := fun st => (Ok (objects st !! a), st).

(** What is left of the schedule at the end of a run that ended at
    [timestamp]: the assignments of the [finally] of [execute_schedule]. *)
Definition finished (timestamp : string) (s : Schedule) : Schedule :=
  set_auto_sequence false
    (set_total_runs (total_runs s + 1)
       (set_last_run timestamp (set_currently_running false s))).

(** The parts of the state that only [update], [load_schedules] and
    [save_schedules] touch. *)
Definition same_store (st st' : State) : Prop :=
  objects st' = objects st /\ schedules st' = schedules st /\ disk st' = disk st
  /\ saves st' = saves st.

(** The file after [save_schedules] has tried to write [schedules]. *)
Definition after_write (outcome : write_outcome) (schedules : list Schedule) : file :=
  match outcome with
  | Written => Records (map (fun s => Some (asdict s)) schedules)
  | WriteFailed remains => remains
  end.

Section Machine.
Variable env : Env.

(** [datetime.now()] *)
Definition now : M datetime := fun st =>
  (Ok (clock env (clock_reads st)),
   mkState (objects st) (schedules st) (disk st) (console st)
     (S (clock_reads st)) (runs st) (saves st)).

(** [load_schedules]: a file that is there and readable replaces the
    dictionary by fresh objects, one per record, a later record taking
    the key of an earlier one with the same id; a file that is there but
    cannot be loaded leaves the dictionary empty. *)
Fixpoint load_records (data : list schedule_data) (objs : list Schedule)
    (dict : list (string * addr)) : list Schedule * list (string * addr) :=
  match data with
  | [] => (objs, dict)
  | schedule_data :: data' =>
      let schedule := from_data schedule_data in
      load_records data' (objs ++ [schedule]) (dict_set (id schedule) (length objs) dict)
  end.

(** The records of the file when each of them builds a [Schedule]. *)
Fixpoint all_records (data : list (option schedule_data)) : option (list schedule_data) :=
  match data with
  | [] => Some []
  | None :: _ => None
  | Some d :: data' => option_map (cons d) (all_records data')
  end.

Definition load_schedules : M unit := fun st =>
  match disk st with
  | NoFile => (Ok (), st)
  | Records data =>
      match all_records data with
      | Some data =>
          let '(objs, dict) := load_records data (objects st) [] in
          (Ok (), mkState objs dict (disk st) (console st)
                    (clock_reads st) (runs st) (saves st))
      | None =>
          (Ok (), mkState (objects st) [] (disk st) (console st)
                    (clock_reads st) (runs st) (saves st))
      end
  | Unreadable =>
      (Ok (), mkState (objects st) [] (disk st) (console st)
                (clock_reads st) (runs st) (saves st))
  end.

(** [save_schedules]: the records of all schedules replace the file; a
    failed write is reported on the console and nothing else. *)
Definition save_schedules : M unit := fun st =>
  let outcome := writes env (saves st) in
  (Ok (), mkState (objects st) (schedules st) (after_write outcome (values st))
            (console st ++ match outcome with Written => [] | WriteFailed _ => [SaveError] end)
            (clock_reads st) (runs st) (S (saves st))).

(** [for x in l: body(x)] *)
Fixpoint for_each {A} (body : A -> M unit) (l : list A) : M unit :=
  match l with
  | [] => mret ()
  | x :: l' => body x;; for_each body l'
  end.

(** [subprocess.run] of [main.py] for one search term. *)
Definition run_job : M run_outcome := fun st =>
  (Ok (runner env (runs st)),
   mkState (objects st) (schedules st) (disk st) (console st)
     (clock_reads st) (S (runs st)) (saves st)).

(** The [for] over the search terms in [execute_schedule]; the value is
    [success_count]. *)
Fixpoint run_terms (terms : list string) (limit : Z) (skip : bool) (success_count : Z)
  : M Z :=
  match terms with
  | [] => mret success_count
  | search_term :: terms' =>
      print (Running search_term limit skip);;
      outcome ← run_job;
      match outcome with
      | Returned returncode =>
          if returncode =? 0
          then print SearchCompleted;; run_terms terms' limit skip (success_count + 1)
          else print SearchFailed;; run_terms terms' limit skip success_count
      | Failed => print SearchError;; run_terms terms' limit skip success_count
      | Interrupted => raise KeyboardInterrupt
      end
  end.

(** The [finally] of [execute_schedule]. *)
Definition finish_run (schedule : addr) : M unit :=
  update schedule (set_currently_running false);;
  t ← now;
  update schedule (set_last_run (strftime_full env t));;
  update schedule (fun s => set_total_runs (total_runs s + 1) s);;
  update schedule (set_auto_sequence false);;
  save_schedules.

(** The integer nearest to [p / q], the even one of two that are equally
    near; [0 <= p] and [0 < q]. *)
Definition round_half_even (p q : Z) : Z :=
  let f := p / q in
  let r := p mod q in
  if 2 * r <? q then f
  else if q <? 2 * r then f + 1
  else if Z.even f then f else f + 1.

(** The [float] (binary64, 53 bits of mantissa) nearest to [p / q] for
    [0 < p] and [0 < q], as the fraction (numerator, denominator) it is
    exactly.  The quotients taken here are far from both ends of the
    exponent range. *)
Definition to_float (p q : Z) : Z * Z :=
  let scaled e := if 0 <=? e then (p, q * 2 ^ e) else (p * 2 ^ (- e), q) in
  let e0 := Z.log2 p - Z.log2 q - 52 in
  let e := if fst (scaled e0) <? snd (scaled e0) * 2 ^ 52 then e0 - 1 else e0 in
  let m := round_half_even (fst (scaled e)) (snd (scaled e)) in
  if 0 <=? e then (m * 2 ^ e, 1) else (m, 2 ^ (- e)).

(** [int(delta.total_seconds() / 60)]: [total_seconds] is the quotient
    of the microseconds by [10**6], rounded once to a [float]; the
    division by 60 rounds a second time, and [int] drops the fraction. *)
Definition actual_duration (delta : Dt.timedelta) : Z :=
  if delta =? 0 then 0
  else
    let total_seconds := to_float (Z.abs delta) Dt.us_per_second in
    let minutes := to_float (fst total_seconds) (60 * snd total_seconds) in
    Z.sgn delta * (fst minutes / snd minutes).

(** What [execute_schedule] prints once the run is over. *)
Definition report (schedule : addr) (success_count : Z) (start_time : datetime) : M unit :=
  end_time ← now;
  o ← deref schedule;
  print (Completed schedule success_count (from_option total_runs 0 o)
           (actual_duration (end_time - start_time)));;
  (if from_option is_recurring false o
   then t ← now;
        next_run ← lift (Dt.add_minutes t (from_option duration_minutes 0 o));
        print (NextRun next_run)
   else mret ());;
  st ← get;
  for_each (fun kv => print (WillNowRun (snd kv)))
    (filter (fun kv =>
       from_option (fun s => is_active s && auto_sequence s) false (objects st !! snd kv) = true)
       (schedules st)).

(** [execute_schedule] *)
Definition execute_schedule (schedule : addr) : M unit :=
  update schedule (set_currently_running true);;
  save_schedules;;
  print (Executing schedule);;
  _ ← now;
  start_time ← now;
  o ← deref schedule;
  let terms := from_option search_terms [] o in
  let limit := from_option limit_per_run 0 o in
  let skip := from_option skip_duplicates false o in
  success_count ← finally (run_terms terms limit skip 0) (finish_run schedule);
  report schedule success_count start_time.

(* ---------------------------------------------------------------- *)
(** ** The scheduler loop *)

(** [schedules_would_conflict_now] *)
Definition schedules_would_conflict_now (schedule1 schedule2 : Schedule) : bool :=
  if currently_running schedule2 then true
  else match attempt (windows_overlap schedule1 schedule2) with
       | Some true => true
       | _ => false
       end.

(** The condition of the first-run branch. *)
Definition first_run_due (current_time : string) (s : Schedule) : bool :=
  (total_runs s =? 0) && String.eqb current_time (start_time s).

(** [should_run] for one schedule: [Some true] is a first run,
    [Some false] a recurring run, [None] no run. *)
Definition should_run (current_time : string) (s : Schedule) : M (option bool) :=
  if first_run_due current_time s then mret (Some true)
  else if is_recurring s && negb (String.eqb (last_run s) "") then
    match (last_run_time ← strptime_full env (last_run s);
           Dt.add_minutes last_run_time (duration_minutes s)) with
    | Ok next_run_time =>
        t ← now;
        mret (if next_run_time <=? t then Some false else None)
    | Raise _ => mret None
    end
  else mret None.

(** What [should_run] finds when the clock, if the check reads it, shows
[t]. *)
Definition due (current_time : string) (s : Schedule) (t : datetime) : option bool :=
if first_run_due current_time s then Some true
else if is_recurring s && negb (String.eqb (last_run s) "") then
  match (last_run_time ← strptime_full env (last_run s);
         Dt.add_minutes last_run_time (duration_minutes s)) with
  | Ok next_run_time => if next_run_time <=? t then Some false else None
  | Raise _ => None
  end
else None.

(** The body of the [for] over the active schedules. *)
Definition visit (current_time : string) (running_schedules : list addr)
    (schedule : addr) : M unit :=
  o ← deref schedule;
  match o with
  | None => mret ()
  | Some s =>
      if currently_running s then mret ()
      else
        due ← should_run current_time s;
        match due with
        | None => mret ()
        | Some first =>
            if auto_sequence s && negb (bool_decide (running_schedules = []))
            then print (Waiting schedule (length running_schedules))
            else
              st ← get;
              let has_conflict :=
                existsb (fun r =>
                  from_option (schedules_would_conflict_now s) false (objects st !! r))
                  running_schedules in
              if has_conflict then print (Queued schedule)
              else print (Starting first schedule);; execute_schedule schedule
        end
  end.

(** The objects of [l] that are running. *)
Definition running (st : State) (l : list addr) : list addr :=
  filter (fun a => from_option currently_running false (objects st !! a) = true) l.

(** One turn of the [while True] of [start_scheduler]. *)
Definition tick (active_schedules : list addr) : M unit :=
  t ← now;
  let current_time := Dt.strftime_HM t in
  st ← get;
  let running_schedules := running st active_schedules in
  for_each (visit current_time running_schedules) active_schedules;;
  t ← now;
  if Dt.second t mod 30 =? 0 then _ ← now; print Monitoring else mret ().

(** [n] turns of the loop, or fewer when an exception leaves it. *)
Fixpoint ticks (n : nat) (active_schedules : list addr) : M unit :=
  match n with
  | O => mret ()
  | S n' => tick active_schedules;; ticks n' active_schedules
  end.

(** The list [active_schedules] that [start_scheduler] works on. *)
Definition active_schedules (st : State) : list addr :=
  filter (fun a => from_option is_active false (objects st !! a) = true)
    (map snd (schedules st)).

End Machine.

(* ================================================================== *)
(** * Sample schedules *)
(* ================================================================== *)

(** A one-term schedule that has never run. *)
Definition sample (nm st : string) (est : Z) (act : bool) : Schedule :=
  {| id := nm; name := nm; search_terms := ["cafes"]; start_time := st;
     duration_minutes := 0; limit_per_run := 100; skip_duplicates := true;
     is_recurring := false; is_active := act; last_run := ""; total_runs := 0;
     estimated_duration_minutes := est; auto_sequence := false;
     currently_running := false |}.


(** A schedule that was running when its record was written. *)
Definition stale : Schedule := set_currently_running true (sample "a" "09:00" 30 true).

(** A scraper that has just been made, before [load_schedules], next to a
    schedules file. *)
Definition fresh (f : file) : State :=
  {| objects := []; schedules := []; disk := f; console := [];
     clock_reads := 0; runs := 0; saves := 0 |}.

(** A slot passes the check the suggester makes of it. *)
Definition safe (schedules : list Schedule) (new_schedule : Schedule) (t : string) : Prop :=
  is_time_slot_safe schedules t new_schedule = true.

(** The outcomes the functions of the suggester can have: a list of safe
    slots, or arithmetic that left the range of [datetime]. *)
Definition safe_or_overflow (schedules : list Schedule) (new_schedule : Schedule)
    (r : result (list string)) : Prop :=
  match r with
  | Ok l => Forall (safe schedules new_schedule) l
  | Raise e => e = OverflowError
  end.

(** A morning of December 2025, at 08:17:00. *)
Definition morning : datetime := 46000 * Dt.us_per_day + Dt.of_hm 8 17.

(** Surroundings in which every run of the job runner succeeds and every
    write goes through; the clock stands at [morning] and the long format
    is rendered like the short one. *)
Definition calm : Env :=
  {| clock := fun _ => morning;
     runner := fun _ => Returned 0;
     writes := fun _ => Written;
     strftime_full := Dt.strftime_HM;
     strptime_full := Dt.strptime_HM |}.

(** As [calm], but the operator interrupts the first run of the job
    runner. *)
Definition interrupted : Env :=
  {| clock := fun _ => morning;
     runner := fun _ => Interrupted;
     writes := fun _ => Written;
     strftime_full := Dt.strftime_HM;
     strptime_full := Dt.strptime_HM |}.

(** As [calm], but only the first write of the schedules file goes
    through: every later one fails before it touches the file, which
    stays as the first write of a run of [stale]'s schedule left it. *)
Definition first_write_only : Env :=
  {| clock := fun _ => morning;
     runner := fun _ => Returned 0;
     writes := fun n =>
       match n with
       | O => Written
       | S _ => WriteFailed (Records [Some (asdict stale)])
       end;
     strftime_full := Dt.strftime_HM;
     strptime_full := Dt.strptime_HM |}.

(** A scraper holding the schedules [l], each under its id. *)
Definition holding (l : list Schedule) : State :=
  {| objects := l; schedules := imap (fun i s => (id s, i)) l; disk := NoFile;
     console := []; clock_reads := 0; runs := 0; saves := 0 |}.

(** The state a sample schedule is in before its run. *)
Definition before_run : State := holding [sample "a" "09:00" 30 true].

(** Stateful code that leaves the object at [a] as it is, however it
    ends. *)
Definition keeps {A} (a : addr) (s : Schedule) (m : M A) : Prop :=
  forall st, objects st !! a = Some s -> objects (snd (m st)) !! a = Some s.

(** The lines a turn of the scheduler prints when it runs nothing. *)
Definition idle_line (l : line) : Prop :=
  match l with
  | Waiting _ _ | Queued _ | Monitoring => True
  | _ => False
  end.

(** An idle step: it returns, leaves store and job runner alone and prints
    idle lines only. *)
Definition idles {A} (m : M A) (st : State) (out : list line) : Prop :=
  exists v, fst (m st) = Ok v
  /\ same_store st (snd (m st))
  /\ runs (snd (m st)) = runs st
  /\ (clock_reads st <= clock_reads (snd (m st)))%nat
  /\ console (snd (m st)) = console st ++ out
  /\ Forall idle_line out.

(** Every object of [l] is there and running. *)
Definition all_running (st : State) (l : list addr) : Prop :=
  forall r, r ∈ l -> exists s, objects st !! r = Some s /\ currently_running s = true.

(** Two schedules, the first running and the second set to auto-sequence
    at 08:17, the time [calm] shows. *)
Definition busy : State :=
  holding [set_currently_running true (sample "a" "08:00" 30 true);
           set_auto_sequence true (sample "b" "08:17" 15 true)].

(** A clock reading at least a day away from both ends of the calendar. *)
Definition ordinary_time (t : datetime) : Prop :=
  Dt.min + Dt.us_per_day <= t <= Dt.max - Dt.us_per_day.

(** An estimated duration that is not negative and below 900 million
    minutes, some 1700 years. *)
Definition ordinary_duration (s : Schedule) : Prop :=
  0 <= estimated_duration_minutes s <= 900000000.

(* ================================================================== *)
(** * Rendering numbers and durations *)
(* ================================================================== *)

(** The decimal digits of a number that is not negative, the most
    significant first, put before [acc]; [fuel] bounds the number of
    digits after the first, and the binary logarithm is enough of it. *)
Fixpoint digits_of (fuel : nat) (n : Z) (acc : string) : string :=
  let acc := String (Dt.digit_char (n mod 10)) acc in
  match fuel with
  | O => acc
  | S fuel' => if n <? 10 then acc else digits_of fuel' (n / 10) acc
  end.

(** The decimal text of an [int]. *)
Definition str_of_int (n : Z) : string :=
  if n <? 0 then String "-" (digits_of (Z.to_nat (Z.log2 (- n))) (- n) "")
  else digits_of (Z.to_nat (Z.log2 n)) n "".

(** [str(n)] of an [int], which is what an f-string puts for [{n}]: its
    decimal text, or the [ValueError] of the interpreter when that has
    more than [max_str_digits] digits. *)
Definition str (n : Z) : result string :=
  let text := str_of_int n in
  if Str.max_str_digits <? Str.count_digits text then Raise ValueError else Ok text.

(** ['s' if n != 1 else ''] *)
Definition plural (n : Z) : string := if n =? 1 then "" else "s".

(** [format_duration]; the f-strings put their numbers from left to
    right, and the [ValueError] of a number too long to show leaves the
    function. *)
Definition format_duration (minutes : Z) : result string :=
  if minutes <? 60 then
    shown ← str minutes;
    mret (shown +:+ " minutes")
  else if minutes <? 1440 then
    let hours := minutes / 60 in
    let mins := minutes mod 60 in
    if mins =? 0 then
      shown ← str hours;
      mret (shown +:+ " hour" +:+ plural hours)
    else
      shown ← str hours;
      shown_mins ← str mins;
      mret (shown +:+ " hour" +:+ plural hours +:+ " "
            +:+ shown_mins +:+ " minute" +:+ plural mins)
  else
    let days := minutes / 1440 in
    let remaining_hours := (minutes mod 1440) / 60 in
    if remaining_hours =? 0 then
      shown ← str days;
      mret (shown +:+ " day" +:+ plural days)
    else
      shown ← str days;
      shown_hours ← str remaining_hours;
      mret (shown +:+ " day" +:+ plural days +:+ " "
            +:+ shown_hours +:+ " hour" +:+ plural remaining_hours).

(* ================================================================== *)
(** * Shapes of the suggester's answers *)
(* ================================================================== *)

(** A time of day on the hour or on the half hour, in two digits each. *)
Definition half_hour_mark (t : string) : Prop :=
  exists h, 0 <= h <= 23 /\ (t = Dt.two_digits h +:+ ":00" \/ t = Dt.two_digits h +:+ ":30").

(** Every element of a list satisfies [P], for the outcome of a function
    of the suggester; nothing is said when it raises. *)
Definition all_slots (P : string -> Prop) (r : result (list string)) : Prop :=
  match r with
  | Ok l => Forall P l
  | Raise _ => True
  end.

(** The keys of a list never go down. *)
Fixpoint ascending {A} (key : A -> Z) (l : list A) : Prop :=
  match l with
  | [] => True
  | x :: l' => Forall (fun y => key x <= key y) l' /\ ascending key l'
  end.

(* ================================================================== *)
(** * Managing the schedules *)
(* ================================================================== *)

(** The functions of the schedule menu ask the operator and act on the
    store.  The lines the operator enters are arguments here, in the
    order of the prompts (a line that is not asked for is not used); the
    closing "Press Enter to continue" is left out, and of what is printed
    the model keeps the last message, as the value of the function. *)
Inductive notice : Type :=
| NoSchedules         (* "No schedules ..." *)
| NoActiveSchedules   (* "No active schedules!" *)
| InvalidSelection    (* "Invalid selection!" *)
| InvalidInput        (* "Invalid input!", from the bare [except] *)
| Toggled (active : bool)   (* "Schedule activated!" or "... deactivated!" *)
| Deleted             (* "Schedule deleted!" *)
| NotConfirmed        (* nothing *)
| Updated             (* "Schedule updated!" *)
| Ran                 (* nothing after the report of the run *)
| FileNotFound        (* "File not found: ..." *)
| ImportFailed        (* "Import failed: ..." *)
| Imported (imported_count : nat)   (* "Imported n schedules!" *)
| NeedTwoSchedules    (* "Need at least 2 schedules to check conflicts" *)
| NeedTwoActiveSchedules.
                      (* "Need at least 2 active schedules to check conflicts" *)

(** [get_user_input(prompt, default)] when the operator enters [typed];
    a default that is empty counts as none, as [None] does. *)
Definition get_user_input (default : option string) (typed : string) : string :=
  match default with
  | Some (String c r) =>
      let user_input := Str.strip typed in
      if String.eqb user_input "" then String c r else user_input
  | _ => Str.strip typed
  end.

(** The choice of an entry of a numbered list, as the menu functions make
    it: [choice = int(get_user_input(...)) - 1], then
    [0 <= choice < len(l)] and [l[choice]].  The [ValueError] of [int] is
    caught by the bare [except] of the caller. *)
Definition select {A} (typed : string) (l : list A) : notice + A :=
  match Str.int (get_user_input None typed) with
  | None => inl InvalidInput
  | Some n =>
      let choice := n - 1 in
      if (0 <=? choice) && (choice <? Z.of_nat (length l))
      then match l !! Z.to_nat choice with
           | Some x => inr x
           | None => inl InvalidSelection
           end
      else inl InvalidSelection
  end.

(** [get_user_input(prompt, default).lower() == 'y'] *)
Definition confirms (default typed : string) : bool :=
  String.eqb (Str.lower (get_user_input (Some default) typed)) "y".

Definition set_is_active (b : bool) (s : Schedule) : Schedule :=
  mkSchedule (id s) (name s) (search_terms s) (start_time s) (duration_minutes s)
    (limit_per_run s) (skip_duplicates s) (is_recurring s) b
    (last_run s) (total_runs s) (estimated_duration_minutes s) (auto_sequence s)
    (currently_running s).

Definition set_name (n : string) (s : Schedule) : Schedule :=
  mkSchedule (id s) n (search_terms s) (start_time s) (duration_minutes s)
    (limit_per_run s) (skip_duplicates s) (is_recurring s) (is_active s)
    (last_run s) (total_runs s) (estimated_duration_minutes s) (auto_sequence s)
    (currently_running s).

Definition set_start_time (t : string) (s : Schedule) : Schedule :=
  mkSchedule (id s) (name s) (search_terms s) t (duration_minutes s)
    (limit_per_run s) (skip_duplicates s) (is_recurring s) (is_active s)
    (last_run s) (total_runs s) (estimated_duration_minutes s) (auto_sequence s)
    (currently_running s).

Definition set_id (k : string) (s : Schedule) : Schedule :=
  mkSchedule k (name s) (search_terms s) (start_time s) (duration_minutes s)
    (limit_per_run s) (skip_duplicates s) (is_recurring s) (is_active s)
    (last_run s) (total_runs s) (estimated_duration_minutes s) (auto_sequence s)
    (currently_running s).

(** [del d[k]] for a key that is there. *)
Definition dict_del (k : string) (d : list (string * addr)) : list (string * addr) :=
  filter (fun kv => fst kv <> k) d.

Definition del_schedule (k : string) : M unit := fun st =>
  (Ok (), mkState (objects st) (dict_del k (schedules st)) (disk st) (console st)
            (clock_reads st) (runs st) (saves st)).

(** [self.schedules[k] = schedule] for a [Schedule] just made. *)
Definition add_schedule (k : string) (schedule : Schedule) : M unit := fun st =>
  (Ok (), mkState (objects st ++ [schedule])
            (dict_set k (length (objects st)) (schedules st)) (disk st) (console st)
            (clock_reads st) (runs st) (saves st)).

(** The file named to [import_schedules]. *)
Inductive import_source : Type :=
| Missing    (* there is no such file *)
| Broken     (* not JSON, or JSON that cannot be iterated: a number,
                [true], [false], [null] *)
| Items (data : list (option schedule_data)).
    (* a JSON array, or the keys of a JSON object, or the characters of a
       JSON string; [None] is an item no [Schedule] can be built from *)

Section Management.
Variable env : Env.

(** [toggle_schedule] *)
Definition toggle_schedule (typed : string) : M notice :=
  st ← get;
  match schedules st with
  | [] => mret NoSchedules
  | _ =>
      let schedules_list := map snd (schedules st) in
      match select typed schedules_list with
      | inl n => mret n
      | inr schedule =>
          update schedule (fun s => set_is_active (negb (is_active s)) s);;
          o ← deref schedule;
          save_schedules env;;
          mret (Toggled (from_option is_active false o))
      end
  end.

(** [delete_schedule] *)
Definition delete_schedule (typed confirm : string) : M notice :=
  st ← get;
  match schedules st with
  | [] => mret NoSchedules
  | _ =>
      let schedules_list := schedules st in
      match select typed schedules_list with
      | inl n => mret n
      | inr (schedule_id, schedule) =>
          if confirms "n" confirm
          then del_schedule schedule_id;; save_schedules env;; mret Deleted
          else mret NotConfirmed
      end
  end.

(** [edit_schedule] *)
Definition edit_schedule (typed new_name new_time : string) : M notice :=
  st ← get;
  match schedules st with
  | [] => mret NoSchedules
  | _ =>
      let schedules_list := map snd (schedules st) in
      match select typed schedules_list with
      | inl n => mret n
      | inr schedule =>
          o ← deref schedule;
          let new_name := get_user_input (Some (from_option name "" o)) new_name in
          (if negb (String.eqb new_name (from_option name "" o))
           then update schedule (set_name new_name) else mret ());;
          let new_time := get_user_input (Some (from_option start_time "" o)) new_time in
          (if validate_time_format new_time
           then update schedule (set_start_time new_time) else mret ());;
          save_schedules env;;
          mret Updated
      end
  end.

(** The key [import_schedules] gives the item it imports as number
    [imported_count], at the second [t] of [time.time()].  Both numbers
    are far from the 4300 digits past which an f-string raises: the one
    is the [int] of a [float], the other counts the items of a list. *)
Definition imported_id (t : Z) (imported_count : nat) : string :=
  "imported_" +:+ str_of_int t +:+ "_" +:+ str_of_int (Z.of_nat imported_count).

(** The [for] of [import_schedules]; [stamp n] is [int(time.time())]
    when item [n] is imported.  The value is [imported_count], or [None]
    when an item built no [Schedule] and the [TypeError] left the loop. *)
Fixpoint import_items (stamp : nat -> Z) (data : list (option schedule_data))
    (imported_count : nat) : M (option nat) :=
  match data with
  | [] => mret (Some imported_count)
  | None :: _ => mret None
  | Some schedule_data :: data' =>
      let new_id := imported_id (stamp imported_count) imported_count in
      add_schedule new_id (set_id new_id (from_data schedule_data));;
      import_items stamp data' (S imported_count)
  end.

(** [import_schedules] *)
Definition import_schedules (source : import_source) (stamp : nat -> Z) : M notice :=
  match source with
  | Missing => mret FileNotFound
  | Broken => mret ImportFailed
  | Items data =>
      imported_count ← import_items stamp data 0;
      match imported_count with
      | Some n => save_schedules env;; mret (Imported n)
      | None => mret ImportFailed
      end
  end.

(** [manual_schedule_run]; the bare [except] takes whatever leaves
    [execute_schedule], the operator's interrupt included. *)
Definition manual_schedule_run (typed confirm : string) : M notice :=
  st ← get;
  match schedules st with
  | [] => mret NoSchedules
  | _ =>
      let active_schedules := active_schedules st in
      match active_schedules with
      | [] => mret NoActiveSchedules
      | _ =>
          match select typed active_schedules with
          | inl n => mret n
          | inr selected_schedule =>
              if confirms "y" confirm
              then fun st =>
                     match execute_schedule env selected_schedule st with
                     | (Ok _, st') => (Ok Ran, st')
                     | (Raise _, st') => (Ok InvalidInput, st')
                     end
              else mret NotConfirmed
          end
      end
  end.

End Management.

(** The pairs the two [for]s of [conflict_checker] go through: every
    entry with each entry after it. *)
Fixpoint pairs {A} (l : list A) : list (A * A) :=
  match l with
  | [] => []
  | x :: r => map (pair x) r ++ pairs r
  end.

(** The list [conflicts] that [conflict_checker] builds for a pair (the
    message of [check_execution_overlap] is never empty). *)
Definition issues_between (schedule1 schedule2 : Schedule) : list string :=
  (if String.eqb (start_time schedule1) (start_time schedule2)
   then ["Same start time: " +:+ start_time schedule1] else [])
  ++ match check_execution_overlap schedule1 schedule2 with
     | Some overlap => ["Execution windows overlap"]
     | None => []
     end.

(** [conflict_checker]: the message that ends it early, or the conflicts
    it prints, in their order, each with its two schedules and its
    issues; "NO CONFLICTS DETECTED!" is printed when that list is
    empty. *)
Definition conflict_checker (st : State)
  : notice + list (Schedule * Schedule * list string) :=
  if (length (schedules st) <? 2)%nat then inl NeedTwoSchedules
  else
    let active_schedules := filter (fun s => is_active s = true) (values st) in
    if (length active_schedules <? 2)%nat then inl NeedTwoActiveSchedules
    else
      inr (flat_map (fun p =>
             let conflicts := issues_between (fst p) (snd p) in
             match conflicts with
             | [] => []
             | _ => [(fst p, snd p, conflicts)]
             end) (pairs active_schedules)).

(** Every key of the dictionary is the id of the schedule it leads to,
    and no key is there twice. *)
Definition keyed (st : State) : Prop :=
  NoDup (map fst (schedules st))
  /\ Forall (fun kv => exists s, objects st !! snd kv = Some s /\ id s = fst kv)
       (schedules st).

(** The dictionary is the same and every object is still there with the
    id it had. *)
Definition same_ids (st st' : State) : Prop :=
  schedules st' = schedules st
  /\ forall a s, objects st !! a = Some s ->
       exists s', objects st' !! a = Some s' /\ id s' = id s.

(** Stateful code that keeps dictionary and ids, however it ends. *)
Definition steady {A} (m : M A) : Prop := forall st, same_ids st (snd (m st)).

(* ================================================================== *)
(** * Counting the runs of a schedule *)
(* ================================================================== *)


(** The lines [execute_schedule] prints before its report. *)
Definition run_line (l : line) : Prop :=
  match l with
  | SaveError | Executing _ | Running _ _ _ | SearchCompleted | SearchFailed
  | SearchError => True
  | _ => False
  end.



(* ================================================================== *)
(** * More sample schedules *)
(* ================================================================== *)

(** As [calm], with the long format read back as a time of the day of
    [morning]. *)
Definition today : Env :=
  {| clock := fun _ => morning;
     runner := fun _ => Returned 0;
     writes := fun _ => Written;
     strftime_full := Dt.strftime_HM;
     strptime_full := fun text =>
       match Dt.strptime_HM text with
       | Ok t => Ok (46000 * Dt.us_per_day + t)
       | Raise e => Raise e
       end |}.

(** An hourly schedule that ran once, at 08:00. *)
Definition hourly : Schedule :=
  {| id := "h"; name := "h"; search_terms := ["cafes"]; start_time := "08:00";
     duration_minutes := 60; limit_per_run := 100; skip_duplicates := true;
     is_recurring := true; is_active := true; last_run := "08:00"; total_runs := 1;
     estimated_duration_minutes := 15; auto_sequence := false;
     currently_running := false |}.
(* ================================================================== *)
(** * Times of day *)
(* ================================================================== *)

Lemma isdigit_value c : Str.isdecimal c = true -> 0 <= Str.digit_value c <= 9.
Proof. unfold Str.isdecimal, Str.digit_value. lia. Qed.

(** Membership in a list of at most one element. *)
Ltac one_element H :=
  first [ apply list_elem_of_singleton in H | apply elem_of_nil in H; destruct H ].

Lemma match_H_range s h r : (h, r) ∈ Dt.match_H s -> 0 <= h <= 23.
Proof.
  destruct s as [|a [|b r']]; simpl.
  - intros H. one_element H.
  - destruct (Str.isdecimal a) eqn:Ha; intros H; one_element H.
    injection H as -> _. pose proof (isdigit_value _ Ha). lia.
  - rewrite !elem_of_app. intros [[H|H]|H].
    + destruct (Ascii.eqb a "2" && Str.isdecimal b && (Str.digit_value b <=? 3)) eqn:E;
        one_element H.
      injection H as -> _.
      apply andb_prop in E as [E1 E3]. apply andb_prop in E1 as [_ E2].
      pose proof (isdigit_value _ E2). lia.
    + destruct ((Ascii.eqb a "0" || Ascii.eqb a "1") && Str.isdecimal b) eqn:E;
        one_element H.
      injection H as -> _.
      apply andb_prop in E as [E1 E2]. pose proof (isdigit_value _ E2).
      apply orb_prop in E1 as [E1|E1]; apply Ascii.eqb_eq in E1; subst a;
        change (Str.digit_value "0") with 0; change (Str.digit_value "1") with 1; lia.
    + destruct (Str.isdecimal a) eqn:Ha; one_element H.
      injection H as -> _. pose proof (isdigit_value _ Ha). lia.
Qed.

Lemma match_M_range s m r : (m, r) ∈ Dt.match_M s -> 0 <= m <= 59.
Proof.
  destruct s as [|a [|b r']]; simpl.
  - intros H. one_element H.
  - destruct (Str.isdecimal a) eqn:Ha; intros H; one_element H.
    injection H as -> _. pose proof (isdigit_value _ Ha). lia.
  - rewrite elem_of_app. intros [H|H].
    + destruct (Str.isdecimal a && (Str.digit_value a <=? 5) && Str.isdecimal b) eqn:E;
        one_element H.
      injection H as -> _.
      apply andb_prop in E as [E1 E3]. apply andb_prop in E1 as [E1 E2].
      pose proof (isdigit_value _ E1). pose proof (isdigit_value _ E3). lia.
    + destruct (Str.isdecimal a) eqn:Ha; one_element H.
      injection H as -> _. pose proof (isdigit_value _ Ha). lia.
Qed.

(** What [strptime] reads is a time of day on 1900-01-01, at a whole
    minute. *)
Lemma strptime_HM_of_hm s t :
  Dt.strptime_HM s = Ok t ->
  exists h m, t = Dt.of_hm h m /\ 0 <= h <= 23 /\ 0 <= m <= 59.
Proof.
  unfold Dt.strptime_HM.
  destruct (Dt.matches_HM s) as [|[[h m] r] l] eqn:E; [discriminate|].
  destruct r; [|discriminate]. intros [= <-].
  assert (Hin : (h, m, EmptyString) ∈ Dt.matches_HM s) by (rewrite E; left).
  unfold Dt.matches_HM in Hin.
  apply list_elem_of_bind in Hin as ([h' r1] & Hin & HH).
  apply list_elem_of_bind in Hin as (r2 & Hin & _).
  apply list_elem_of_bind in Hin as ([m' r3] & Hin & HM).
  apply list_elem_of_singleton in Hin. injection Hin as -> -> _.
  exists h', m'. split; [reflexivity|].
  split; [eapply match_H_range | eapply match_M_range]; eassumption.
Qed.

Lemma strptime_HM_range s t :
  Dt.strptime_HM s = Ok t -> 0 <= t < Dt.us_per_day.
Proof.
  intros (h & m & -> & Hh & Hm)%strptime_HM_of_hm.
  unfold Dt.of_hm, Dt.us_per_day, Dt.us_per_hour, Dt.us_per_minute, Dt.us_per_second.
  lia.
Qed.

(** Unfolds the units of time for [lia]. *)
Ltac units :=
  unfold Dt.min, Dt.max, Dt.us_per_day, Dt.us_per_hour, Dt.us_per_minute,
    Dt.us_per_second in *.

Lemma make_timedelta_ok us :
  - 999999999 * Dt.us_per_day <= us <= 999999999 * Dt.us_per_day ->
  Dt.make_timedelta us = Ok us.
Proof.
  intros H. unfold Dt.make_timedelta.
  assert (-999999999 <= us / Dt.us_per_day)
    by (apply Z.div_le_lower_bound; units; lia).
  assert (us / Dt.us_per_day <= 999999999)
    by (apply Z.div_le_upper_bound; units; lia).
  assert ((-999999999 <=? us / Dt.us_per_day) && (us / Dt.us_per_day <=? 999999999) = true)
    as -> by lia.
  reflexivity.
Qed.

Lemma add_minutes_ok t n :
  Dt.min <= t + n * Dt.us_per_minute <= Dt.max ->
  - 999999999 * Dt.us_per_day <= n * Dt.us_per_minute <= 999999999 * Dt.us_per_day ->
  Dt.add_minutes t n = Ok (t + n * Dt.us_per_minute).
Proof.
  intros Hr Hd. unfold Dt.add_minutes, Dt.minutes.
  rewrite (make_timedelta_ok _ Hd). cbn. unfold Dt.add.
  assert ((Dt.min <=? t + n * Dt.us_per_minute)
          && (t + n * Dt.us_per_minute <=? Dt.max) = true) as -> by lia.
  reflexivity.
Qed.

(** Whatever [add_minutes] returns is the sum. *)
Lemma add_minutes_inv t n e :
  Dt.add_minutes t n = Ok e ->
  e = t + n * Dt.us_per_minute /\ Dt.min <= e <= Dt.max.
Proof.
  unfold Dt.add_minutes, Dt.minutes, Dt.make_timedelta.
  destruct (_ && _); cbn; [|discriminate].
  unfold Dt.add.
  destruct ((Dt.min <=? t + n * Dt.us_per_minute)
            && (t + n * Dt.us_per_minute <=? Dt.max)) eqn:E; [|discriminate].
  intros [= <-]. lia.
Qed.

(* ================================================================== *)
(** * Interval math *)
(* ================================================================== *)

(** C7, as amended.  When both start times parse, the first schedule's
    estimated duration is at least one minute and its window ends exactly
    where the second one's starts, [check_execution_overlap] reports no
    overlap, whichever schedule is given first. *)
Theorem touching_windows_do_not_overlap (A B : Schedule) (t1 t2 : datetime) :
  Dt.strptime_HM (start_time A) = Ok t1 ->
  Dt.strptime_HM (start_time B) = Ok t2 ->
  1 <= estimated_duration_minutes A ->
  t1 + estimated_duration_minutes A * Dt.us_per_minute = t2 ->
  check_execution_overlap A B = None /\ check_execution_overlap B A = None.
Proof.
  intros H1 H2 Hd Ht.
  pose proof (strptime_HM_range _ _ H1) as R1.
  pose proof (strptime_HM_range _ _ H2) as R2.
  assert (Hadd : Dt.add_minutes t1 (estimated_duration_minutes A) = Ok t2).
  { rewrite <- Ht. apply add_minutes_ok.
    - rewrite Ht. unfold Dt.min, Dt.max, Dt.us_per_day, Dt.us_per_hour,
        Dt.us_per_minute, Dt.us_per_second in *. lia.
    - units. lia. }
  assert (t1 < t2) by (unfold Dt.us_per_minute, Dt.us_per_second in *; lia).
  unfold check_execution_overlap, windows_overlap.
  rewrite H1, H2. cbn. rewrite Hadd. cbn.
  destruct (Dt.add_minutes t2 (estimated_duration_minutes B)) as [e2|] eqn:E2; cbn.
  - replace (t2 <? t2) with false by lia.
    replace (t2 <=? t1) with false by lia.
    rewrite !andb_false_r, !andb_false_l. cbn. split; reflexivity.
  - split; reflexivity.
Qed.

(** The theorem at 09:00 for 30 minutes, followed by a schedule at 09:30. *)
Lemma touching_windows_do_not_overlap_witness :
  check_execution_overlap (sample "a" "09:00" 30 true) (sample "b" "09:30" 15 true) = None
  /\ check_execution_overlap (sample "b" "09:30" 15 true) (sample "a" "09:00" 30 true) = None.
Proof.
  apply (touching_windows_do_not_overlap (sample "a" "09:00" 30 true)
           (sample "b" "09:30" 15 true) (Dt.of_hm 9 0) (Dt.of_hm 9 30));
    [reflexivity | reflexivity | simpl; lia | reflexivity].
Defined.

(** Without the bound on the duration the statement fails: a schedule with
    an empty window at 09:00 touches one that starts at 09:00, and the test
    reports an overlap. *)
Lemma touching_empty_window_overlaps :
  ~ (forall (A B : Schedule) (t1 t2 : datetime),
        Dt.strptime_HM (start_time A) = Ok t1 ->
        Dt.strptime_HM (start_time B) = Ok t2 ->
        t1 + estimated_duration_minutes A * Dt.us_per_minute = t2 ->
        check_execution_overlap A B = None).
Proof.
  intros H.
  specialize (H (sample "a" "09:00" 0 true) (sample "b" "09:00" 30 true)
                (Dt.of_hm 9 0) (Dt.of_hm 9 0) eq_refl eq_refl eq_refl).
  vm_compute in H. discriminate H.
Qed.

(* ================================================================== *)
(** * The conflict detector *)
(* ================================================================== *)

Lemma check_schedule_conflicts_cons existing schedules new_schedule :
  check_schedule_conflicts (existing :: schedules) new_schedule
  = check_schedule_conflicts [existing] new_schedule
    ++ check_schedule_conflicts schedules new_schedule.
Proof. unfold check_schedule_conflicts. cbn. rewrite app_nil_r. reflexivity. Qed.

Lemma check_schedule_conflicts_inactive existing new_schedule :
  is_active existing = false ->
  check_schedule_conflicts [existing] new_schedule = [].
Proof. intros H. unfold check_schedule_conflicts. cbn. rewrite H. reflexivity. Qed.

(** C3, as amended.  Inactive schedules contribute nothing to the result
    of [check_schedule_conflicts]; every active schedule of the store with
    the candidate's start time yields a direct-time-conflict record, the
    candidate's own entry included: the store is scanned without regard
    to identity. *)
Theorem conflicts_skip_inactive_only (schedules : list Schedule) (new_schedule : Schedule) :
  check_schedule_conflicts schedules new_schedule
  = check_schedule_conflicts (filter (fun s => is_active s = true) schedules) new_schedule
  /\ (forall existing : Schedule,
        existing ∈ schedules -> is_active existing = true ->
        start_time existing = start_time new_schedule ->
        ("Direct time conflict with '" +:+ name existing +:+ "' at " +:+ start_time existing)
          ∈ check_schedule_conflicts schedules new_schedule)
  /\ (new_schedule ∈ schedules -> is_active new_schedule = true ->
        check_schedule_conflicts schedules new_schedule <> []).
Proof.
  assert (Hdirect : forall existing : Schedule,
    existing ∈ schedules -> is_active existing = true ->
    start_time existing = start_time new_schedule ->
    ("Direct time conflict with '" +:+ name existing +:+ "' at " +:+ start_time existing)
      ∈ check_schedule_conflicts schedules new_schedule).
  { intros existing Hin Hact Hst.
    induction schedules as [|x l IH]; [inversion Hin|].
    rewrite check_schedule_conflicts_cons, elem_of_app.
    apply elem_of_cons in Hin as [<-|Hin]; [left | right; auto].
    unfold check_schedule_conflicts. cbn. rewrite Hact, Hst, String.eqb_refl. cbn.
    left. }
  repeat split.
  - clear Hdirect. induction schedules as [|x l IH]; [reflexivity|].
    rewrite check_schedule_conflicts_cons, filter_cons.
    destruct (decide (is_active x = true)) as [Hx|Hx].
    + rewrite (check_schedule_conflicts_cons x (filter _ l)), <- IH. reflexivity.
    + apply not_true_is_false in Hx.
      rewrite (check_schedule_conflicts_inactive _ _ Hx), <- IH. reflexivity.
  - exact Hdirect.
  - intros Hin Hact Hnil.
    specialize (Hdirect new_schedule Hin Hact eq_refl).
    rewrite Hnil in Hdirect. inversion Hdirect.
Qed.

(** The theorem on a store with one active schedule, asked about that
    very schedule. *)
Lemma conflicts_skip_inactive_only_witness :
  ("Direct time conflict with 'a' at 09:00"
     ∈ check_schedule_conflicts [sample "a" "09:00" 30 true] (sample "a" "09:00" 30 true))
  /\ check_schedule_conflicts [sample "a" "09:00" 30 true] (sample "a" "09:00" 30 true) <> [].
Proof.
  pose proof (conflicts_skip_inactive_only [sample "a" "09:00" 30 true]
                (sample "a" "09:00" 30 true)) as (_ & Hd & Hn).
  split.
  - apply (Hd (sample "a" "09:00" 30 true)); [left | reflexivity | reflexivity].
  - apply Hn; [left | reflexivity].
Defined.

(** The store holds the candidate, active: the entries with the
    candidate's id are not left out of the comparison. *)
Lemma candidate_is_compared_with_itself :
  ~ (forall (schedules : list Schedule) (new_schedule : Schedule),
        check_schedule_conflicts schedules new_schedule
        = check_schedule_conflicts
            (filter (fun s => id s <> id new_schedule) schedules) new_schedule).
Proof.
  intros H.
  specialize (H [sample "a" "09:00" 30 true] (sample "a" "09:00" 30 true)).
  vm_compute in H. discriminate H.
Qed.

(* ================================================================== *)
(** * Durations *)
(* ================================================================== *)

Lemma lower_char_digit c : Str.isdecimal c = true -> Str.lower_char c = c.
Proof.
  unfold Str.isdecimal, Str.lower_char. intros H.
  assert (((65 <=? Str.code c) && (Str.code c <=? 90))
          || ((192 <=? Str.code c) && (Str.code c <=? 222) && negb (Str.code c =? 215))
          = false) as -> by lia.
  reflexivity.
Qed.

Lemma isdigit_not_space c : Str.isdecimal c = true -> Str.isspace c = false.
Proof. unfold Str.isdecimal, Str.isspace. lia. Qed.

Lemma all_digits_cons d r :
  all_digits (String d r) = true -> Str.isdecimal d = true /\ all_digits r = true.
Proof. intros H. apply andb_prop in H. exact H. Qed.

Lemma lower_digits_app ds t :
  all_digits ds = true -> Str.lower (ds +:+ t) = ds +:+ Str.lower t.
Proof.
  induction ds as [|d r IH]; [reflexivity|].
  intros [Hd Hr]%all_digits_cons.
  change (Str.lower (String d r +:+ t))
    with (String (Str.lower_char d) (Str.lower (r +:+ t))).
  rewrite (lower_char_digit _ Hd), (IH Hr). reflexivity.
Qed.

(** A suffix that begins with a letter cannot begin among the digits. *)
Lemma endswith_digits_app ds t c suffix :
  all_digits ds = true -> Str.isdecimal c = false ->
  Str.endswith (ds +:+ t) (String c suffix) = Str.endswith t (String c suffix).
Proof.
  intros Hds Hc. induction ds as [|d r IH]; [reflexivity|].
  apply all_digits_cons in Hds as [Hd Hr].
  change (Str.endswith (String d r +:+ t) (String c suffix))
    with (if String.eqb (String d (r +:+ t)) (String c suffix) then true
          else Str.endswith (r +:+ t) (String c suffix)).
  change (String.eqb (String d (r +:+ t)) (String c suffix))
    with (if Ascii.eqb d c then String.eqb (r +:+ t) suffix else false).
  destruct (Ascii.eqb_spec d c) as [->|_]; [congruence|].
  apply IH, Hr.
Qed.

Lemma remove_digits_app ds t c old :
  all_digits ds = true -> Str.isdecimal c = false ->
  Str.remove (String c old) (ds +:+ t) = ds +:+ Str.remove (String c old) t.
Proof.
  intros Hds Hc. unfold Str.remove. induction ds as [|d r IH]; [reflexivity|].
  apply all_digits_cons in Hds as [Hd Hr].
  change (Str.remove_from (String c old) 0 (String d r +:+ t))
    with (if (if Ascii.ascii_dec c d then String.prefix old (r +:+ t) else false)
          then Str.remove_from (String c old) (Nat.pred (String.length (String c old))) (r +:+ t)
          else String d (Str.remove_from (String c old) 0 (r +:+ t))).
  destruct (Ascii.ascii_dec c d) as [->|_]; [congruence|].
  rewrite (IH Hr). reflexivity.
Qed.

Lemma int_digits_digits ds acc b :
  all_digits ds = true -> ds <> "" ->
  Str.int_digits acc b ds
  = Some (fold_left (fun n c => 10 * n + Str.digit_value c) (list_ascii_of_string ds) acc).
Proof.
  revert acc b. induction ds as [|d r IH]; [congruence|].
  intros acc b [Hd Hr]%all_digits_cons _.
  change (Str.int_digits acc b (String d r))
    with (if Str.isdecimal d then Str.int_digits (10 * acc + Str.digit_value d) true r
          else if Ascii.eqb d "_"
               then if b then Str.int_digits acc false r else None
               else None).
  rewrite Hd. destruct r as [|d' r'].
  - reflexivity.
  - apply (IH _ _ Hr). discriminate.
Qed.

Lemma append_cons c r t : String c r +:+ t = String c (r +:+ t).
Proof. reflexivity. Qed.

Lemma append_empty_r s : s +:+ "" = s.
Proof. induction s as [|c r IH]; [reflexivity|]. rewrite append_cons, IH. reflexivity. Qed.

Lemma no_space_digits_app ds t :
  all_digits ds = true -> no_space t = true -> no_space (ds +:+ t) = true.
Proof.
  intros Hds Ht. induction ds as [|d r IH]; [exact Ht|].
  apply all_digits_cons in Hds as [Hd Hr]. rewrite append_cons. cbn.
  rewrite (isdigit_not_space _ Hd), (IH Hr). reflexivity.
Qed.

Lemma no_space_cons c r :
  no_space (String c r) = true -> Str.isspace c = false /\ no_space r = true.
Proof. cbn. intros [Hc Hr]%andb_prop. apply negb_true_iff in Hc. auto. Qed.

Section Strip.
(** White space in the sense of [strip] or in the narrower one of [int]. *)
Variable sp : ascii -> bool.
Hypothesis sp_isspace : forall c, sp c = true -> Str.isspace c = true.

Lemma sp_no_space c : Str.isspace c = false -> sp c = false.
Proof.
  intros H. destruct (sp c) eqn:E; [|reflexivity].
  apply sp_isspace in E. congruence.
Qed.

Lemma lstrip_by_no_space s : no_space s = true -> Str.lstrip_by sp s = s.
Proof.
  destruct s as [|c r]; [reflexivity|]. intros [Hc _]%no_space_cons.
  cbn. rewrite (sp_no_space _ Hc). reflexivity.
Qed.

Lemma rstrip_by_no_space s : no_space s = true -> Str.rstrip_by sp s = s.
Proof.
  induction s as [|c r IH]; [reflexivity|]. intros [Hc Hr]%no_space_cons.
  cbn. rewrite (IH Hr), (sp_no_space _ Hc). destruct r; reflexivity.
Qed.

Lemma strip_by_no_space s : no_space s = true -> Str.strip_by sp s = s.
Proof.
  intros H. unfold Str.strip_by.
  rewrite (lstrip_by_no_space _ H). apply rstrip_by_no_space, H.
Qed.
End Strip.

Lemma isspace_int_isspace c : Str.isspace_int c = true -> Str.isspace c = true.
Proof. unfold Str.isspace_int, Str.isspace. lia. Qed.

Lemma lstrip_no_space s : no_space s = true -> Str.lstrip s = s.
Proof. apply lstrip_by_no_space. auto. Qed.

Lemma strip_no_space s : no_space s = true -> Str.strip s = s.
Proof. apply strip_by_no_space. auto. Qed.

Lemma token_no_space s : no_space s = true -> Str.token s = s.
Proof.
  induction s as [|c r IH]; [reflexivity|]. intros [Hc Hr]%no_space_cons.
  cbn. rewrite Hc, (IH Hr). reflexivity.
Qed.

Lemma split_first_no_space s :
  no_space s = true -> s <> "" -> Str.split_first s = Some s.
Proof.
  intros H Hne. unfold Str.split_first. rewrite (lstrip_no_space _ H).
  destruct s; [congruence|]. rewrite (token_no_space _ H). reflexivity.
Qed.

Lemma app_not_empty ds t : ds <> "" -> ds +:+ t <> "".
Proof. destruct ds; [congruence|discriminate]. Qed.

Lemma count_digits_all_digits ds :
  all_digits ds = true -> Str.count_digits ds = Z.of_nat (String.length ds).
Proof.
  induction ds as [|d r IH]; [reflexivity|]. intros [Hd Hr]%all_digits_cons.
  cbn [Str.count_digits String.length]. rewrite Hd, (IH Hr). lia.
Qed.

(** [int] of a text of digits is the number the digits denote, as long as
    they are no more than the interpreter converts. *)
Lemma int_of_digits ds :
  all_digits ds = true -> ds <> "" ->
  Str.int ds
  = if Z.of_nat (String.length ds) <=? Str.max_str_digits
    then Some (decimal_value ds) else None.
Proof.
  intros Hds Hne. unfold Str.int, decimal_value.
  assert (Hns : no_space ds = true).
  { rewrite <- (append_empty_r ds). apply no_space_digits_app; [exact Hds|reflexivity]. }
  rewrite (strip_by_no_space _ isspace_int_isspace _ Hns).
  rewrite (count_digits_all_digits _ Hds).
  destruct (Z.leb_spec (Z.of_nat (String.length ds)) Str.max_str_digits) as [Hlen|Hlen].
  - assert ((Str.max_str_digits <? Z.of_nat (String.length ds)) = false) as -> by lia.
    rewrite <- (int_digits_digits ds 0 false Hds Hne).
    destruct ds as [|d r]; [congruence|].
    apply all_digits_cons in Hds as [Hd _].
    destruct d as [[] [] [] [] [] [] [] []]; try discriminate Hd; reflexivity.
  - assert ((Str.max_str_digits <? Z.of_nat (String.length ds)) = true) as -> by lia.
    reflexivity.
Qed.

(** Evaluates the string operations left on literal text, the part of the
    goal that does not mention [ds]. *)
Ltac eval_literals ds :=
  repeat match goal with
    | |- context [Str.endswith ?a ?b] =>
        lazymatch a with context [ds] => fail | _ => idtac end;
        let v := eval vm_compute in (Str.endswith a b) in
        change (Str.endswith a b) with v
    end;
  repeat match goal with
    | |- context [ds +:+ ?x] =>
        lazymatch x with context [ds] => fail | _ => idtac end;
        let v := eval vm_compute in x in progress change x with v
    end.

(** The steps of [validate_duration] on digits followed by a literal
    suffix of lower-case letters. *)
Ltac run_validate_duration ds Hds Hne :=
  unfold validate_duration;
  rewrite (lower_digits_app ds _ Hds);
  eval_literals ds;
  rewrite (strip_no_space (ds +:+ _))
    by (apply no_space_digits_app; [exact Hds | reflexivity]);
  rewrite ?(endswith_digits_app ds _ _ _ Hds) by reflexivity;
  eval_literals ds;
  cbv beta iota delta [orb];
  rewrite ?split_first_no_space
    by first [ apply no_space_digits_app; [exact Hds | reflexivity]
             | apply app_not_empty, Hne ];
  rewrite ?(remove_digits_app ds _ _ _ Hds) by reflexivity;
  eval_literals ds;
  rewrite append_empty_r, (int_of_digits ds Hds Hne).

Lemma validate_duration_minutes ds t :
  all_digits ds = true -> ds <> "" ->
  t ∈ [""; "m"; "min"; "minute"; "minutes"] ->
  validate_duration (ds +:+ t)
  = if Z.of_nat (String.length ds) <=? Str.max_str_digits
    then Some (decimal_value ds) else None.
Proof.
  intros Hds Hne Ht.
  repeat (apply elem_of_cons in Ht as [->|Ht]); [..|one_element Ht];
    run_validate_duration ds Hds Hne; reflexivity.
Qed.

Lemma validate_duration_hours ds t :
  all_digits ds = true -> ds <> "" ->
  t ∈ ["h"; "hour"; "hours"] ->
  validate_duration (ds +:+ t)
  = if Z.of_nat (String.length ds) <=? Str.max_str_digits
    then Some (decimal_value ds * 60) else None.
Proof.
  intros Hds Hne Ht.
  repeat (apply elem_of_cons in Ht as [->|Ht]); [..|one_element Ht];
    run_validate_duration ds Hds Hne;
    destruct (Z.of_nat (String.length ds) <=? Str.max_str_digits); reflexivity.
Qed.

Lemma validate_duration_days ds t :
  all_digits ds = true -> ds <> "" ->
  t ∈ ["d"; "day"; "days"] ->
  validate_duration (ds +:+ t)
  = if Z.of_nat (String.length ds) <=? Str.max_str_digits
    then Some (decimal_value ds * 1440) else None.
Proof.
  intros Hds Hne Ht.
  repeat (apply elem_of_cons in Ht as [->|Ht]); [..|one_element Ht];
    run_validate_duration ds Hds Hne;
    (destruct (Z.of_nat (String.length ds) <=? Str.max_str_digits);
     [f_equal; lia | reflexivity]).
Qed.

(** ** Texts without a digit *)

Lemma isdigit_lower_char c : Str.isdecimal (Str.lower_char c) = Str.isdecimal c.
Proof. destruct c as [[] [] [] [] [] [] [] []]; reflexivity. Qed.

Lemma has_digit_lower s : has_digit (Str.lower s) = has_digit s.
Proof.
  induction s as [|c r IH]; [reflexivity|].
  cbn. rewrite isdigit_lower_char, IH. reflexivity.
Qed.

Lemma has_digit_cons c r :
  has_digit (String c r) = false -> Str.isdecimal c = false /\ has_digit r = false.
Proof. cbn. intros H. apply orb_false_elim in H. exact H. Qed.

Lemma has_digit_lstrip_by sp s :
  has_digit s = false -> has_digit (Str.lstrip_by sp s) = false.
Proof.
  induction s as [|c r IH]; [reflexivity|]. intros H.
  cbn. destruct (sp c); [|exact H].
  apply has_digit_cons in H as [_ H]. apply IH, H.
Qed.

Lemma has_digit_rstrip_by sp s :
  has_digit s = false -> has_digit (Str.rstrip_by sp s) = false.
Proof.
  induction s as [|c r IH]; [reflexivity|]. intros [Hc Hr]%has_digit_cons.
  specialize (IH Hr). cbn.
  destruct (Str.rstrip_by sp r) as [|c' r'].
  - destruct (sp c); [reflexivity|]. cbn. rewrite Hc. reflexivity.
  - cbn in IH |- *. rewrite Hc. exact IH.
Qed.

Lemma has_digit_strip_by sp s :
  has_digit s = false -> has_digit (Str.strip_by sp s) = false.
Proof. intros H. apply has_digit_rstrip_by, has_digit_lstrip_by, H. Qed.

Lemma has_digit_token s : has_digit s = false -> has_digit (Str.token s) = false.
Proof.
  induction s as [|c r IH]; [reflexivity|]. intros [Hc Hr]%has_digit_cons.
  cbn. destruct (Str.isspace c); [reflexivity|]. cbn. rewrite Hc. apply IH, Hr.
Qed.

Lemma has_digit_split_first s w :
  has_digit s = false -> Str.split_first s = Some w -> has_digit w = false.
Proof.
  intros H%(has_digit_lstrip_by Str.isspace). unfold Str.split_first.
  change (Str.lstrip s) with (Str.lstrip_by Str.isspace s).
  destruct (Str.lstrip_by Str.isspace s) as [|c r]; [discriminate|]. intros [= <-].
  apply (has_digit_token (String c r)), H.
Qed.

Lemma has_digit_remove_from old skip s :
  has_digit s = false -> has_digit (Str.remove_from old skip s) = false.
Proof.
  revert skip. induction s as [|c r IH]; [reflexivity|].
  intros skip [Hc Hr]%has_digit_cons.
  destruct skip; [|apply IH, Hr].
  change (Str.remove_from old 0 (String c r))
    with (if String.prefix old (String c r)
          then Str.remove_from old (Nat.pred (String.length old)) r
          else String c (Str.remove_from old 0 r)).
  destruct (String.prefix old (String c r)); [apply IH, Hr|].
  cbn. rewrite Hc. apply IH, Hr.
Qed.

Lemma has_digit_remove old s :
  has_digit s = false -> has_digit (Str.remove old s) = false.
Proof. apply has_digit_remove_from. Qed.

Lemma int_digits_no_digit acc s :
  has_digit s = false -> Str.int_digits acc false s = None.
Proof.
  destruct s as [|c r]; [reflexivity|]. intros [Hc _]%has_digit_cons.
  cbn. rewrite Hc. destruct (Ascii.eqb c "_"); reflexivity.
Qed.

(** [int] refuses a text without a digit. *)
Lemma int_no_digit s : has_digit s = false -> Str.int s = None.
Proof.
  intros H%(has_digit_strip_by Str.isspace_int). unfold Str.int.
  destruct (Str.max_str_digits <? _); [reflexivity|].
  destruct (Str.strip_by Str.isspace_int s) as [|c r]; [reflexivity|].
  pose proof (int_digits_no_digit 0 _ H) as H1.
  apply has_digit_cons in H as [_ H].
  pose proof (int_digits_no_digit 0 _ H) as H2.
  destruct c as [[] [] [] [] [] [] [] []];
    first [exact H1 | exact H2 | cbv iota beta; rewrite H2; reflexivity].
Qed.

Lemma validate_duration_no_digit s : has_digit s = false -> validate_duration s = None.
Proof.
  intros H. unfold validate_duration.
  assert (Ht : has_digit (Str.strip (Str.lower s)) = false)
    by (apply has_digit_strip_by; rewrite has_digit_lower; exact H).
  repeat match goal with |- (if ?b then _ else _) = None => destruct b end;
    try (apply int_no_digit, Ht);
    (destruct (Str.split_first _) as [w|] eqn:Ew; [|reflexivity]);
    apply (has_digit_split_first _ _ Ht) in Ew;
    rewrite int_no_digit by (repeat apply has_digit_remove; exact Ew);
    reflexivity.
Qed.

(** X24.  Decimal digits, alone or followed by a minute suffix, are read
    as their number; followed by an hour suffix as the number times 60,
    followed by a day suffix as the number times 1440.  That holds for
    up to 4300 digits, the most [int] converts: with more digits
    [validate_duration] returns [None], whatever the suffix. *)
Theorem validate_duration_of_digits (ds : string) :
  all_digits ds = true -> ds <> "" ->
  let minutes unit :=
    if Z.of_nat (String.length ds) <=? Str.max_str_digits
    then Some (decimal_value ds * unit) else None in
  (validate_duration ds = minutes 1
   /\ validate_duration (ds +:+ "m") = minutes 1
   /\ validate_duration (ds +:+ "min") = minutes 1
   /\ validate_duration (ds +:+ "minute") = minutes 1
   /\ validate_duration (ds +:+ "minutes") = minutes 1)
  /\ (validate_duration (ds +:+ "h") = minutes 60
      /\ validate_duration (ds +:+ "hour") = minutes 60
      /\ validate_duration (ds +:+ "hours") = minutes 60)
  /\ (validate_duration (ds +:+ "d") = minutes 1440
      /\ validate_duration (ds +:+ "day") = minutes 1440
      /\ validate_duration (ds +:+ "days") = minutes 1440).
Proof.
  intros Hds Hne minutes. subst minutes. cbv beta. rewrite Z.mul_1_r.
  repeat split.
  - rewrite <- (append_empty_r ds) at 1.
    apply validate_duration_minutes; [exact Hds | exact Hne | left].
  - apply validate_duration_minutes; [exact Hds | exact Hne | do 1 right; left].
  - apply validate_duration_minutes; [exact Hds | exact Hne | do 2 right; left].
  - apply validate_duration_minutes; [exact Hds | exact Hne | do 3 right; left].
  - apply validate_duration_minutes; [exact Hds | exact Hne | do 4 right; left].
  - apply validate_duration_hours; [exact Hds | exact Hne | left].
  - apply validate_duration_hours; [exact Hds | exact Hne | do 1 right; left].
  - apply validate_duration_hours; [exact Hds | exact Hne | do 2 right; left].
  - apply validate_duration_days; [exact Hds | exact Hne | left].
  - apply validate_duration_days; [exact Hds | exact Hne | do 1 right; left].
  - apply validate_duration_days; [exact Hds | exact Hne | do 2 right; left].
Qed.

(** The theorem on the digits "90". *)
Lemma validate_duration_of_digits_witness :
  validate_duration "90" = Some 90
  /\ validate_duration "90min" = Some 90
  /\ validate_duration "90hours" = Some 5400
  /\ validate_duration "90d" = Some 129600.
Proof.
  pose proof (validate_duration_of_digits "90" eq_refl ltac:(discriminate))
    as ((H1 & _ & H2 & _) & (_ & _ & H3) & (H4 & _)).
  exact (conj H1 (conj H2 (conj H3 H4))).
Defined.

(** C9.  [validate_duration] does not reject every text that is none of
    the numeric forms: the letters of the suffixes are deleted wherever
    they stand in the first word, so "1s0m" is read as 10 minutes. *)
Lemma validate_duration_coerces :
  validate_duration "1s0m" = Some 10
  /\ ~ (forall s : string,
          (forall ds t : string,
             all_digits ds = true -> ds <> "" ->
             t ∈ [""; "m"; "min"; "minute"; "minutes"; "h"; "hour"; "hours";
                  "d"; "day"; "days"] ->
             s <> ds +:+ t) ->
          validate_duration s = None).
Proof.
  split; [reflexivity|].
  intros H. specialize (H "1s0m").
  assert (Hs : validate_duration "1s0m" = None); [|vm_compute in Hs; discriminate Hs].
  apply H. intros ds t Hds Hne Ht E.
  (* the digits of [ds] would have to be a prefix of "1s0m" that ends
     before the "s", so [ds] is "1" and [t] is "s0m" *)
  destruct ds as [|d1 [|d2 r]]; [congruence| |]; rewrite ?append_cons in E.
  - injection E as _ E. change ("" +:+ t) with t in E. subst t.
    repeat (apply elem_of_cons in Ht as [Ht|Ht]; [discriminate Ht|]). one_element Ht.
  - injection E as _ E _. subst d2.
    apply all_digits_cons in Hds as [_ Hds]. apply all_digits_cons in Hds as [Hds _].
    vm_compute in Hds. discriminate Hds.
Qed.

(* ================================================================== *)
(** * Loading the store *)
(* ================================================================== *)

Lemma load_records_objects data objs dict :
  fst (load_records data objs dict) = objs ++ map from_data data.
Proof.
  revert objs dict. induction data as [|d data IH]; intros objs dict.
  - cbn. rewrite app_nil_r. reflexivity.
  - cbn. rewrite IH, <- app_assoc. reflexivity.
Qed.

Lemma dict_set_elem k v d k' v' :
  (k', v') ∈ dict_set k v d -> (k', v') ∈ d \/ (k', v') = (k, v).
Proof.
  induction d as [|[k0 v0] d IH]; cbn.
  - intros H. one_element H. right. assumption.
  - destruct (String.eqb k0 k).
    + intros [->|H]%elem_of_cons; [right; reflexivity | left; right; exact H].
    + intros [->|H]%elem_of_cons; [left; left|].
      destruct (IH H) as [H'|H']; [left; right; exact H' | right; exact H'].
Qed.

(** Every key of the dictionary built from the records leads to the object
    made from one of them. *)
Lemma load_records_entries data objs dict k a :
  (k, a) ∈ snd (load_records data objs dict) ->
  (k, a) ∈ dict
  \/ exists i d, data !! i = Some d /\ a = (length objs + i)%nat /\ k = d_id d.
Proof.
  revert objs dict. induction data as [|d data IH]; intros objs dict; cbn.
  - intros H. left. exact H.
  - intros H. apply IH in H as [H|(i & d' & Hi & -> & ->)].
    + apply dict_set_elem in H as [H|[= -> ->]]; [left; exact H|].
      right. exists 0%nat, d. split; [reflexivity|]. split; [lia | reflexivity].
    + right. exists (S i), d'. split; [exact Hi|].
      rewrite length_app. cbn. split; [lia | reflexivity].
Qed.

Lemma dict_set_fresh k v d :
  k ∉ map fst d -> dict_set k v d = d ++ [(k, v)].
Proof.
  induction d as [|[k0 v0] d IH]; [reflexivity|]. cbn.
  intros H. apply not_elem_of_cons in H as [Hk H].
  destruct (String.eqb_spec k0 k) as [->|_]; [congruence|].
  rewrite (IH H). reflexivity.
Qed.

(** With one record per id the dictionary lists the records in order. *)
Lemma load_records_fresh data objs dict :
  NoDup (map d_id data) ->
  (forall d, d ∈ data -> d_id d ∉ map fst dict) ->
  snd (load_records data objs dict)
  = dict ++ imap (fun i d => (d_id d, (length objs + i)%nat)) data.
Proof.
  revert objs dict. induction data as [|d data IH]; intros objs dict Hnd Hfresh.
  - cbn. rewrite app_nil_r. reflexivity.
  - cbn in Hnd |- *. apply NoDup_cons in Hnd as [Hd Hnd].
    rewrite IH.
    + rewrite dict_set_fresh by (apply Hfresh; left).
      rewrite <- app_assoc. cbn. do 2 f_equal.
      * f_equal. lia.
      * apply imap_ext. intros i x _. cbn. rewrite length_app. cbn. f_equal. lia.
    + exact Hnd.
    + intros d' Hd'. rewrite dict_set_fresh by (apply Hfresh; left).
      rewrite map_app, elem_of_app. intros [H|H].
      * apply (Hfresh d'); [right; exact Hd' | exact H].
      * cbn in H. one_element H. apply Hd. rewrite <- H.
        apply list_elem_of_fmap_2 with (f := d_id) in Hd'. exact Hd'.
Qed.

Lemma omap_lookup_imap (objs : list Schedule) (data : list schedule_data) (n : nat) :
  omap (fun kv : string * addr => (objs ++ map from_data data) !! snd kv)
    (imap (fun i d => (d_id d, (length objs + n + i)%nat)) (drop n data))
  = map from_data (drop n data).
Proof.
  remember (drop n data) as rest eqn:E. revert n E.
  induction rest as [|d rest IH]; intros n E; [reflexivity|].
  cbn.
  assert (Hd : data !! n = Some d).
  { rewrite <- (Nat.add_0_r n), <- lookup_drop, <- E. reflexivity. }
  rewrite lookup_app_r by lia.
  replace (length objs + n + 0 - length objs)%nat with n by lia.
  rewrite list_lookup_fmap, Hd. cbn. f_equal.
  rewrite <- (IH (S n)).
  - f_equal. apply imap_ext. intros i x _. cbn. f_equal. lia.
  - rewrite (drop_S _ _ _ Hd) in E. injection E as E. exact E.
Qed.

(** C2, as amended.  [load_schedules] builds every schedule of the loaded
    store from a record of the file, with the [currently_running] value of
    that record ([False] when the record has none); with one record per id
    it loads all records, in order, and a record persisted with
    [currently_running = true] is loaded with [currently_running = true]. *)
Theorem load_keeps_currently_running
    (st : State) (data : list (option schedule_data)) (records : list schedule_data) :
  disk st = Records data -> all_records data = Some records ->
  exists st' : State,
    load_schedules st = (Ok (), st')
    /\ (forall s : Schedule, s ∈ values st' ->
          exists d, d ∈ records /\ s = from_data d
                    /\ currently_running s = default false (d_currently_running d))
    /\ (NoDup (map d_id records) ->
          values st' = map from_data records
          /\ forall d, d ∈ records -> d_currently_running d = Some true ->
               exists s, s ∈ values st' /\ id s = d_id d /\ currently_running s = true).
Proof.
  intros Hdisk Hall. unfold load_schedules. rewrite Hdisk, Hall.
  destruct (load_records records (objects st) []) as [objs dict] eqn:E.
  pose proof (load_records_objects records (objects st) []) as Hobjs.
  rewrite E in Hobjs. cbn in Hobjs. subst objs.
  eexists. split; [reflexivity|]. unfold values. cbn. split.
  - intros s (kv & Hkv & Hs)%list_elem_of_omap. destruct kv as [k a]. cbn in Hs.
    pose proof (load_records_entries records (objects st) [] k a) as H.
    rewrite E in H. destruct (H Hkv) as [H'|(i & d & Hi & -> & ->)]; [one_element H'|].
    rewrite lookup_app_r in Hs by lia.
    replace (length (objects st) + i - length (objects st))%nat with i in Hs by lia.
    rewrite list_lookup_fmap, Hi in Hs. injection Hs as <-.
    exists d. split; [eapply list_elem_of_lookup_2, Hi|]. split; reflexivity.
  - intros Hnd.
    assert (Hvalues : omap (fun kv : string * addr =>
                         (objects st ++ map from_data records) !! snd kv) dict
                      = map from_data records).
    { pose proof (load_records_fresh records (objects st) [] Hnd) as H.
      rewrite E in H. cbn in H. rewrite H by (intros d _ Hd; one_element Hd).
      pose proof (omap_lookup_imap (objects st) records 0) as H0.
      rewrite drop_0 in H0. etrans; [|exact H0].
      f_equal. apply imap_ext. intros i x _. cbn. f_equal. lia. }
    split; [exact Hvalues|].
    intros d Hd Hrun. exists (from_data d). rewrite Hvalues.
    split; [apply list_elem_of_fmap_2, Hd|]. split; [reflexivity|].
    cbn. rewrite Hrun. reflexivity.
Qed.

(** The theorem on a file with the record of one schedule, written while
    the schedule was running. *)
Lemma load_keeps_currently_running_witness :
  exists st' : State,
    load_schedules (fresh (Records [Some (asdict stale)])) = (Ok (), st')
    /\ values st' = [stale]
    /\ exists s, s ∈ values st' /\ id s = "a" /\ currently_running s = true.
Proof.
  destruct (load_keeps_currently_running (fresh (Records [Some (asdict stale)]))
              [Some (asdict stale)] [asdict stale] eq_refl eq_refl)
    as (st' & Hload & _ & H).
  destruct (H ltac:(repeat constructor; inversion 1)) as [Hv Hs].
  exists st'. split; [exact Hload|]. split; [exact Hv|].
  apply (Hs (asdict stale)); [left | reflexivity].
Defined.

(** A record written while its schedule was running is loaded as running:
    nothing in [load_schedules] resets the flag. *)
Lemma stale_running_flag_survives_load :
  ~ (forall (st st' : State) (data : list (option schedule_data)) (s : Schedule),
        disk st = Records data ->
        load_schedules st = (Ok (), st') ->
        s ∈ values st' -> currently_running s = false).
Proof.
  intros H.
  specialize (H (fresh (Records [Some (asdict stale)])) _ _ stale eq_refl eq_refl).
  assert (Hs : currently_running stale = false); [|discriminate Hs].
  apply H. left.
Qed.

(* ================================================================== *)
(** * The sequencer *)
(* ================================================================== *)

(** The loop keeps the largest end seen. *)
Lemma fold_later_end_spec schedules acc :
  match fold_left later_end schedules acc with
  | None =>
      acc = None
      /\ forall s e, s ∈ schedules -> is_active s = true -> window_end s <> Ok e
  | Some m =>
      (forall a, acc = Some a -> a <= m)
      /\ (forall s e, s ∈ schedules -> is_active s = true -> window_end s = Ok e -> e <= m)
      /\ (acc = Some m
          \/ exists s, s ∈ schedules /\ is_active s = true /\ window_end s = Ok m)
  end.
Proof.
  revert acc. induction schedules as [|x l IH]; intros acc; cbn.
  - destruct acc as [a|].
    + split; [intros ? [= ->]; lia|]. split; [intros s e H; inversion H | left; reflexivity].
    + split; [reflexivity | intros s e H; inversion H].
  - specialize (IH (later_end acc x)).
    destruct (fold_left later_end l (later_end acc x)) as [m|].
    + destruct IH as (Hacc & Hall & Hex).
      assert (Hstep : (forall a, acc = Some a -> a <= m)
                      /\ (forall e, is_active x = true -> window_end x = Ok e -> e <= m)
                      /\ (later_end acc x = Some m ->
                          acc = Some m \/ (is_active x = true /\ window_end x = Ok m))).
      { unfold later_end in Hacc |- *.
        destruct (is_active x); cbn in *.
        - destruct (window_end x) as [e|] eqn:Ew.
          + destruct acc as [a|].
            * destruct (Z.ltb_spec a e).
              -- split; [intros ? [= <-]; specialize (Hacc _ eq_refl); lia|].
                 split; [intros ? _ [= <-]; apply Hacc; reflexivity|].
                 intros [= ->]. right. split; reflexivity.
              -- split; [intros ? [= <-]; apply Hacc; reflexivity|].
                 split; [intros ? _ [= <-]; specialize (Hacc _ eq_refl); lia|].
                 intros H0. left. exact H0.
            * split; [discriminate|].
              split; [intros ? _ [= <-]; apply Hacc; reflexivity|].
              intros [= ->]. right. split; reflexivity.
          + split; [exact Hacc|]. split; [discriminate|]. intros H0. left. exact H0.
        - split; [exact Hacc|]. split; [discriminate|]. intros H0. left. exact H0. }
      destruct Hstep as (H1 & H2 & H3).
      split; [exact H1|]. split.
      * intros s e [->|Hs]%elem_of_cons Ha Hw; [apply (H2 e Ha Hw) | apply (Hall s e Hs Ha Hw)].
      * destruct Hex as [Hex|(s & Hs & Ha & Hw)].
        -- destruct (H3 Hex) as [H'|[Ha Hw]]; [left; exact H'|].
           right. exists x. split; [left|]. split; assumption.
        -- right. exists s. split; [right; exact Hs|]. split; assumption.
    + destruct IH as (Hacc & Hall).
      unfold later_end in Hacc.
      destruct (is_active x) eqn:Ha; cbn in Hacc.
      * destruct (window_end x) as [e|] eqn:Ew.
        -- destruct acc as [a|]; [destruct (a <? e)|]; discriminate.
        -- split; [exact Hacc|].
           intros s e0 [->|Hs]%elem_of_cons Hs' Hw; [congruence | apply (Hall s e0 Hs Hs' Hw)].
      * split; [exact Hacc|].
        intros s e0 [->|Hs]%elem_of_cons Hs' Hw; [congruence | apply (Hall s e0 Hs Hs' Hw)].
Qed.

Lemma hour_range d : 0 <= Dt.hour d <= 23.
Proof. unfold Dt.hour. pose proof (Z.mod_pos_bound (d / Dt.us_per_hour) 24). lia. Qed.

Lemma minute_range d : 0 <= Dt.minute d <= 59.
Proof. unfold Dt.minute. pose proof (Z.mod_pos_bound (d / Dt.us_per_minute) 60). lia. Qed.

Lemma second_range d : 0 <= Dt.second d <= 59.
Proof. unfold Dt.second. pose proof (Z.mod_pos_bound (d / Dt.us_per_second) 60). lia. Qed.

Lemma days_1 : Dt.days 1 = Ok Dt.us_per_day.
Proof. reflexivity. Qed.

(** Goals on the fields of a [datetime]. *)
Ltac fields :=
  unfold Dt.replace_minute_second0, Dt.replace_hour_minute,
    Dt.replace_hour_minute0_second0, Dt.hour, Dt.minute, Dt.second, Dt.of_hm in *;
  units; Z.to_euclidean_division_equations; lia.

Lemma fields_next_morning d :
  Dt.hour (Dt.replace_hour_minute d 8 0 + Dt.us_per_day) = 8
  /\ Dt.minute (Dt.replace_hour_minute d 8 0 + Dt.us_per_day) = 0.
Proof. split; fields. Qed.







(* ================================================================== *)
(** * Loops *)
(* ================================================================== *)

Section LoopFacts.
Context {St R : Type}.
Variable step : St -> St + R.

(** An invariant of the turns holds of whatever [iterate] reaches. *)
Lemma iterate_invariant (P : St -> Prop) (Q : R -> Prop) :
  (forall s s', P s -> step s = inl s' -> P s') ->
  (forall s r, P s -> step s = inr r -> Q r) ->
  forall n s, P s ->
    match iterate step n s with
    | inl s' => P s'
    | inr r => Q r
    end.
Proof.
  intros Hl Hr. induction n as [|n IH]; intros s Hs; cbn.
  - destruct (step s) eqn:E; eauto.
  - pose proof (IH s Hs) as H1.
    destruct (iterate step n s) as [s'|r]; [apply IH; exact H1 | exact H1].
Qed.

Variable measure : St -> Z.
Hypothesis measure_nonneg : forall s, 0 <= measure s.
Hypothesis measure_decreases : forall s s', step s = inl s' -> measure s' + 1 <= measure s.

(** [iterate n] stops early or takes [2 ^ n] turns. *)
Lemma iterate_measure n s s' :
  iterate step n s = inl s' -> measure s' + 2 ^ Z.of_nat n <= measure s.
Proof.
  revert s s'. induction n as [|n IH]; intros s s'; cbn [iterate].
  - intros H%measure_decreases. exact H.
  - destruct (iterate step n s) as [s1|r] eqn:E1; [|discriminate].
    intros H2. apply IH in E1. apply IH in H2.
    rewrite Nat2Z.inj_succ, Z.pow_succ_r by lia. lia.
Qed.

(** A loop whose measure decreases ends. *)
Lemma while_loop_returns s : exists r, while_loop step measure s = Some r.
Proof.
  unfold while_loop.
  destruct (iterate step _ s) as [s'|r] eqn:E; [|eexists; reflexivity].
  apply iterate_measure in E.
  pose proof (measure_nonneg s). pose proof (measure_nonneg s').
  rewrite Z2Nat.id in E by apply Z.log2_up_nonneg.
  pose proof (Z.log2_up_spec (measure s + 1)) as Hlog.
  destruct (Z.eq_dec (measure s) 0) as [E0|E0].
  - rewrite E0 in E. change (Z.log2_up (0 + 1)) with 0 in E. cbn in E. lia.
  - lia.
Qed.
End LoopFacts.

(* ================================================================== *)
(** * The safe-time suggester *)
(* ================================================================== *)

Lemma add_hours_inv t n e :
  Dt.add_hours t n = Ok e -> e = t + n * Dt.us_per_hour.
Proof.
  unfold Dt.add_hours, Dt.hours, Dt.make_timedelta.
  destruct (_ && _); cbn; [|discriminate].
  unfold Dt.add. destruct (_ && _); [|discriminate]. intros [= <-]. reflexivity.
Qed.

Lemma slots_left_nonneg bound st : 0 <= slots_left bound st.
Proof. unfold slots_left. lia. Qed.

(** Moving the time checked on by half an hour or more uses up a slot. *)
Lemma slots_left_decreases bound ct ct' slots slots' :
  ct <= bound -> ct + 30 * Dt.us_per_minute <= ct' ->
  slots_left bound (ct', slots') + 1 <= slots_left bound (ct, slots).
Proof.
  unfold slots_left. cbn [fst]. units. intros H1 H2.
  assert ((bound - ct') / (30 * (60 * 1000000)) < (bound - ct) / (30 * (60 * 1000000)))
    as Hq by (apply Z.div_lt_upper_bound; [lia|];
              pose proof (Z.mul_div_le (bound - ct) (30 * (60 * 1000000)) ltac:(lia));
              pose proof (Z.mod_pos_bound (bound - ct) (30 * (60 * 1000000)) ltac:(lia));
              pose proof (Z.div_mod (bound - ct) (30 * (60 * 1000000)) ltac:(lia)); lia).
  pose proof (Z.div_pos (bound - ct) (30 * (60 * 1000000)) ltac:(lia) ltac:(lia)).
  lia.
Qed.

Lemma add_minutes_raises t n e : Dt.add_minutes t n = Raise e -> e = OverflowError.
Proof.
  unfold Dt.add_minutes, Dt.minutes, Dt.make_timedelta.
  destruct (_ && _); cbn; [|congruence].
  unfold Dt.add. destruct (_ && _); [discriminate|congruence].
Qed.

Lemma add_hours_raises t n e : Dt.add_hours t n = Raise e -> e = OverflowError.
Proof.
  unfold Dt.add_hours, Dt.hours, Dt.make_timedelta.
  destruct (_ && _); cbn; [|congruence].
  unfold Dt.add. destruct (_ && _); [discriminate|congruence].
Qed.

Lemma sub_raises t td e : Dt.sub t td = Raise e -> e = OverflowError.
Proof. unfold Dt.sub. destruct (_ && _); congruence. Qed.

Lemma hours_raises n e : Dt.hours n = Raise e -> e = OverflowError.
Proof. unfold Dt.hours, Dt.make_timedelta. destruct (_ && _); congruence. Qed.

Section Suggester.
Variable schedules : list Schedule.
Variable new_schedule : Schedule.

Local Abbreviation safe := (safe schedules new_schedule).
Local Abbreviation safe_or_overflow := (safe_or_overflow schedules new_schedule).

Lemma before_step_decreases latest_start st st' :
  before_step schedules new_schedule latest_start st = inl st' ->
  slots_left latest_start st' + 1 <= slots_left latest_start st.
Proof.
  destruct st as [ct slots], st' as [ct' slots']. unfold before_step.
  destruct (Z.leb_spec ct latest_start) as [Hle|]; cbn [andb]; [|discriminate].
  destruct (_ <? 4); [|discriminate].
  destruct (Dt.minute ct <? 15); [|destruct (Dt.minute ct <? 45)]; cbn.
  1,2: destruct (Dt.add_minutes ct 30) as [c|] eqn:E; [|discriminate];
       intros [= <- _]; apply add_minutes_inv in E as [-> _];
       apply slots_left_decreases; lia.
  destruct (Dt.add_hours ct 1) as [c1|] eqn:E1; cbn; [|discriminate].
  destruct (Dt.add_minutes c1 30) as [c|] eqn:E; [|discriminate].
  intros [= <- _]. apply add_minutes_inv in E as [-> _]. apply add_hours_inv in E1 as ->.
  apply slots_left_decreases; units; lia.
Qed.

Lemma after_step_decreases end_of_day st st' :
  after_step schedules new_schedule end_of_day st = inl st' ->
  slots_left end_of_day st' + 1 <= slots_left end_of_day st.
Proof.
  destruct st as [ct slots], st' as [ct' slots']. unfold after_step.
  destruct (Z.leb_spec ct end_of_day) as [Hle|]; cbn [andb]; [|discriminate].
  destruct (_ <? 4); [|discriminate].
  destruct (_ || _).
  - destruct (Dt.add_minutes ct 30) as [c|] eqn:E; [|discriminate].
    intros [= <- _]. apply add_minutes_inv in E as [-> _].
    apply slots_left_decreases; lia.
  - destruct (Dt.add_hours ct 1) as [c|] eqn:E; [|discriminate].
    intros [= <- _]. apply add_hours_inv in E as ->.
    apply slots_left_decreases; units; lia.
Qed.

(** Both loops add only slots that passed the check. *)
Lemma before_step_safe latest_start st :
  Forall safe (snd st) ->
  match before_step schedules new_schedule latest_start st with
  | inl st' => Forall safe (snd st')
  | inr r => safe_or_overflow r
  end.
Proof.
  destruct st as [ct slots]. cbn [snd]. intros Hs. unfold before_step.
  destruct (_ && _); [|exact Hs].
  destruct (if Dt.minute ct <? 15 then _ else _) as [[m c]|e] eqn:Er.
  - destruct (Dt.add_minutes c 30) eqn:E; [|eapply add_minutes_raises, E]. cbn [snd].
    destruct (is_time_slot_safe _ _ _) eqn:Es; [|exact Hs].
    apply Forall_app. split; [exact Hs|]. apply Forall_singleton. exact Es.
  - destruct (Dt.minute ct <? 15); [discriminate|].
    destruct (Dt.minute ct <? 45); [discriminate|].
    destruct (Dt.add_hours ct 1) eqn:E; cbn in Er; [discriminate|].
    injection Er as <-. eapply add_hours_raises, E.
Qed.

Lemma after_step_safe end_of_day st :
  Forall safe (snd st) ->
  match after_step schedules new_schedule end_of_day st with
  | inl st' => Forall safe (snd st')
  | inr r => safe_or_overflow r
  end.
Proof.
  destruct st as [ct slots]. cbn [snd]. intros Hs. unfold after_step.
  destruct (_ && _); [|exact Hs].
  destruct (_ || _).
  - destruct (Dt.add_minutes ct 30) eqn:E; [|eapply add_minutes_raises, E]. cbn [snd].
    destruct (is_time_slot_safe _ _ _) eqn:Es; [|exact Hs].
    apply Forall_app. split; [exact Hs|]. apply Forall_singleton. exact Es.
  - destruct (Dt.add_hours ct 1) eqn:E; [exact Hs | eapply add_hours_raises, E].
Qed.

(** A loop of the suggester ends, within its steps, with safe slots or
    an overflow. *)
Lemma slot_loop step bound st :
  (forall s s', step s = inl s' -> slots_left bound s' + 1 <= slots_left bound s) ->
  (forall s, Forall safe (snd s) ->
     match step s with
     | inl s' => Forall safe (snd s')
     | inr r => safe_or_overflow r
     end) ->
  Forall safe (snd st) ->
  safe_or_overflow (run_while (while_loop step (slots_left bound) st)).
Proof.
  intros Hdec Hsafe Hst.
  destruct (while_loop_returns step (slots_left bound) (slots_left_nonneg bound) Hdec st)
    as [r Hr].
  rewrite Hr. cbn [run_while]. unfold while_loop in Hr.
  pose proof (iterate_invariant step (fun s => Forall safe (snd s)) safe_or_overflow)
    as Hinv.
  match type of Hr with context [iterate step ?n st] => specialize (Hinv
    ltac:(intros s s' Hs E; specialize (Hsafe s Hs); rewrite E in Hsafe; exact Hsafe)
    ltac:(intros s r' Hs E; specialize (Hsafe s Hs); rewrite E in Hsafe; exact Hsafe)
    n st Hst) end.
  destruct (iterate step _ st) as [s'|r']; [discriminate|].
  injection Hr as ->. exact Hinv.
Qed.

Lemma find_slots_before_conflicts_safe conflicting_schedules current_time :
  safe_or_overflow (find_slots_before_conflicts schedules new_schedule
                      conflicting_schedules current_time).
Proof.
  unfold find_slots_before_conflicts.
  destruct conflicting_schedules as [|c cs]; [constructor|].
  destruct (earliest_conflict (c :: cs)) as [earliest|]; [|constructor].
  unfold Dt.minutes, Dt.make_timedelta.
  destruct (_ && _); cbn; [|reflexivity].
  unfold Dt.sub. destruct (_ && _); cbn; [|reflexivity].
  destruct (Dt.add_minutes current_time 5) as [cpb|] eqn:E; cbn;
    [|eapply add_minutes_raises, E].
  destruct (cpb <? _); [|constructor].
  apply slot_loop; [apply before_step_decreases | apply before_step_safe | constructor].
Qed.

Lemma find_slots_after_conflicts_safe conflicting_schedules now :
  safe_or_overflow (find_slots_after_conflicts schedules new_schedule
                      conflicting_schedules now).
Proof.
  unfold find_slots_after_conflicts.
  destruct conflicting_schedules as [|c cs]; [constructor|].
  destruct (latest_end (c :: cs)) as [latest|]; [|constructor].
  destruct (Dt.add_minutes latest 10) as [ea|] eqn:E; cbn;
    [|eapply add_minutes_raises, E].
  apply slot_loop; [apply after_step_decreases | apply after_step_safe | constructor].
Qed.

Lemma find_fallback_slots_safe current_time :
  safe_or_overflow (find_fallback_slots schedules new_schedule current_time).
Proof.
  unfold find_fallback_slots.
  destruct (Dt.add_hours current_time 1) as [t1|] eqn:E1; cbn;
    [|eapply add_hours_raises, E1].
  destruct (Dt.add_hours current_time 2) as [t2|] eqn:E2; cbn;
    [|eapply add_hours_raises, E2].
  destruct (Dt.add_hours current_time 3) as [t3|] eqn:E3; cbn;
    [|eapply add_hours_raises, E3].
  assert (Hslot : forall base_time,
    Forall safe
      (if (6 <=? Dt.hour base_time) && (Dt.hour base_time <=? 22)
       then
         if is_time_slot_safe schedules
              (Dt.strftime_HM
                 (Dt.replace_minute_second0 base_time
                    (if Dt.minute base_time <? 30 then 0 else 30))) new_schedule
         then [Dt.strftime_HM
                 (Dt.replace_minute_second0 base_time
                    (if Dt.minute base_time <? 30 then 0 else 30))]
         else []
       else [])).
  { intros b. destruct (_ && _); [|constructor].
    destruct (is_time_slot_safe _ _ _) eqn:E; [|constructor].
    apply Forall_singleton. exact E. }
  destruct (if 7 <? Dt.hour current_time then _ else _) as [t4|e] eqn:E4; cbn.
  - rewrite app_nil_r. repeat (apply Forall_app; split); apply Hslot.
  - destruct (7 <? Dt.hour current_time).
    + destruct (Dt.hours 1) as [td|] eqn:Eh; cbn in E4;
        [eapply sub_raises, E4 | injection E4 as <-; eapply hours_raises, Eh].
    + eapply add_hours_raises, E4.
Qed.
End Suggester.

Lemma existsb_eqb_elem x (seen : list string) :
  existsb (String.eqb x) seen = true <-> x ∈ seen.
Proof.
  rewrite existsb_exists. split.
  - intros (y & Hy & ->%String.eqb_eq). apply list_elem_of_In, Hy.
  - intros H. exists x. split; [apply list_elem_of_In, H | apply String.eqb_refl].
Qed.

(** [fromkeys] keeps texts of the list that were not seen before. *)
Lemma fromkeys_elem seen l x : x ∈ fromkeys seen l -> x ∈ l /\ x ∉ seen.
Proof.
  revert seen. induction l as [|y l IH]; intros seen; cbn; [intros H; inversion H|].
  destruct (existsb (String.eqb y) seen) eqn:E.
  - intros [H1 H2]%IH. split; [right; exact H1 | exact H2].
  - intros [->|H]%elem_of_cons.
    + split; [left|]. intros Hin%existsb_eqb_elem. congruence.
    + apply IH in H as [H1 H2]. split; [right; exact H1|].
      intros Hin. apply H2. right. exact Hin.
Qed.

Lemma fromkeys_NoDup seen l : NoDup (fromkeys seen l).
Proof.
  revert seen. induction l as [|y l IH]; intros seen; cbn; [constructor|].
  destruct (existsb (String.eqb y) seen); [apply IH|].
  constructor; [|apply IH].
  intros [_ H]%fromkeys_elem. apply H. left.
Qed.

Lemma insert_by_perm {A} (key : A -> Z) x l : insert_by key x l ≡ₚ x :: l.
Proof.
  induction l as [|y l IH]; cbn; [reflexivity|].
  destruct (key x <=? key y); [reflexivity|].
  rewrite IH. apply Permutation_swap.
Qed.

(** Sorting rearranges. *)
Lemma sorted_perm {A} (key : A -> Z) l : sorted key l ≡ₚ l.
Proof.
  induction l as [|x l IH]; cbn; [reflexivity|].
  rewrite insert_by_perm, IH. reflexivity.
Qed.

Lemma sort_by_time_proximity_perm time_list current_time_str :
  sort_by_time_proximity time_list current_time_str ≡ₚ time_list.
Proof.
  unfold sort_by_time_proximity.
  destruct (Dt.strptime_HM current_time_str); [apply sorted_perm | reflexivity].
Qed.

(** What [get_safe_time_suggestions] returns: the first eight of a
    rearrangement of the distinct slots found, all of which passed the
    check; and the only way it fails is arithmetic out of range. *)
Lemma get_safe_time_suggestions_outcome schedules new_schedule current_time now :
  match get_safe_time_suggestions schedules new_schedule current_time now with
  | Ok suggestions =>
      exists slots ordered,
        Forall (safe schedules new_schedule) slots
        /\ ordered ≡ₚ fromkeys [] slots
        /\ suggestions = take 8 ordered
  | Raise e => e = OverflowError
  end.
Proof.
  unfold get_safe_time_suggestions.
  pose proof (find_slots_before_conflicts_safe schedules new_schedule
    (filter (fun existing => is_active existing = true
       ∧ check_schedule_conflicts_between new_schedule existing ≠ []) schedules)
    current_time) as Hb.
  destruct (find_slots_before_conflicts _ _ _ _) as [before_slots|e]; cbn; [|exact Hb].
  pose proof (find_slots_after_conflicts_safe schedules new_schedule
    (filter (fun existing => is_active existing = true
       ∧ check_schedule_conflicts_between new_schedule existing ≠ []) schedules)
    now) as Ha.
  destruct (find_slots_after_conflicts _ _ _ _) as [after_slots|e]; cbn; [|exact Ha].
  cbn in Hb, Ha.
  destruct (Z.of_nat (length (before_slots ++ after_slots)) <? 3).
  - pose proof (find_fallback_slots_safe schedules new_schedule current_time) as Hf.
    destruct (find_fallback_slots _ _ _) as [fallback_slots|e]; cbn; [|exact Hf].
    eexists _, _. split; [|split; [apply sort_by_time_proximity_perm | reflexivity]].
    repeat (apply Forall_app; split); assumption.
  - cbn. eexists _, _. split; [|split; [apply sort_by_time_proximity_perm | reflexivity]].
    apply Forall_app; split; assumption.
Qed.

(* ================================================================== *)
(** * The suggester returns *)
(* ================================================================== *)

Lemma add_hours_ok t n :
  Dt.min <= t + n * Dt.us_per_hour <= Dt.max ->
  - 999999999 * Dt.us_per_day <= n * Dt.us_per_hour <= 999999999 * Dt.us_per_day ->
  Dt.add_hours t n = Ok (t + n * Dt.us_per_hour).
Proof.
  intros Hr Hd. unfold Dt.add_hours, Dt.hours.
  rewrite (make_timedelta_ok _ Hd). cbn. unfold Dt.add.
  assert ((Dt.min <=? t + n * Dt.us_per_hour)
          && (t + n * Dt.us_per_hour <=? Dt.max) = true) as -> by lia.
  reflexivity.
Qed.

(** A loop of the suggester whose time checked on stays at least an hour
    and a half below the end of the calendar returns its slots. *)
Lemma slot_loop_returns step bound st :
  (forall s s', step s = inl s' -> slots_left bound s' + 1 <= slots_left bound s) ->
  (forall s, Dt.min <= fst s ->
     match step s with
     | inl s' => Dt.min <= fst s'
     | inr r => exists l, r = Ok l
     end) ->
  Dt.min <= fst st ->
  exists l, run_while (while_loop step (slots_left bound) st) = Ok l.
Proof.
  intros Hdec Hstep Hst.
  destruct (while_loop_returns step (slots_left bound) (slots_left_nonneg bound) Hdec st)
    as [r Hr].
  rewrite Hr. cbn [run_while]. unfold while_loop in Hr.
  pose proof (iterate_invariant step (fun s => Dt.min <= fst s)
                (fun r => exists l, r = Ok l)) as Hinv.
  match type of Hr with context [iterate step ?n st] => specialize (Hinv
    ltac:(intros s s' Hs E; specialize (Hstep s Hs); rewrite E in Hstep; exact Hstep)
    ltac:(intros s r' Hs E; specialize (Hstep s Hs); rewrite E in Hstep; exact Hstep)
    n st Hst) end.
  destruct (iterate step _ st) as [s'|r']; [discriminate|].
  injection Hr as ->. exact Hinv.
Qed.

Lemma before_step_returns schedules new_schedule latest_start st :
  latest_start <= Dt.max - Dt.us_per_day -> Dt.min <= fst st ->
  match before_step schedules new_schedule latest_start st with
  | inl s' => Dt.min <= fst s'
  | inr r => exists l, r = Ok l
  end.
Proof.
  destruct st as [ct slots]. cbn [fst]. intros Hb Hct. unfold before_step.
  destruct (Z.leb_spec ct latest_start) as [Hle|]; cbn [andb]; [|eexists; reflexivity].
  destruct (_ <? 4); [|eexists; reflexivity].
  destruct (Dt.minute ct <? 15); [|destruct (Dt.minute ct <? 45)].
  1,2: rewrite add_minutes_ok by (units; lia); cbn; units; lia.
  rewrite add_hours_ok by (units; lia). cbn.
  rewrite add_minutes_ok by (units; lia). cbn. units. lia.
Qed.

Lemma after_step_returns schedules new_schedule end_of_day st :
  end_of_day <= Dt.max - 2 * Dt.us_per_hour -> Dt.min <= fst st ->
  match after_step schedules new_schedule end_of_day st with
  | inl s' => Dt.min <= fst s'
  | inr r => exists l, r = Ok l
  end.
Proof.
  destruct st as [ct slots]. cbn [fst]. intros Hb Hct. unfold after_step.
  destruct (Z.leb_spec ct end_of_day) as [Hle|]; cbn [andb]; [|eexists; reflexivity].
  destruct (_ <? 4); [|eexists; reflexivity].
  destruct (_ || _).
  - rewrite add_minutes_ok by (units; lia). cbn. units. lia.
  - rewrite add_hours_ok by (units; lia). cbn. units. lia.
Qed.

Lemma fold_left_invariant {A B} (f : A -> B -> A) (P : A -> Prop) (Q : B -> Prop) l acc :
  (forall a b, P a -> Q b -> P (f a b)) -> Forall Q l -> P acc -> P (fold_left f l acc).
Proof.
  intros Hf. revert acc. induction l as [|b l IH]; intros acc Hl Hacc; [exact Hacc|].
  apply Forall_cons in Hl as [Hb Hl]. cbn. apply IH; [exact Hl | apply Hf; assumption].
Qed.

Lemma earliest_conflict_range conflicting_schedules e :
  earliest_conflict conflicting_schedules = Some e -> 0 <= e < Dt.us_per_day.
Proof.
  unfold earliest_conflict. revert e.
  apply (fold_left_invariant _ (fun acc => forall e, acc = Some e -> 0 <= e < Dt.us_per_day)
           (fun _ => True)).
  - intros acc s Hacc _ e.
    destruct (Dt.strptime_HM (start_time s)) as [t|] eqn:E; [|apply Hacc].
    apply strptime_HM_range in E.
    destruct acc as [a|]; [destruct (t <? a)|]; intros [= <-]; auto.
  - apply Forall_forall. auto.
  - discriminate.
Qed.

Lemma latest_end_range conflicting_schedules e :
  Forall ordinary_duration conflicting_schedules ->
  latest_end conflicting_schedules = Some e ->
  0 <= e <= Dt.us_per_day + 900000000 * Dt.us_per_minute.
Proof.
  unfold latest_end. intros Hord. revert e.
  apply (fold_left_invariant _
           (fun acc => forall e, acc = Some e ->
                         0 <= e <= Dt.us_per_day + 900000000 * Dt.us_per_minute)
           ordinary_duration); [|exact Hord|discriminate].
  intros acc s Hacc Hs e.
  destruct (Dt.strptime_HM (start_time s)) as [t|] eqn:E; cbn; [|apply Hacc].
  apply strptime_HM_range in E.
  destruct (Dt.add_minutes t (estimated_duration_minutes s)) as [t'|] eqn:E'; [|apply Hacc].
  apply add_minutes_inv in E' as [-> _]. unfold ordinary_duration in Hs.
  destruct acc as [a|]; [destruct (a <? _)|]; intros [= <-]; auto; units; lia.
Qed.

Lemma replace_hour_minute0_second0_range d h :
  0 <= h <= 23 ->
  d - Dt.us_per_day < Dt.replace_hour_minute0_second0 d h < d + Dt.us_per_day.
Proof.
  intros Hh. unfold Dt.replace_hour_minute0_second0.
  pose proof (hour_range d). pose proof (minute_range d). pose proof (second_range d).
  assert (Dt.hour d * Dt.us_per_hour + Dt.minute d * Dt.us_per_minute
          + Dt.second d * Dt.us_per_second <= d - Dt.us_per_day * (d / Dt.us_per_day)).
  { unfold Dt.hour, Dt.minute, Dt.second. units.
    pose proof (Z.div_mod d (24 * (60 * (60 * 1000000))) ltac:(lia)).
    pose proof (Z.mod_pos_bound d (24 * (60 * (60 * 1000000))) ltac:(lia)).
    pose proof (Z.div_mod d (60 * (60 * 1000000)) ltac:(lia)).
    pose proof (Z.mod_pos_bound d (60 * (60 * 1000000)) ltac:(lia)).
    pose proof (Z.div_mod d (60 * 1000000) ltac:(lia)).
    pose proof (Z.mod_pos_bound d (60 * 1000000) ltac:(lia)).
    pose proof (Z.div_mod d 1000000 ltac:(lia)).
    pose proof (Z.mod_pos_bound d 1000000 ltac:(lia)).
    pose proof (Z.div_mod (d / (60 * (60 * 1000000))) 24 ltac:(lia)).
    pose proof (Z.div_mod (d / (60 * 1000000)) 60 ltac:(lia)).
    pose proof (Z.div_mod (d / 1000000) 60 ltac:(lia)).
    assert (d / (60 * (60 * 1000000)) / 24 = d / (24 * (60 * (60 * 1000000))))
      by (rewrite Z.div_div by lia; f_equal; lia).
    assert (d / (60 * 1000000) / 60 = d / (60 * (60 * 1000000)))
      by (rewrite Z.div_div by lia; f_equal; lia).
    assert (d / 1000000 / 60 = d / (60 * 1000000))
      by (rewrite Z.div_div by lia; f_equal; lia).
    lia. }
  pose proof (Z.mod_pos_bound d Dt.us_per_day ltac:(units; lia)).
  pose proof (Z.div_mod d Dt.us_per_day ltac:(units; lia)).
  units. lia.
Qed.

Lemma replace_minute_second0_ge d : d - Dt.us_per_hour < Dt.replace_minute_second0 d 0.
Proof.
  unfold Dt.replace_minute_second0.
  pose proof (minute_range d). pose proof (second_range d). units. lia.
Qed.

Section SuggesterReturns.
Variable schedules : list Schedule.
Variable new_schedule : Schedule.
Variable current_time now : datetime.
Hypothesis current_time_ordinary : ordinary_time current_time.
Hypothesis now_ordinary : ordinary_time now.
Hypothesis new_schedule_ordinary : ordinary_duration new_schedule.

Lemma find_slots_before_conflicts_returns conflicting_schedules :
  exists l, find_slots_before_conflicts schedules new_schedule
              conflicting_schedules current_time = Ok l.
Proof.
  unfold find_slots_before_conflicts.
  destruct conflicting_schedules as [|c cs]; [eexists; reflexivity|].
  destruct (earliest_conflict (c :: cs)) as [earliest|] eqn:E; [|eexists; reflexivity].
  apply earliest_conflict_range in E.
  unfold ordinary_time, ordinary_duration in *.
  unfold Dt.minutes. rewrite make_timedelta_ok by (units; lia).
  cbn. unfold Dt.sub.
  match goal with |- context [if ?b then _ else _] =>
    assert (b = true) as -> by (units; lia) end.
  cbn. rewrite add_minutes_ok by (units; lia). cbn.
  destruct (_ <? _); [|eexists; reflexivity].
  apply slot_loop_returns.
  - apply before_step_decreases.
  - intros s. apply before_step_returns. units. lia.
  - cbn [fst]. pose proof (replace_minute_second0_ge current_time). units. lia.
Qed.

Lemma find_slots_after_conflicts_returns conflicting_schedules :
  Forall ordinary_duration conflicting_schedules ->
  exists l, find_slots_after_conflicts schedules new_schedule
              conflicting_schedules now = Ok l.
Proof.
  intros Hord. unfold find_slots_after_conflicts.
  destruct conflicting_schedules as [|c cs]; [eexists; reflexivity|].
  destruct (latest_end (c :: cs)) as [latest|] eqn:E; [|eexists; reflexivity].
  apply (latest_end_range _ _ Hord) in E.
  rewrite add_minutes_ok by (units; lia). cbn.
  unfold ordinary_time in *.
  pose proof (replace_hour_minute0_second0_range now 22 ltac:(lia)) as Hday.
  pose proof (hour_range now). pose proof (minute_range now). pose proof (second_range now).
  apply slot_loop_returns.
  - apply after_step_decreases.
  - intros s. apply after_step_returns.
    unfold Dt.replace_hour_minute0_second0 in *. units. lia.
  - cbn [fst]. units. lia.
Qed.

Lemma find_fallback_slots_returns :
  exists l, find_fallback_slots schedules new_schedule current_time = Ok l.
Proof.
  unfold find_fallback_slots, ordinary_time in *.
  rewrite !add_hours_ok by (units; lia). cbn.
  destruct (7 <? Dt.hour current_time).
  - change (Dt.hours 1) with (Ok (A:=Dt.timedelta) Dt.us_per_hour). cbn. unfold Dt.sub.
    match goal with |- context [if ?b then _ else _] =>
      assert (b = true) as -> by (units; lia) end.
    cbn. eexists. reflexivity.
  - cbn. eexists. reflexivity.
Qed.

(** With clock readings at least a day inside the calendar and estimated
    durations that are not negative and below 900 million minutes,
    [get_safe_time_suggestions] returns a list. *)
Lemma get_safe_time_suggestions_returns :
  Forall ordinary_duration schedules ->
  exists suggestions,
    get_safe_time_suggestions schedules new_schedule current_time now = Ok suggestions.
Proof.
  intros Hord. unfold get_safe_time_suggestions.
  destruct (find_slots_before_conflicts_returns
    (filter (fun existing => is_active existing = true
       ∧ check_schedule_conflicts_between new_schedule existing ≠ []) schedules))
    as [before_slots ->]. cbn.
  destruct (find_slots_after_conflicts_returns
    (filter (fun existing => is_active existing = true
       ∧ check_schedule_conflicts_between new_schedule existing ≠ []) schedules))
    as [after_slots ->].
  { apply Forall_forall. intros s [_ Hs]%list_elem_of_filter.
    rewrite Forall_forall in Hord. apply Hord, Hs. }
  cbn.
  destruct (_ <? 3); cbn; [|eexists; reflexivity].
  destruct find_fallback_slots_returns as [fallback_slots ->]. cbn.
  eexists. reflexivity.
Qed.
End SuggesterReturns.

(** C4.  Every time [get_safe_time_suggestions] returns, put as the start
    time of a probe schedule with the candidate's terms and estimated
    duration, gets an empty list of conflicts from
    [check_schedule_conflicts] against the same schedules; and with
    ordinary clock readings and durations the function does return. *)
Theorem suggestions_are_conflict_free
    (schedules : list Schedule) (new_schedule : Schedule) (current_time now : datetime) :
  (ordinary_time current_time -> ordinary_time now ->
   ordinary_duration new_schedule -> Forall ordinary_duration schedules ->
   exists suggestions,
     get_safe_time_suggestions schedules new_schedule current_time now = Ok suggestions)
  /\ forall suggestions : list string,
       get_safe_time_suggestions schedules new_schedule current_time now = Ok suggestions ->
       forall t : string,
         t ∈ suggestions ->
         check_schedule_conflicts schedules (probe t new_schedule) = []
         /\ estimated_duration_minutes (probe t new_schedule)
            = estimated_duration_minutes new_schedule
         /\ search_terms (probe t new_schedule) = search_terms new_schedule
         /\ start_time (probe t new_schedule) = t.
Proof.
  split; [apply get_safe_time_suggestions_returns|].
  intros suggestions Hget t Ht.
  pose proof (get_safe_time_suggestions_outcome schedules new_schedule current_time now) as H.
  rewrite Hget in H. destruct H as (slots & ordered & Hsafe & Hperm & ->).
  split; [|repeat split].
  apply subseteq_take in Ht. rewrite Hperm in Ht.
  apply fromkeys_elem in Ht as [Ht _].
  rewrite Forall_forall in Hsafe. specialize (Hsafe t Ht).
  unfold safe, is_time_slot_safe in Hsafe.
  destruct (check_schedule_conflicts schedules (probe t new_schedule));
    [reflexivity | discriminate].
Qed.

Lemma morning_ordinary : ordinary_time morning.
Proof. unfold ordinary_time, morning, Dt.of_hm. units. lia. Qed.

Lemma sample_ordinary nm st act : ordinary_duration (sample nm st 30 act).
Proof. unfold ordinary_duration. cbn. lia. Qed.

(** The theorem for a candidate at 09:00 against a schedule at 09:00 for
    30 minutes, asked at 08:17: the function returns, and "10:00", one of
    the suggestions, has no conflict. *)
Lemma suggestions_are_conflict_free_witness :
  (exists suggestions,
     get_safe_time_suggestions [sample "a" "09:00" 30 true] (sample "b" "09:00" 30 true)
       morning morning = Ok suggestions)
  /\ check_schedule_conflicts [sample "a" "09:00" 30 true]
       (probe "10:00" (sample "b" "09:00" 30 true)) = [].
Proof.
  destruct (suggestions_are_conflict_free [sample "a" "09:00" 30 true]
              (sample "b" "09:00" 30 true) morning morning) as [Hreturns Hsafe].
  split.
  - apply Hreturns; [apply morning_ordinary | apply morning_ordinary | apply sample_ordinary|].
    apply Forall_singleton, sample_ordinary.
  - apply (Hsafe ["09:30"; "10:00"; "10:30"; "11:00"]);
      [vm_compute; reflexivity | right; left].
Defined.

(** C6.  The list [get_safe_time_suggestions] returns has at most eight
    entries, no two of them equal; and with ordinary clock readings and
    durations the function does return. *)
Theorem suggestions_at_most_eight_distinct
    (schedules : list Schedule) (new_schedule : Schedule) (current_time now : datetime) :
  (ordinary_time current_time -> ordinary_time now ->
   ordinary_duration new_schedule -> Forall ordinary_duration schedules ->
   exists suggestions,
     get_safe_time_suggestions schedules new_schedule current_time now = Ok suggestions)
  /\ forall suggestions : list string,
       get_safe_time_suggestions schedules new_schedule current_time now = Ok suggestions ->
       (length suggestions <= 8)%nat /\ NoDup suggestions.
Proof.
  split; [apply get_safe_time_suggestions_returns|].
  intros suggestions Hget.
  pose proof (get_safe_time_suggestions_outcome schedules new_schedule current_time now) as H.
  rewrite Hget in H. destruct H as (slots & ordered & _ & Hperm & ->).
  split.
  - rewrite length_take. lia.
  - apply (sublist_NoDup _ ordered); [|apply sublist_take].
    rewrite Hperm. apply fromkeys_NoDup.
Qed.

(** The theorem for the same request. *)
Lemma suggestions_at_most_eight_distinct_witness :
  (exists suggestions,
     get_safe_time_suggestions [sample "a" "09:00" 30 true] (sample "b" "09:00" 30 true)
       morning morning = Ok suggestions)
  /\ (length ["09:30"; "10:00"; "10:30"; "11:00"] <= 8)%nat
  /\ NoDup ["09:30"; "10:00"; "10:30"; "11:00"].
Proof.
  destruct (suggestions_at_most_eight_distinct [sample "a" "09:00" 30 true]
              (sample "b" "09:00" 30 true) morning morning) as [Hreturns Hshape].
  split.
  - apply Hreturns; [apply morning_ordinary | apply morning_ordinary | apply sample_ordinary|].
    apply Forall_singleton, sample_ordinary.
  - apply Hshape. vm_compute. reflexivity.
Defined.

(* ================================================================== *)
(** * The job executor *)
(* ================================================================== *)

Lemma same_store_refl st : same_store st st.
Proof. repeat split. Qed.

(** The minutes of a run on a few durations: two and a half minutes
    either way, just under a minute, and a duration of some 1689 years,
    less one microsecond than 888251192 minutes, which the two roundings
    bring up to that number. *)
Lemma actual_duration_rounds :
  actual_duration (150 * Dt.us_per_second) = 2
  /\ actual_duration (- (150 * Dt.us_per_second)) = -2
  /\ actual_duration 59999999 = 0
  /\ actual_duration 53295071519999999 = 888251192
  /\ Z.quot 53295071519999999 Dt.us_per_minute = 888251191.
Proof. repeat split; vm_compute; reflexivity. Qed.

#[local] Arguments actual_duration : simpl never.

(** Runs the primitive steps of stateful code. *)
Ltac step_M :=
  repeat (unfold mbind, mret, M_bind, M_ret, print, update, now, deref, get, raise, lift,
            run_job, save_schedules; cbn).

(** The runs of the job runner leave the store and the clock alone, and
    the only exception that leaves the loop is the interrupt. *)
Lemma run_terms_frame env terms limit skip n st :
  same_store st (snd (run_terms env terms limit skip n st))
  /\ clock_reads (snd (run_terms env terms limit skip n st)) = clock_reads st
  /\ match fst (run_terms env terms limit skip n st) with
     | Ok _ => True
     | Raise e => e = KeyboardInterrupt
     end.
Proof.
  revert n st. induction terms as [|term terms IH]; intros n st.
  - cbn. repeat split.
  - cbn [run_terms]. step_M. destruct (runner env (runs st)) as [code| |]; cbn.
    + destruct (code =? 0); step_M;
        match goal with |- context [run_terms env terms limit skip ?m ?s] =>
          destruct (IH m s) as ((?&?&?&?)&?&?);
          destruct (run_terms env terms limit skip m s) as [[]] end;
        repeat split; cbn in *; congruence || assumption.
    + step_M. match goal with |- context [run_terms env terms limit skip ?m ?s] =>
          destruct (IH m s) as ((?&?&?&?)&?&?);
          destruct (run_terms env terms limit skip m s) as [[]] end;
        repeat split; cbn in *; congruence || assumption.
    + repeat split.
Qed.

Lemma for_each_print_frame {A} (body : A -> M unit) (l : list A) st :
  (forall x, exists ln, body x = print ln) ->
  same_store st (snd (for_each body l st))
  /\ clock_reads (snd (for_each body l st)) = clock_reads st
  /\ fst (for_each body l st) = Ok ().
Proof.
  intros Hbody. revert st. induction l as [|x l IH]; intros st; [repeat split|].
  cbn [for_each]. destruct (Hbody x) as [ln ->]. step_M.
  match goal with |- context [for_each _ l ?s] =>
    destruct (IH s) as ((?&?&?&?)&?&?); destruct (for_each _ l s) as [[]] end;
    repeat split; cbn in *; congruence || assumption.
Qed.

(** The report changes nothing in the store; it ends normally or with an
    overflow in the time of the next run. *)
Lemma report_frame env a n t st :
  same_store st (snd (report env a n t st))
  /\ match fst (report env a n t st) with
     | Ok _ => True
     | Raise e => e = OverflowError
     end.
Proof.
  unfold report. step_M.
  destruct (from_option is_recurring false (objects st !! a)); step_M.
  - destruct (Dt.add_minutes _ _) as [next|e] eqn:E; step_M.
    + match goal with |- context [for_each ?f ?l ?s] =>
        destruct (for_each_print_frame f l s ltac:(intros x; eexists; reflexivity))
          as ((?&?&?&?)&?&Hr); destruct (for_each f l s) as [r s'] end.
      cbn in *. subst r. repeat split; congruence.
    + split; [repeat split|]. eapply add_minutes_raises, E.
  - match goal with |- context [for_each ?f ?l ?s] =>
      destruct (for_each_print_frame f l s ltac:(intros x; eexists; reflexivity))
        as ((?&?&?&?)&?&Hr); destruct (for_each f l s) as [r s'] end.
    cbn in *. subst r. repeat split; congruence.
Qed.

Lemma alter_alter {A} (f g : A -> A) (i : nat) (l : list A) :
  alter g i (alter f i l) = alter (fun x => g (f x)) i l.
Proof.
  revert i. induction l as [|x l IH]; intros [|i]; cbn; [reflexivity..|].
  f_equal. apply IH.
Qed.

(** The state after [execute_schedule], whatever its outcome. *)
Lemma execute_schedule_state env a st :
  let st' := snd (execute_schedule env a st) in
  objects st'
  = alter (fun s => finished (strftime_full env (clock env (clock_reads st + 2)))
                      (set_currently_running true s)) a (objects st)
  /\ schedules st' = schedules st
  /\ saves st' = (saves st + 2)%nat
  /\ disk st' = after_write (writes env (saves st + 1)) (values st').
Proof.
  unfold execute_schedule. step_M. unfold finally.
  match goal with |- context [run_terms env ?ts ?l ?k ?n ?s] =>
    destruct (run_terms_frame env ts l k n s) as ((Ho&Hs&Hd&Hsv)&Hc&_);
    destruct (run_terms env ts l k n s) as [r1 st1] end.
  cbn in Ho, Hs, Hd, Hsv, Hc. unfold finish_run. step_M.
  assert (Hobjects :
    alter (set_auto_sequence false)
      a (alter (fun s => set_total_runs (total_runs s + 1) s)
           a (alter (set_last_run (strftime_full env (clock env (clock_reads st1))))
                a (alter (set_currently_running false) a (objects st1))))
    = alter (fun s => finished (strftime_full env (clock env (clock_reads st + 2)))
                        (set_currently_running true s)) a (objects st)).
  { rewrite Ho, Hc, !alter_alter.
    replace (S (S (clock_reads st))) with (clock_reads st + 2)%nat by lia.
    reflexivity. }
  destruct r1 as [v|e].
  - match goal with |- context [report env a ?n ?t ?s] =>
      destruct (report_frame env a n t s) as ((Ho'&Hs'&Hd'&Hsv')&_);
      destruct (report env a n t s) as [r2 st2] end.
    cbn in Ho', Hs', Hd', Hsv' |- *. unfold values.
    rewrite Ho', Hs', Hd', Hsv', Hobjects, Hs, Hsv, Nat.add_1_r.
    repeat split. lia.
  - cbn. unfold values. cbn.
    rewrite Hobjects, Hs, Hsv, Nat.add_1_r. repeat split. lia.
Qed.

(** C1, as amended.  After [execute_schedule], however it ends (normally,
    with the operator's interrupt escaping the loop over the search
    terms, or with an overflow in the report), the schedule is not
    running, its [last_run] is the rendering of the clock as read in the
    [finally], its [total_runs] is one more than before, its
    [auto_sequence] is off, no other object and no key of the dictionary
    has changed, and [save_schedules] has been called a second time, on
    the store as it is at the end, where the schedule is among the values
    when it has a key.  When that write goes through, the file holds one
    record for every schedule of the store, in the order of the
    dictionary, each field with the value the schedule has at the end;
    when it fails, the file is what the failed write left. *)
Theorem execute_schedule_always_finishes (env : Env) (st : State) (a : addr) (s : Schedule) :
  objects st !! a = Some s ->
  let st' := snd (execute_schedule env a st) in
  exists s' : Schedule,
    objects st' !! a = Some s'
    /\ currently_running s' = false
    /\ last_run s' = strftime_full env (clock env (clock_reads st + 2))
    /\ total_runs s' = total_runs s + 1
    /\ auto_sequence s' = false
    /\ (forall b, b <> a -> objects st' !! b = objects st !! b)
    /\ schedules st' = schedules st
    /\ saves st' = (saves st + 2)%nat
    /\ (forall k, (k, a) ∈ schedules st -> s' ∈ values st')
    /\ (writes env (saves st + 1) = Written ->
        disk st'
        = Records
            (map (fun x =>
               Some {| d_id := id x; d_name := name x;
                       d_search_terms := search_terms x;
                       d_start_time := start_time x;
                       d_duration_minutes := duration_minutes x;
                       d_limit_per_run := limit_per_run x;
                       d_skip_duplicates := skip_duplicates x;
                       d_is_recurring := is_recurring x;
                       d_is_active := is_active x;
                       d_last_run := Some (last_run x);
                       d_total_runs := Some (total_runs x);
                       d_estimated_duration_minutes := Some (estimated_duration_minutes x);
                       d_auto_sequence := Some (auto_sequence x);
                       d_currently_running := Some (currently_running x) |})
               (values st')))
    /\ (forall remains, writes env (saves st + 1) = WriteFailed remains ->
        disk st' = remains).
Proof.
  intros Hs st'.
  destruct (execute_schedule_state env a st) as (Ho & Hsch & Hsv & Hd).
  fold st' in Ho, Hsch, Hsv, Hd.
  assert (Hs' : objects st' !! a
                = Some (finished (strftime_full env (clock env (clock_reads st + 2)))
                          (set_currently_running true s)))
    by (rewrite Ho, list_lookup_alter_eq, Hs; reflexivity).
  exists (finished (strftime_full env (clock env (clock_reads st + 2)))
            (set_currently_running true s)).
  split; [exact Hs'|].
  do 4 (split; [reflexivity|]).
  split; [intros b Hb; rewrite Ho; apply list_lookup_alter_ne; congruence|].
  do 2 (split; [assumption|]).
  split; [|split].
  - intros k Hk. unfold values. rewrite Hsch.
    apply list_elem_of_omap. exists (k, a). split; [exact Hk | exact Hs'].
  - intros Hw. rewrite Hd, Hw. reflexivity.
  - intros remains Hw. rewrite Hd, Hw. reflexivity.
Qed.

(** The outcomes of [execute_schedule]. *)
Lemma execute_schedule_outcome env a st :
  match fst (execute_schedule env a st) with
  | Ok _ => True
  | Raise e => e = KeyboardInterrupt \/ e = OverflowError
  end.
Proof.
  unfold execute_schedule. step_M. unfold finally.
  match goal with |- context [run_terms env ?ts ?l ?k ?n ?s] =>
    destruct (run_terms_frame env ts l k n s) as (_&_&Hr);
    destruct (run_terms env ts l k n s) as [r1 st1] end.
  cbn in Hr. unfold finish_run. step_M.
  destruct r1 as [v|e]; [|left; exact Hr].
  match goal with |- context [report env a ?n ?t ?s] =>
    destruct (report_frame env a n t s) as (_&Hr');
    destruct (report env a n t s) as [[|e] st2] end; [exact I|].
  right. exact Hr'.
Qed.

(** The theorem on a run that the operator interrupts at the first search
    term: the interrupt leaves [execute_schedule], and the schedule is
    finished and saved all the same; the file holds its record, which
    says that it is not running and has run once. *)
Lemma execute_schedule_always_finishes_witness :
  fst (execute_schedule interrupted 0%nat before_run) = Raise KeyboardInterrupt
  /\ exists s' : Schedule,
       objects (snd (execute_schedule interrupted 0%nat before_run)) !! 0%nat = Some s'
       /\ currently_running s' = false
       /\ last_run s' = "08:17"
       /\ total_runs s' = 1
       /\ auto_sequence s' = false
       /\ values (snd (execute_schedule interrupted 0%nat before_run)) = [s']
       /\ disk (snd (execute_schedule interrupted 0%nat before_run))
          = Records [Some (asdict s')].
Proof.
  split; [vm_compute; reflexivity|].
  destruct (execute_schedule_always_finishes interrupted before_run 0%nat
              (sample "a" "09:00" 30 true) eq_refl)
    as (s' & Hs' & Hrun & Hlast & Htotal & Hauto & _ & _ & _ & _ & Hdisk & _).
  exists s'. split; [exact Hs'|]. split; [exact Hrun|]. split; [exact Hlast|].
  split; [exact Htotal|]. split; [exact Hauto|].
  assert (Hkeys : schedules (snd (execute_schedule interrupted 0%nat before_run))
                 = [("a"%string, 0%nat)]) by (vm_compute; reflexivity).
  assert (Hv : values (snd (execute_schedule interrupted 0%nat before_run)) = [s']).
  { unfold values. rewrite Hkeys. cbn [omap list_omap snd]. rewrite Hs'. reflexivity. }
  split; [exact Hv|].
  assert (Hwritten : writes interrupted (saves before_run + 1) = Written) by reflexivity.
  rewrite (Hdisk Hwritten), Hv. reflexivity.
Defined.

(** The claim as it stands fails where the last write fails: the run
    ends normally, the schedule in the store is not running and has run
    once, and the file still holds the record written at the start of
    the run, which says that the schedule is running and has never
    run. *)
Lemma failed_write_leaves_the_running_flag_on_file :
  fst (execute_schedule first_write_only 0%nat before_run) = Ok ()
  /\ values (snd (execute_schedule first_write_only 0%nat before_run))
     = [finished "08:17" stale]
  /\ currently_running (finished "08:17" stale) = false
  /\ total_runs (finished "08:17" stale) = 1
  /\ disk (snd (execute_schedule first_write_only 0%nat before_run))
     = Records [Some (asdict stale)]
  /\ d_currently_running (asdict stale) = Some true
  /\ d_total_runs (asdict stale) = Some 0
  /\ disk (snd (execute_schedule first_write_only 0%nat before_run))
     <> Records (map (fun x => Some (asdict x))
                  (values (snd (execute_schedule first_write_only 0%nat before_run)))).
Proof.
  repeat split; try (vm_compute; reflexivity).
  vm_compute. discriminate.
Qed.

(* ================================================================== *)
(** * The scheduler loop *)
(* ================================================================== *)

Lemma should_run_frame env current_time s st :
  exists st',
    should_run env current_time s st
    = (Ok (due env current_time s (clock env (clock_reads st))), st')
    /\ same_store st st' /\ runs st' = runs st /\ console st' = console st
    /\ (clock_reads st <= clock_reads st')%nat.
Proof.
  unfold should_run, due.
  destruct (first_run_due current_time s); [eexists; repeat split; reflexivity|].
  destruct (_ && _); [|eexists; repeat split; reflexivity].
  destruct (_ ≫= _) as [next|e]; step_M; eexists; repeat split; cbn; lia.
Qed.

Lemma running_all_running st l : all_running st (running st l).
Proof.
  intros r [Hr _]%list_elem_of_filter.
  destruct (objects st !! r) as [s|]; [|discriminate]. exists s. split; [reflexivity|exact Hr].
Qed.

#[local] Arguments due : simpl never.

(** Closes the parts of an [idles] goal. *)
Ltac idle_done :=
  repeat split; cbn; first [assumption | congruence | lia | repeat constructor].

(** While something is running, a visit dispatches nothing: it prints
    nothing, or that the schedule waits, or, for a schedule that is not set
    to auto-sequence, that it is queued; a schedule set to auto-sequence
    that is due is told to wait. *)
Lemma visit_idles env current_time running_schedules a st :
  running_schedules <> [] -> all_running st running_schedules ->
  exists out,
    idles (visit env current_time running_schedules a) st out
    /\ (forall l, l ∈ out ->
          l = Waiting a (length running_schedules)
          \/ (l = Queued a
              /\ forall s, objects st !! a = Some s -> auto_sequence s = false))
    /\ (forall s, objects st !! a = Some s -> auto_sequence s = true ->
          currently_running s = false ->
          is_Some (due env current_time s (clock env (clock_reads st))) ->
          out = [Waiting a (length running_schedules)]).
Proof.
  intros Hne Hrun. unfold visit, idles. step_M.
  destruct (objects st !! a) as [s|] eqn:Hs.
  2:{ exists []. rewrite app_nil_r.
      split; [exists (); idle_done|].
      split; [intros l H; inversion H | intros s [=]]. }
  destruct (currently_running s) eqn:Hcr.
  { step_M. exists []. rewrite app_nil_r.
    split; [exists (); idle_done|].
    split; [intros l H; inversion H | intros s' [= <-] _ Hf _; congruence]. }
  destruct (should_run_frame env current_time s st) as (st1 & Hdue & Hst1 & Hr1 & Hc1 & Hk1).
  rewrite Hdue.
  destruct (due env current_time s (clock env (clock_reads st))) as [first|] eqn:Edue.
  2:{ step_M. exists []. rewrite app_nil_r.
      split; [exists (); destruct Hst1 as (?&?&?&?); idle_done|].
      split; [intros l H; inversion H|].
      intros s' [= <-] _ _ [x Hx]. congruence. }
  destruct Hst1 as (Ho1 & Hs1 & Hd1 & Hsv1).
  destruct running_schedules as [|r rs]; [congruence|].
  destruct (auto_sequence s) eqn:Hauto; step_M.
  - exists [Waiting a (S (length rs))].
    split; [exists (); idle_done|].
    split; [intros l H; one_element H; left; exact H | reflexivity].
  - destruct (Hrun r ltac:(left)) as (sr & Hsr & Hrr).
    assert (schedules_would_conflict_now s sr = true) as Hconflict
      by (unfold schedules_would_conflict_now; rewrite Hrr; reflexivity).
    rewrite Ho1, Hsr. cbn. rewrite Hconflict. step_M.
    exists [Queued a].
    split; [exists (); idle_done|].
    split.
    + intros l H. one_element H. right. split; [exact H|]. intros s' [= <-]. exact Hauto.
    + intros s' [= <-] Ht. congruence.
Qed.

Lemma all_running_same_objects st st' l :
  objects st' = objects st -> all_running st l -> all_running st' l.
Proof. intros Ho H r Hr. rewrite Ho. apply H, Hr. Qed.

(** The same for the whole [for] over the active schedules; a schedule
    waits when it is due at whatever reading of the clock its turn
    comes. *)
Lemma for_each_visit_idles env current_time running_schedules active st :
  running_schedules <> [] -> all_running st running_schedules ->
  exists out,
    idles (for_each (visit env current_time running_schedules) active) st out
    /\ (forall l, l ∈ out ->
          exists b, b ∈ active
            /\ (l = Waiting b (length running_schedules)
                \/ (l = Queued b
                    /\ forall s, objects st !! b = Some s -> auto_sequence s = false)))
    /\ (forall a s, a ∈ active -> objects st !! a = Some s -> auto_sequence s = true ->
          currently_running s = false ->
          (forall k, (clock_reads st <= k)%nat ->
             is_Some (due env current_time s (clock env k))) ->
          Waiting a (length running_schedules) ∈ out).
Proof.
  intros Hne. revert st. induction active as [|b active IH]; intros st Hrun.
  - exists []. unfold idles. cbn. rewrite app_nil_r.
    split; [exists (); idle_done|].
    split; [intros l H; inversion H | intros a s H; inversion H].
  - destruct (visit_idles env current_time running_schedules b st Hne Hrun)
      as (out1 & (v1 & Hv1 & (Ho1&Hs1&Hd1&Hsv1) & Hr1 & Hk1 & Hc1 & Hi1) & Hshape1 & Hwait1).
    cbn [for_each]. unfold idles, mbind, M_bind.
    destruct (visit env current_time running_schedules b st) as [r1 st1].
    cbn in Hv1, Ho1, Hs1, Hd1, Hsv1, Hr1, Hk1, Hc1. subst r1.
    destruct (IH st1 (all_running_same_objects _ _ _ Ho1 Hrun))
      as (out2 & (v2 & Hv2 & (Ho2&Hs2&Hd2&Hsv2) & Hr2 & Hk2 & Hc2 & Hi2) & Hshape2 & Hwait2).
    exists (out1 ++ out2). split; [|split].
    + exists v2. repeat split; try congruence.
      * lia.
      * rewrite Hc2, Hc1, app_assoc. reflexivity.
      * apply Forall_app. split; assumption.
    + intros l [H|H]%elem_of_app.
      * exists b. split; [left|]. apply Hshape1, H.
      * destruct (Hshape2 l H) as (b' & Hb' & Hl). exists b'. split; [right; exact Hb'|].
        rewrite <- Ho1. exact Hl.
    + intros a s [->|Ha]%elem_of_cons Hs Hauto Hcr Hdue; rewrite elem_of_app.
      * left. rewrite (Hwait1 s Hs Hauto Hcr (Hdue _ (Nat.le_refl _))). left.
      * right. apply (Hwait2 a s Ha); [rewrite Ho1|..]; try assumption.
        intros k Hk. apply Hdue. lia.
Qed.

(** A schedule due for its first run is due whatever the clock shows. *)
Lemma first_run_is_due env current_time s t :
  first_run_due current_time s = true -> is_Some (due env current_time s t).
Proof. intros H. unfold due. rewrite H. eexists. reflexivity. Qed.

(** C8.  In a turn of the scheduler loop that starts while some active
    schedule is running, a schedule whose [auto_sequence] flag is set is
    not dispatched: the turn ends normally, runs no job, leaves every
    schedule and the file as they were and prints no line that starts or
    queues the schedule; when the schedule is active, not running and due
    (for its first run, or for a recurring run at every later reading of
    the clock), the turn prints that it waits, and it is there, unchanged,
    for the next turn. *)
Theorem auto_sequence_waits_while_another_runs
    (env : Env) (active : list addr) (st : State) (a : addr) (s : Schedule) :
  objects st !! a = Some s ->
  auto_sequence s = true ->
  running st active <> [] ->
  exists (st' : State) (out : list line),
    tick env active st = (Ok (), st')
    /\ objects st' = objects st
    /\ schedules st' = schedules st
    /\ disk st' = disk st
    /\ runs st' = runs st
    /\ saves st' = saves st
    /\ console st' = console st ++ out
    /\ (forall first, Starting first a ∉ out)
    /\ (Executing a ∉ out)
    /\ (Queued a ∉ out)
    /\ (a ∈ active -> currently_running s = false ->
        (forall k, (clock_reads st < k)%nat ->
           is_Some (due env (Dt.strftime_HM (clock env (clock_reads st))) s (clock env k))) ->
        Waiting a (length (running st active)) ∈ out)
    /\ (a ∈ active -> currently_running s = false ->
        first_run_due (Dt.strftime_HM (clock env (clock_reads st))) s = true ->
        Waiting a (length (running st active)) ∈ out).
Proof.
  intros Hs Hauto Hrunning. unfold tick. step_M.
  match goal with |- context [for_each (visit env ?ct ?rs) active ?s0] =>
    change rs with (running st active);
    destruct (for_each_visit_idles env ct (running st active) active s0 Hrunning
                (running_all_running st active))
      as (out & (v & Hv & (Ho&Hsch&Hd&Hsv) & Hr & Hk & Hc & Hi) & Hshape & Hwait);
    destruct (for_each (visit env ct (running st active)) active s0) as [r1 st1] end.
  cbn in Hv, Ho, Hsch, Hd, Hsv, Hr, Hk, Hc, Hwait. subst r1. step_M.
  assert (Hnot : (forall first, Starting first a ∉ out) /\ (Executing a ∉ out)
                 /\ (Queued a ∉ out)).
  { rewrite Forall_forall in Hi. repeat split.
    - intros first H. apply (Hi _ H).
    - intros H. apply (Hi _ H).
    - intros H. destruct (Hshape _ H) as (b & _ & [Hb|[[= <-] Hb]]); [discriminate|].
      specialize (Hb s Hs). congruence. }
  destruct Hnot as (Hn1 & Hn2 & Hn3).
  assert (Hdue : a ∈ active -> currently_running s = false ->
            (forall k, (clock_reads st < k)%nat ->
               is_Some (due env (Dt.strftime_HM (clock env (clock_reads st))) s
                          (clock env k))) ->
            Waiting a (length (running st active)) ∈ out).
  { intros Ha Hcr Hdue. apply (Hwait a s Ha Hs Hauto Hcr).
    intros k Hk'. apply Hdue. lia. }
  assert (Hfirst : a ∈ active -> currently_running s = false ->
            first_run_due (Dt.strftime_HM (clock env (clock_reads st))) s = true ->
            Waiting a (length (running st active)) ∈ out).
  { intros Ha Hcr Hf. apply (Hdue Ha Hcr). intros k _. apply first_run_is_due, Hf. }
  destruct (Dt.second _ mod 30 =? 0); step_M.
  - exists (mkState (objects st1) (schedules st1) (disk st1) (console st1 ++ [Monitoring])
              (S (S (clock_reads st1))) (runs st1) (saves st1)), (out ++ [Monitoring]).
    split; [reflexivity|]. cbn. do 5 (split; [assumption|]).
    split; [rewrite Hc, app_assoc; reflexivity|].
    split; [intros first [H|H]%elem_of_app; [apply (Hn1 first H) | one_element H; discriminate H]|].
    split; [intros [H|H]%elem_of_app; [apply (Hn2 H) | one_element H; discriminate H]|].
    split; [intros [H|H]%elem_of_app; [apply (Hn3 H) | one_element H; discriminate H]|].
    split; intros Ha Hcr Hd'; apply elem_of_app; left; [apply Hdue | apply Hfirst]; assumption.
  - exists (mkState (objects st1) (schedules st1) (disk st1) (console st1)
              (S (clock_reads st1)) (runs st1) (saves st1)), out.
    split; [reflexivity|]. cbn. do 5 (split; [assumption|]).
    split; [exact Hc|]. do 3 (split; [assumption|]).
    split; assumption.
Qed.

(** The theorem on a turn at 08:17 over two schedules, the first running
    and the second due at 08:17 with [auto_sequence] set: the second is
    told to wait for one schedule. *)
Lemma auto_sequence_waits_while_another_runs_witness :
  exists (st' : State) (out : list line),
    tick calm (active_schedules busy) busy = (Ok (), st')
    /\ objects st' = objects busy
    /\ runs st' = runs busy
    /\ console st' = console busy ++ out
    /\ (forall first, Starting first 1%nat ∉ out)
    /\ Waiting 1%nat 1%nat ∈ out.
Proof.
  destruct (auto_sequence_waits_while_another_runs calm [0; 1]%nat busy 1%nat
              (set_auto_sequence true (sample "b" "08:17" 15 true)) eq_refl eq_refl
              ltac:(intros H; vm_compute in H; discriminate H))
    as (st' & out & Htick & Ho & _ & _ & Hr & _ & Hc & Hstart & _ & _ & _ & Hwait).
  exists st', out. split; [exact Htick|]. split; [exact Ho|]. split; [exact Hr|].
  split; [exact Hc|]. split; [exact Hstart|].
  apply Hwait; [right; left | reflexivity | vm_compute; reflexivity].
Defined.

(* ================================================================== *)
(** * The first-run check and unpadded start times *)
(* ================================================================== *)

Lemma strftime_HM_length t : String.length (Dt.strftime_HM t) = 5%nat.
Proof. reflexivity. Qed.

Lemma keeps_bind {A B} a s (m : M A) (k : A -> M B) :
  keeps a s m -> (forall x, keeps a s (k x)) -> keeps a s (m ≫= k).
Proof.
  intros Hm Hk st Hs. unfold mbind, M_bind.
  specialize (Hm st Hs). destruct (m st) as [[x|e] st1]; cbn in Hm.
  - apply Hk, Hm.
  - exact Hm.
Qed.

Lemma keeps_same_objects {A} a s (m : M A) :
  (forall st, objects (snd (m st)) = objects st) -> keeps a s m.
Proof. intros H st Hs. rewrite H. exact Hs. Qed.

Lemma keeps_for_each {A} a s (body : A -> M unit) l :
  (forall x, keeps a s (body x)) -> keeps a s (for_each body l).
Proof.
  intros Hbody. induction l as [|x l IH]; cbn [for_each].
  - apply keeps_same_objects. reflexivity.
  - apply keeps_bind; [apply Hbody | intros _; exact IH].
Qed.

Lemma execute_schedule_keeps env a s b : b <> a -> keeps a s (execute_schedule env b).
Proof.
  intros Hb st Hs. destruct (execute_schedule_state env b st) as (Ho & _).
  rewrite Ho, list_lookup_alter_ne by exact Hb. exact Hs.
Qed.

Lemma should_run_keeps env current_time x a s : keeps a s (should_run env current_time x).
Proof.
  intros st Hs. destruct (should_run_frame env current_time x st) as (st1 & -> & (Ho&_) & _).
  cbn. rewrite Ho. exact Hs.
Qed.

(** A schedule that has never run and whose start time is not the time
    shown is left alone by a visit, its own or another schedule's. *)
Lemma visit_keeps env current_time running_schedules b a s :
  first_run_due current_time s = false -> last_run s = "" ->
  keeps a s (visit env current_time running_schedules b).
Proof.
  intros Hfirst Hlast st Hs. unfold visit. step_M.
  destruct (objects st !! b) as [x|] eqn:Hb; [|exact Hs].
  destruct (currently_running x); [exact Hs|].
  destruct (should_run_frame env current_time x st) as (st1 & Hdue & (Ho&_) & _).
  rewrite Hdue.
  destruct (due env current_time x (clock env (clock_reads st))) as [first|] eqn:Edue;
    [|cbn; rewrite Ho; exact Hs].
  destruct (decide (b = a)) as [->|Hne].
  - (* the schedule itself: it is not due *)
    assert (x = s) as -> by congruence.
    unfold due in Edue. rewrite Hfirst, Hlast in Edue.
    rewrite andb_false_r in Edue. discriminate Edue.
  - destruct (auto_sequence x && _); step_M; [rewrite Ho; exact Hs|].
    destruct (existsb _ _); step_M; [rewrite Ho; exact Hs|].
    apply execute_schedule_keeps; [exact Hne|]. cbn. rewrite Ho. exact Hs.
Qed.

Lemma now_keeps env a s : keeps a s (now env).
Proof. apply keeps_same_objects. reflexivity. Qed.

(** Such a schedule is as it was after a turn of the loop, whatever the
    turn did with the other schedules. *)
Lemma tick_keeps env active a s :
  (forall t, Dt.strftime_HM t <> start_time s) -> last_run s = "" ->
  keeps a s (tick env active).
Proof.
  intros Hne Hlast. unfold tick.
  apply keeps_bind; [apply now_keeps|]. intros t.
  apply keeps_bind; [apply keeps_same_objects; reflexivity|]. intros st0.
  apply keeps_bind.
  - apply keeps_for_each. intros b. apply visit_keeps; [|exact Hlast].
    unfold first_run_due.
    destruct (String.eqb_spec (Dt.strftime_HM t) (start_time s)) as [E|_].
    + destruct (Hne t E).
    + apply andb_false_r.
  - intros _. apply keeps_bind; [apply now_keeps|]. intros t'.
    destruct (_ =? 0).
    + apply keeps_bind; [apply now_keeps|]. intros _. apply keeps_same_objects. reflexivity.
    + apply keeps_same_objects. reflexivity.
Qed.

Lemma ticks_keeps env n active a s :
  (forall t, Dt.strftime_HM t <> start_time s) -> last_run s = "" ->
  keeps a s (ticks env n active).
Proof.
  intros Hne Hlast. induction n as [|n IH]; cbn [ticks].
  - apply keeps_same_objects. reflexivity.
  - apply keeps_bind; [apply tick_keeps; assumption | intros _; exact IH].
Qed.

(** C10.  The start time "9:30" is accepted by [validate_time_format] and
    differs from every text [strftime("%H:%M")] produces; so for a schedule
    with that start time the first-run condition of the scheduler loop is
    false at every reading of the clock, a schedule that has never run is
    not due whatever the clock shows, and through any number of turns of
    the loop it stays as it was, never run. *)
Theorem unpadded_start_time_is_never_due :
  exists start : string,
    validate_time_format start = true
    /\ (forall t : datetime, Dt.strftime_HM t <> start)
    /\ (forall (s : Schedule) (t : datetime),
          start_time s = start -> total_runs s = 0 ->
          first_run_due (Dt.strftime_HM t) s = false)
    /\ (forall (env : Env) (s : Schedule) (t : datetime) (st : State),
          start_time s = start -> total_runs s = 0 -> last_run s = "" ->
          should_run env (Dt.strftime_HM t) s st = (Ok None, st))
    /\ (forall (env : Env) (n : nat) (active : list addr) (st : State)
               (a : addr) (s : Schedule),
          objects st !! a = Some s ->
          start_time s = start -> total_runs s = 0 -> last_run s = "" ->
          objects (snd (ticks env n active st)) !! a = Some s).
Proof.
  exists "9:30".
  assert (Hne : forall t : datetime, Dt.strftime_HM t <> "9:30").
  { intros t H. apply (f_equal String.length) in H.
    rewrite strftime_HM_length in H. discriminate H. }
  assert (Hdue : forall (s : Schedule) (t : datetime),
             start_time s = "9:30" -> first_run_due (Dt.strftime_HM t) s = false).
  { intros s t Hs. unfold first_run_due. rewrite Hs.
    destruct (String.eqb_spec (Dt.strftime_HM t) "9:30") as [E|_].
    - destruct (Hne t E).
    - apply andb_false_r. }
  split; [reflexivity|]. split; [exact Hne|]. split; [|split].
  - intros s t Hs _. apply Hdue, Hs.
  - intros env s t st Hs _ Hl. unfold should_run.
    rewrite (Hdue s t Hs), Hl. cbn. rewrite andb_false_r. reflexivity.
  - intros env n active st a s Ha Hs _ Hl.
    apply ticks_keeps; [rewrite Hs; exact Hne | exact Hl | exact Ha].
Qed.

(** The theorem's start time on a sample schedule: not due at 09:30 by
    the clock, and as it was after three turns of the loop. *)
Lemma unpadded_start_time_is_never_due_witness :
  exists start : string,
    validate_time_format start = true
    /\ first_run_due (Dt.strftime_HM (Dt.of_hm 9 30)) (sample "a" start 15 true) = false
    /\ objects (snd (ticks calm 3 [0%nat] (holding [sample "a" start 15 true]))) !! 0%nat
       = Some (sample "a" start 15 true).
Proof.
  destruct unpadded_start_time_is_never_due as (start & Hv & _ & Hdue & _ & Hticks).
  exists start. split; [exact Hv|]. split.
  - apply (Hdue (sample "a" start 15 true) (Dt.of_hm 9 30)); reflexivity.
  - apply (Hticks calm 3%nat [0%nat] (holding [sample "a" start 15 true]) 0%nat
             (sample "a" start 15 true)); reflexivity.
Defined.

(* ================================================================== *)
(** * Durations shown and read back *)
(* ================================================================== *)

Lemma digit_char_digit k :
  0 <= k <= 9 ->
  Str.isdecimal (Dt.digit_char k) = true /\ Str.digit_value (Dt.digit_char k) = k.
Proof.
  intros H.
  assert (k = 0 \/ k = 1 \/ k = 2 \/ k = 3 \/ k = 4 \/ k = 5 \/ k = 6 \/ k = 7
          \/ k = 8 \/ k = 9) as Hk by lia.
  repeat (destruct Hk as [->|Hk]; [split; reflexivity|]). subst k. split; reflexivity.
Qed.

Lemma append_assoc (a b c : string) : (a +:+ b) +:+ c = a +:+ (b +:+ c).
Proof. induction a as [|x a IH]; [reflexivity|]. rewrite !append_cons, IH. reflexivity. Qed.

Lemma all_digits_app a b :
  all_digits a = true -> all_digits b = true -> all_digits (a +:+ b) = true.
Proof.
  intros Ha Hb. induction a as [|x a IH]; [exact Hb|].
  apply all_digits_cons in Ha as [Hx Ha]. rewrite append_cons. cbn.
  rewrite Hx, (IH Ha). reflexivity.
Qed.

Lemma decimal_value_snoc ds c :
  decimal_value (ds +:+ String c "") = 10 * decimal_value ds + Str.digit_value c.
Proof.
  unfold decimal_value. generalize 0.
  induction ds as [|x ds IH]; intros a; [reflexivity|].
  rewrite append_cons. cbn. apply IH.
Qed.

Lemma all_digits_single c : Str.isdecimal c = true -> all_digits (String c "") = true.
Proof. intros H. unfold all_digits. rewrite H. reflexivity. Qed.

Lemma decimal_value_single c : decimal_value (String c "") = Str.digit_value c.
Proof. unfold decimal_value. cbn [list_ascii_of_string fold_left]. lia. Qed.

(** The digits [digits_of] puts before [acc] are those of [n]. *)
Lemma digits_of_spec fuel n :
  0 <= n < 2 ^ (Z.of_nat fuel + 1) ->
  exists ds, (forall acc, digits_of fuel n acc = ds +:+ acc)
    /\ all_digits ds = true /\ ds <> "" /\ decimal_value ds = n.
Proof.
  revert n. induction fuel as [|fuel IH]; intros n Hn.
  - change (2 ^ (Z.of_nat 0 + 1)) with 2 in Hn.
    exists (String (Dt.digit_char n) ""). cbn [digits_of].
    rewrite (Z.mod_small n 10) by lia.
    destruct (digit_char_digit n ltac:(lia)) as [H1 H2].
    split; [reflexivity|]. split; [apply all_digits_single, H1|].
    split; [discriminate|]. rewrite decimal_value_single. exact H2.
  - cbn [digits_of]. destruct (Z.ltb_spec n 10) as [Hlt|Hge].
    + exists (String (Dt.digit_char n) "").
      rewrite (Z.mod_small n 10) by lia.
      destruct (digit_char_digit n ltac:(lia)) as [H1 H2].
      split; [reflexivity|]. split; [apply all_digits_single, H1|].
      split; [discriminate|]. rewrite decimal_value_single. exact H2.
    + destruct (IH (n / 10)) as (ds & Hds & Hall & Hne & Hval).
      { rewrite Nat2Z.inj_succ in Hn.
        replace (Z.succ (Z.of_nat fuel) + 1) with (Z.succ (Z.of_nat fuel + 1)) in Hn by lia.
        rewrite Z.pow_succ_r in Hn by lia.
        split; [apply Z.div_pos; lia|].
        apply Z.div_lt_upper_bound; lia. }
      pose proof (Z.mod_pos_bound n 10 ltac:(lia)) as Hm.
      destruct (digit_char_digit (n mod 10) ltac:(lia)) as [H1 H2].
      exists (ds +:+ String (Dt.digit_char (n mod 10)) "").
      split; [intros acc; rewrite Hds, append_assoc; reflexivity|].
      split; [apply all_digits_app; [exact Hall | apply all_digits_single, H1]|].
      split; [apply app_not_empty, Hne|].
      rewrite decimal_value_snoc, Hval, H2.
      pose proof (Z.div_mod n 10 ltac:(lia)). lia.
Qed.

(** A number that is not negative is shown by its digits. *)
Lemma str_of_int_digits n :
  0 <= n ->
  all_digits (str_of_int n) = true /\ str_of_int n <> ""
  /\ decimal_value (str_of_int n) = n.
Proof.
  intros Hn. unfold str_of_int.
  assert ((n <? 0) = false) as -> by lia.
  destruct (digits_of_spec (Z.to_nat (Z.log2 n)) n) as (ds & Hds & Hall & Hne & Hval).
  { rewrite Z2Nat.id by apply Z.log2_nonneg.
    destruct (Z.eq_dec n 0) as [->|Hz]; [cbn; lia|].
    pose proof (Z.log2_spec n ltac:(lia)) as Hl.
    replace (Z.log2 n + 1) with (Z.succ (Z.log2 n)) by lia. lia. }
  rewrite Hds, append_empty_r. auto.
Qed.

(** The number of digits [digits_of] puts before [acc]: one for a number
    below ten, and otherwise the [k] with [10 ^ (k - 1) <= n < 10 ^ k]. *)
Lemma digits_of_length fuel n acc :
  0 <= n < 2 ^ (Z.of_nat fuel + 1) ->
  exists k,
    Z.of_nat (String.length (digits_of fuel n acc)) = k + Z.of_nat (String.length acc)
    /\ 1 <= k /\ n < 10 ^ k /\ (n < 10 -> k = 1) /\ (10 <= n -> 10 ^ (k - 1) <= n).
Proof.
  revert n acc. induction fuel as [|fuel IH]; intros n acc Hn.
  - change (2 ^ (Z.of_nat 0 + 1)) with 2 in Hn.
    exists 1. cbn [digits_of String.length]. rewrite Nat2Z.inj_succ.
    split; [lia|]. split; [lia|]. split; [change (10 ^ 1) with 10; lia|].
    split; [reflexivity|lia].
  - cbn [digits_of]. destruct (Z.ltb_spec n 10) as [Hlt|Hge].
    + exists 1. cbn [String.length]. rewrite Nat2Z.inj_succ.
      split; [lia|]. split; [lia|]. split; [change (10 ^ 1) with 10; lia|].
      split; [reflexivity|lia].
    + destruct (IH (n / 10) (String (Dt.digit_char (n mod 10)) acc))
        as (k & Hlen & Hk & Hlt & Hone & Hlow).
      { rewrite Nat2Z.inj_succ in Hn.
        replace (Z.succ (Z.of_nat fuel) + 1) with (Z.succ (Z.of_nat fuel + 1)) in Hn by lia.
        rewrite Z.pow_succ_r in Hn by lia.
        split; [apply Z.div_pos; lia|].
        apply Z.div_lt_upper_bound; lia. }
      pose proof (Z.div_mod n 10 ltac:(lia)) as Hdm.
      pose proof (Z.mod_pos_bound n 10 ltac:(lia)) as Hm.
      exists (k + 1). cbn [String.length] in Hlen. rewrite Nat2Z.inj_succ in Hlen.
      split; [lia|]. split; [lia|].
      replace (k + 1) with (Z.succ k) by lia. rewrite Z.pow_succ_r by lia.
      replace (Z.succ k - 1) with k by lia.
      split; [lia|]. split; [lia|]. intros _.
      destruct (Z.lt_ge_cases (n / 10) 10) as [Hsmall|Hbig].
      * rewrite (Hone Hsmall). change (10 ^ 1) with 10. exact Hge.
      * specialize (Hlow Hbig).
        replace k with (Z.succ (k - 1)) by lia. rewrite Z.pow_succ_r by lia. lia.
Qed.

(** A number that is not negative is shown when it is below
    [10 ^ 4300], and only then. *)
Lemma str_shown n :
  0 <= n < 10 ^ Str.max_str_digits ->
  str n = Ok (str_of_int n)
  /\ Z.of_nat (String.length (str_of_int n)) <= Str.max_str_digits.
Proof.
  intros [Hn Hlt]. destruct (str_of_int_digits n Hn) as (Hall & _ & _).
  unfold str. rewrite (count_digits_all_digits _ Hall).
  assert (Hlen : Z.of_nat (String.length (str_of_int n)) <= Str.max_str_digits).
  { unfold str_of_int. assert ((n <? 0) = false) as -> by lia.
    destruct (digits_of_length (Z.to_nat (Z.log2 n)) n "")
      as (k & Hlen & Hk & _ & Hone & Hlow).
    { rewrite Z2Nat.id by apply Z.log2_nonneg.
      destruct (Z.eq_dec n 0) as [->|Hz]; [cbn; lia|].
      pose proof (Z.log2_spec n ltac:(lia)) as Hl.
      replace (Z.log2 n + 1) with (Z.succ (Z.log2 n)) by lia. lia. }
    cbn [String.length] in Hlen. rewrite Hlen, Z.add_0_r.
    destruct (Z.lt_ge_cases n 10) as [Hsmall|Hbig].
    - rewrite (Hone Hsmall). unfold Str.max_str_digits. lia.
    - specialize (Hlow Hbig).
      destruct (Z.le_gt_cases k Str.max_str_digits) as [Hle|Hgt]; [exact Hle|].
      exfalso.
      pose proof (Z.pow_le_mono_r 10 Str.max_str_digits (k - 1) ltac:(lia) ltac:(lia)).
      lia. }
  split; [|exact Hlen].
  assert ((Str.max_str_digits <? Z.of_nat (String.length (str_of_int n))) = false) as ->
    by lia.
  reflexivity.
Qed.

Lemma str_too_long n : 10 ^ Str.max_str_digits <= n -> str n = Raise ValueError.
Proof.
  intros Hge.
  assert (Hpos : 0 < 10 ^ Str.max_str_digits)
    by (apply Z.pow_pos_nonneg; unfold Str.max_str_digits; lia).
  destruct (str_of_int_digits n ltac:(lia)) as (Hall & _ & _).
  unfold str. rewrite (count_digits_all_digits _ Hall).
  assert (Hlen : Str.max_str_digits < Z.of_nat (String.length (str_of_int n))).
  { unfold str_of_int. assert ((n <? 0) = false) as -> by lia.
    destruct (digits_of_length (Z.to_nat (Z.log2 n)) n "")
      as (k & Hlen & Hk & Hlt & _ & _).
    { rewrite Z2Nat.id by apply Z.log2_nonneg.
      pose proof (Z.log2_spec n ltac:(lia)) as Hl.
      replace (Z.log2 n + 1) with (Z.succ (Z.log2 n)) by lia. lia. }
    cbn [String.length] in Hlen. rewrite Hlen, Z.add_0_r.
    destruct (Z.le_gt_cases k Str.max_str_digits) as [Hle|Hgt]; [|exact Hgt].
    exfalso.
    pose proof (Z.pow_le_mono_r 10 k Str.max_str_digits ltac:(lia) Hle).
    lia. }
  assert ((Str.max_str_digits <? Z.of_nat (String.length (str_of_int n))) = true) as ->
    by lia.
  reflexivity.
Qed.

Lemma lower_fixed_cons c r :
  Str.lower_char c = c -> Str.lower r = r -> Str.lower (String c r) = String c r.
Proof. intros Hc Hr. cbn [Str.lower]. rewrite Hc, Hr. reflexivity. Qed.

Lemma lower_fixed_digits ds t :
  all_digits ds = true -> Str.lower t = t -> Str.lower (ds +:+ t) = ds +:+ t.
Proof. intros Hds Ht. rewrite (lower_digits_app _ _ Hds), Ht. reflexivity. Qed.

Lemma rstrip_fixed_solid sp c r :
  sp c = false -> Str.rstrip_by sp r = r -> Str.rstrip_by sp (String c r) = String c r.
Proof. intros Hc Hr. cbn [Str.rstrip_by]. rewrite Hr, Hc. destruct r; reflexivity. Qed.

Lemma rstrip_fixed_cons sp c r :
  r <> "" -> Str.rstrip_by sp r = r -> Str.rstrip_by sp (String c r) = String c r.
Proof. intros Hne Hr. cbn [Str.rstrip_by]. rewrite Hr. destruct r; [congruence|reflexivity]. Qed.

Lemma rstrip_fixed_digits sp ds t :
  t <> "" -> Str.rstrip_by sp t = t -> Str.rstrip_by sp (ds +:+ t) = ds +:+ t.
Proof.
  intros Hne Ht. induction ds as [|d r IH]; [exact Ht|].
  rewrite append_cons. apply rstrip_fixed_cons; [|exact IH].
  destruct r; [exact Hne | discriminate].
Qed.

Lemma token_digits_space ds t :
  all_digits ds = true -> Str.token (ds +:+ String " " t) = ds.
Proof.
  induction ds as [|d r IH]; [reflexivity|]. intros [Hd Hr]%all_digits_cons.
  rewrite append_cons. cbn [Str.token].
  rewrite (isdigit_not_space _ Hd), (IH Hr). reflexivity.
Qed.

Lemma split_first_digits_space ds t :
  all_digits ds = true -> ds <> "" -> Str.split_first (ds +:+ String " " t) = Some ds.
Proof.
  intros Hds Hne. unfold Str.split_first, Str.lstrip.
  destruct ds as [|d r]; [congruence|].
  pose proof Hds as [Hd _]%all_digits_cons.
  rewrite append_cons. cbn [Str.lstrip_by]. rewrite (isdigit_not_space _ Hd).
  rewrite <- append_cons, (token_digits_space _ _ Hds). reflexivity.
Qed.

Lemma remove_digits ds c old :
  all_digits ds = true -> Str.isdecimal c = false -> Str.remove (String c old) ds = ds.
Proof.
  intros Hds Hc. rewrite <- (append_empty_r ds) at 1.
  rewrite (remove_digits_app _ _ _ _ Hds Hc). apply append_empty_r.
Qed.

Lemma endswith_cons c r suffix :
  String.eqb (String c r) suffix = false ->
  Str.endswith (String c r) suffix = Str.endswith r suffix.
Proof. intros H. cbn [Str.endswith]. rewrite H. reflexivity. Qed.

Lemma endswith_eq s suffix : String.eqb s suffix = true -> Str.endswith s suffix = true.
Proof. intros H. destruct s; cbn [Str.endswith]; rewrite H; reflexivity. Qed.

(** [validate_duration] on a number, a space and more text reads the
    number, in the unit the text ends with. *)
Lemma validate_duration_leading ds t :
  all_digits ds = true -> ds <> "" ->
  Z.of_nat (String.length ds) <= Str.max_str_digits ->
  Str.lower t = t -> Str.rstrip_by Str.isspace t = t -> t <> "" ->
  let s := ds +:+ String " " t in
  validate_duration s =
    if Str.endswith s "m" || Str.endswith s "min" || Str.endswith s "minute"
       || Str.endswith s "minutes"
    then Some (decimal_value ds)
    else if Str.endswith s "h" || Str.endswith s "hour" || Str.endswith s "hours"
    then Some (decimal_value ds * 60)
    else if Str.endswith s "d" || Str.endswith s "day" || Str.endswith s "days"
    then Some (decimal_value ds * 24 * 60)
    else Str.int s.
Proof.
  intros Hds Hne Hlen Hlow Hstrip Htne s.
  assert (El : Str.lower s = s)
    by (apply lower_fixed_digits; [exact Hds | apply lower_fixed_cons; [reflexivity|exact Hlow]]).
  assert (Es : Str.strip s = s).
  { unfold Str.strip, Str.strip_by, s. destruct ds as [|d r] eqn:Eds; [congruence|].
    pose proof Hds as [Hd _]%all_digits_cons.
    rewrite append_cons. cbn [Str.lstrip_by]. rewrite (isdigit_not_space _ Hd).
    rewrite <- append_cons.
    apply rstrip_fixed_digits; [discriminate|].
    apply rstrip_fixed_cons; assumption. }
  assert (Ew : Str.split_first s = Some ds)
    by (apply split_first_digits_space; assumption).
  unfold validate_duration. rewrite El, Es, !Ew.
  rewrite !(remove_digits ds) by (exact Hds || reflexivity).
  rewrite (int_of_digits ds Hds Hne).
  assert ((Z.of_nat (String.length ds) <=? Str.max_str_digits) = true) as -> by lia.
  reflexivity.
Qed.

(** Brings a text made of literals and digits to a list of characters
    with the digits appended in it. *)
Ltac flatten_text :=
  rewrite ?append_cons;
  repeat match goal with
    | |- context [String.append EmptyString ?x] =>
        change (String.append EmptyString x) with x
    end.

(** Decides [Str.endswith a b = ?v] for such a text and a literal
    suffix that begins with a letter. *)
Ltac endswith_value :=
  repeat first
    [ rewrite endswith_digits_app by first [assumption | reflexivity]
    | rewrite endswith_cons by reflexivity
    | rewrite endswith_eq by reflexivity
    | match goal with
      | |- context [Str.endswith EmptyString ?x] =>
          change (Str.endswith EmptyString x) with false
      end ];
  reflexivity.

(** Side conditions of [validate_duration_leading]. *)
Ltac fixed_text :=
  repeat first
    [ reflexivity
    | discriminate
    | assumption
    | apply lower_fixed_cons; [reflexivity|]
    | apply lower_fixed_digits; [assumption|]
    | apply rstrip_fixed_solid; [reflexivity|]
    | apply rstrip_fixed_cons; [first [discriminate | apply app_not_empty; assumption]|]
    | apply rstrip_fixed_digits; [discriminate|] ].

(** [validate_duration] of the text shown for a duration. *)
Ltac read_shown :=
  unfold plural;
  repeat match goal with |- context [if ?b then "" else "s"] => destruct b end;
  flatten_text;
  rewrite validate_duration_leading by fixed_text;
  repeat match goal with
    | |- context [Str.endswith ?a ?b] =>
        let E := fresh "E" in
        eassert (E : Str.endswith a b = _) by endswith_value;
        rewrite E; clear E
    end;
  cbv beta iota delta [orb].

Lemma small_is_shown n : 0 <= n < 1440 -> 0 <= n < 10 ^ Str.max_str_digits.
Proof.
  intros H. split; [lia|].
  pose proof (Z.pow_le_mono_r 10 4 Str.max_str_digits ltac:(lia)
                ltac:(unfold Str.max_str_digits; lia)) as Hp.
  change (10 ^ 4) with 10000 in Hp. lia.
Qed.

(** Runs the [str] of a number that is shown. *)
Ltac show_number n H :=
  let Hstr := fresh "Hstr" in
  let Hlen := fresh "Hlen" in
  destruct (str_shown n H) as [Hstr Hlen];
  rewrite Hstr; cbn [mbind result_bind mret result_ret].

(** X1.  [format_duration] shows every number of minutes that is not
    negative and below 1440 times [10 ^ 4300], and [validate_duration]
    accepts the text, reading the number before the first unit in the
    last unit shown: the duration itself below an hour and for whole
    hours or days, and otherwise the hours as minutes, or the days as
    hours.  From 1440 times [10 ^ 4300] minutes on the days have more
    digits than an f-string shows and [format_duration] raises
    [ValueError]. *)
Theorem format_duration_read_back (n : Z) :
  0 <= n ->
  (n / 1440 < 10 ^ Str.max_str_digits ->
   exists text,
     format_duration n = Ok text
     /\ validate_duration text =
          Some (if n <? 60 then n
                else if n <? 1440 then (if n mod 60 =? 0 then n else n / 60)
                else if n mod 1440 / 60 =? 0 then n / 1440 * 1440 else n / 1440 * 60))
  /\ (10 ^ Str.max_str_digits <= n / 1440 -> format_duration n = Raise ValueError).
Proof.
  intros Hn.
  pose proof (Z.div_mod n 60 ltac:(lia)) as D60.
  pose proof (Z.mod_pos_bound n 60 ltac:(lia)) as M60.
  pose proof (Z.div_mod n 1440 ltac:(lia)) as D1440.
  pose proof (Z.mod_pos_bound n 1440 ltac:(lia)) as M1440.
  assert (Hd : 0 <= n / 1440) by (apply Z.div_pos; lia).
  split.
  - intros Hshown. unfold format_duration.
    destruct (Z.ltb_spec n 60) as [H60|H60].
    + destruct (str_of_int_digits n Hn) as (Hall & Hne & Hval).
      show_number n (small_is_shown n ltac:(lia)).
      eexists. split; [reflexivity|].
      read_shown. rewrite Hval. reflexivity.
    + destruct (Z.ltb_spec n 1440) as [H1440|H1440].
      * assert (Hh : 0 <= n / 60 < 1440)
          by (split; [apply Z.div_pos; lia | apply Z.div_lt_upper_bound; lia]).
        destruct (str_of_int_digits (n / 60) ltac:(lia)) as (Hall & Hne & Hval).
        destruct (str_of_int_digits (n mod 60) ltac:(lia)) as (Hall' & Hne' & Hval').
        destruct (Z.eqb_spec (n mod 60) 0) as [Hm|Hm].
        -- show_number (n / 60) (small_is_shown _ Hh).
           eexists. split; [reflexivity|].
           read_shown; rewrite Hval; f_equal; lia.
        -- show_number (n / 60) (small_is_shown _ Hh).
           show_number (n mod 60) (small_is_shown (n mod 60) ltac:(lia)).
           eexists. split; [reflexivity|].
           read_shown; rewrite Hval; f_equal; lia.
      * assert (Hr : 0 <= n mod 1440 / 60 < 1440)
          by (split; [apply Z.div_pos; lia | apply Z.div_lt_upper_bound; lia]).
        destruct (str_of_int_digits (n / 1440) Hd) as (Hall & Hne & Hval).
        destruct (str_of_int_digits (n mod 1440 / 60) ltac:(lia)) as (Hall' & Hne' & Hval').
        destruct (Z.eqb_spec (n mod 1440 / 60) 0) as [Hm|Hm].
        -- show_number (n / 1440) (conj Hd Hshown).
           eexists. split; [reflexivity|].
           read_shown; rewrite Hval; f_equal; lia.
        -- show_number (n / 1440) (conj Hd Hshown).
           show_number (n mod 1440 / 60) (small_is_shown _ Hr).
           eexists. split; [reflexivity|].
           read_shown; rewrite Hval; f_equal; lia.
  - intros Hlong. unfold format_duration.
    assert (Hpos : 0 < 10 ^ Str.max_str_digits)
      by (apply Z.pow_pos_nonneg; unfold Str.max_str_digits; lia).
    assert ((n <? 60) = false) as -> by lia.
    assert ((n <? 1440) = false) as -> by lia.
    rewrite (str_too_long _ Hlong).
    destruct (n mod 1440 / 60 =? 0); reflexivity.
Qed.

(** The theorem on 45, 120, 150 and 1500 minutes, shown as "45 minutes",
    "2 hours", "2 hours 30 minutes" and "1 day 1 hour". *)
Lemma format_duration_read_back_witness :
  (exists text, format_duration 45 = Ok text /\ validate_duration text = Some 45)
  /\ (exists text, format_duration 120 = Ok text /\ validate_duration text = Some 120)
  /\ (exists text, format_duration 150 = Ok text /\ validate_duration text = Some 2)
  /\ (exists text, format_duration 1500 = Ok text /\ validate_duration text = Some 60).
Proof.
  assert (Hshown : 0 < 10 ^ Str.max_str_digits)
    by (apply Z.pow_pos_nonneg; unfold Str.max_str_digits; lia).
  exact (conj (proj1 (format_duration_read_back 45 ltac:(lia)) Hshown)
          (conj (proj1 (format_duration_read_back 120 ltac:(lia)) Hshown)
             (conj (proj1 (format_duration_read_back 150 ltac:(lia)) Hshown)
                (proj1 (format_duration_read_back 1500 ltac:(lia))
                   (proj2 (small_is_shown 1 ltac:(lia))))))).
Defined.

(* ================================================================== *)
(** * Windows and conflicts, both ways round *)
(* ================================================================== *)

Lemma strptime_HM_raises s e : Dt.strptime_HM s = Raise e -> e = ValueError.
Proof.
  unfold Dt.strptime_HM.
  destruct (Dt.matches_HM s) as [|[[h m] [|c r]] l]; congruence.
Qed.

Lemma windows_overlap_sym s1 s2 : windows_overlap s1 s2 = windows_overlap s2 s1.
Proof.
  unfold windows_overlap.
  destruct (Dt.strptime_HM (start_time s1)) as [t1|e1] eqn:E1,
           (Dt.strptime_HM (start_time s2)) as [t2|e2] eqn:E2; cbn; try reflexivity.
  - destruct (Dt.add_minutes t1 (estimated_duration_minutes s1)) as [a|ea] eqn:A1,
             (Dt.add_minutes t2 (estimated_duration_minutes s2)) as [b|eb] eqn:A2;
      cbn; try reflexivity.
    + f_equal. apply orb_comm.
    + apply add_minutes_raises in A1, A2. congruence.
  - apply strptime_HM_raises in E1, E2. congruence.
Qed.

(** X2.  The overlap test does not depend on the order of its two
    schedules: [check_execution_overlap] reports an overlap of the one
    with the other exactly when it reports one of the other with the
    one (the message names its first argument), and
    [check_schedule_conflicts_between] returns the same list both ways
    round. *)
Theorem overlap_is_symmetric (schedule1 schedule2 : Schedule) :
  (is_Some (check_execution_overlap schedule1 schedule2)
   <-> is_Some (check_execution_overlap schedule2 schedule1))
  /\ check_schedule_conflicts_between schedule1 schedule2
     = check_schedule_conflicts_between schedule2 schedule1.
Proof.
  unfold check_execution_overlap, check_schedule_conflicts_between.
  rewrite (windows_overlap_sym schedule1 schedule2).
  rewrite (String.eqb_sym (start_time schedule1)).
  split; [|reflexivity].
  destruct (attempt (windows_overlap schedule2 schedule1)) as [[]|];
    split; intros H; try (eexists; reflexivity); destruct H; discriminate.
Qed.

(** X3.  For two schedules whose start times parse and whose estimated
    durations are at least a minute (and below 900 million minutes),
    [check_execution_overlap] reports an overlap exactly when the
    half-open windows from start to start plus estimated duration have
    a moment in common. *)
Theorem overlap_iff_windows_intersect (schedule1 schedule2 : Schedule) (t1 t2 : datetime) :
  Dt.strptime_HM (start_time schedule1) = Ok t1 ->
  Dt.strptime_HM (start_time schedule2) = Ok t2 ->
  1 <= estimated_duration_minutes schedule1 <= 900000000 ->
  1 <= estimated_duration_minutes schedule2 <= 900000000 ->
  is_Some (check_execution_overlap schedule1 schedule2)
  <-> (t1 < t2 + estimated_duration_minutes schedule2 * Dt.us_per_minute
       /\ t2 < t1 + estimated_duration_minutes schedule1 * Dt.us_per_minute).
Proof.
  intros E1 E2 H1 H2.
  pose proof (strptime_HM_range _ _ E1) as R1.
  pose proof (strptime_HM_range _ _ E2) as R2.
  unfold check_execution_overlap, windows_overlap. rewrite E1, E2. cbn.
  rewrite !add_minutes_ok by (units; lia). cbn.
  destruct (Z.leb_spec t1 t2), (Z.ltb_spec t2 (t1 + estimated_duration_minutes schedule1
                                                  * Dt.us_per_minute)),
           (Z.leb_spec t2 t1), (Z.ltb_spec t1 (t2 + estimated_duration_minutes schedule2
                                                  * Dt.us_per_minute));
    cbn; split; intros Hx; try (eexists; reflexivity); try (units; lia);
    destruct Hx as [? Hx]; try discriminate Hx; units; lia.
Qed.

(** The theorem on 09:00 for 30 minutes and 09:20 for 15 minutes. *)
Lemma overlap_iff_windows_intersect_witness :
  is_Some (check_execution_overlap (sample "a" "09:00" 30 true) (sample "b" "09:20" 15 true))
  <-> (Dt.of_hm 9 0 < Dt.of_hm 9 20 + 15 * Dt.us_per_minute
       /\ Dt.of_hm 9 20 < Dt.of_hm 9 0 + 30 * Dt.us_per_minute).
Proof.
  apply (overlap_iff_windows_intersect (sample "a" "09:00" 30 true)
           (sample "b" "09:20" 15 true)); [reflexivity | reflexivity | cbn; lia | cbn; lia].
Defined.

(* ================================================================== *)
(** * Times shown and read back *)
(* ================================================================== *)

Lemma minute_replace_minute_second0 d m :
  0 <= m <= 59 -> Dt.minute (Dt.replace_minute_second0 d m) = m.
Proof. intros H. fields. Qed.

Lemma minute_add_hour d : Dt.minute (d + 1 * Dt.us_per_hour) = Dt.minute d.
Proof. fields. Qed.

(** [strptime] reads a time of day in two digits each as that time. *)
Lemma strptime_two_digits h m :
  0 <= h <= 23 -> 0 <= m <= 59 ->
  Dt.strptime_HM (Dt.two_digits h +:+ ":" +:+ Dt.two_digits m) = Ok (Dt.of_hm h m).
Proof.
  intros Hh Hm.
  assert (Hall : forallb (fun h => forallb (fun m =>
            match Dt.strptime_HM (Dt.two_digits h +:+ ":" +:+ Dt.two_digits m) with
            | Ok t => t =? Dt.of_hm h m
            | Raise _ => false
            end) (seqZ 0 60)) (seqZ 0 24) = true) by (vm_compute; reflexivity).
  rewrite forallb_forall in Hall.
  specialize (Hall h ltac:(apply list_elem_of_In, elem_of_seqZ; lia)).
  rewrite forallb_forall in Hall.
  specialize (Hall m ltac:(apply list_elem_of_In, elem_of_seqZ; lia)).
  destruct (Dt.strptime_HM _) as [t|]; [|discriminate].
  apply Z.eqb_eq in Hall. congruence.
Qed.

(** What [strftime] shows, [strptime] reads as the same time of day. *)
Lemma strptime_strftime d :
  Dt.strptime_HM (Dt.strftime_HM d) = Ok (Dt.of_hm (Dt.hour d) (Dt.minute d)).
Proof. apply strptime_two_digits; [apply hour_range | apply minute_range]. Qed.

Lemma sequential_datetime_hour schedules d :
  sequential_datetime schedules = Ok (Some d) -> Dt.hour d <= 22.
Proof.
  unfold sequential_datetime.
  destruct (latest_end_time schedules) as [l|]; [|discriminate].
  destruct (Dt.add_minutes l 10) as [s|]; cbn; [|discriminate].
  destruct (Z.leb_spec 23 (Dt.hour s)) as [Hlate|Hearly].
  - rewrite days_1. cbn. unfold Dt.add. destruct (_ && _); [|discriminate].
    intros [= <-]. pose proof (fields_next_morning s) as [-> _]. lia.
  - intros [= <-]. lia.
Qed.

(** X4.  A time [calculate_sequential_time] returns is a start time the
    scheduler can use: hour and minute in two digits each, which
    [validate_time_format] accepts and [strptime] reads as the same time
    of day; and the hour is never 23. *)
Theorem sequential_time_is_a_start_time
    (schedules : list Schedule) (new_schedule : Schedule) (t : string) :
  calculate_sequential_time schedules new_schedule = Ok (Some t) ->
  exists h m,
    0 <= h <= 22 /\ 0 <= m <= 59
    /\ t = Dt.two_digits h +:+ ":" +:+ Dt.two_digits m
    /\ Dt.strptime_HM t = Ok (Dt.of_hm h m)
    /\ validate_time_format t = true.
Proof.
  unfold calculate_sequential_time.
  destruct (sequential_datetime schedules) as [[d|]|] eqn:E; cbn; try discriminate.
  intros [= <-]. apply sequential_datetime_hour in E.
  pose proof (hour_range d). pose proof (minute_range d).
  exists (Dt.hour d), (Dt.minute d).
  split; [lia|]. split; [lia|]. split; [reflexivity|].
  unfold validate_time_format. rewrite strptime_strftime. split; reflexivity.
Qed.

(** The theorem after a schedule at 22:30 that takes 30 minutes: the
    sequencer answers 08:00. *)
Lemma sequential_time_is_a_start_time_witness :
  exists h m,
    0 <= h <= 22 /\ 0 <= m <= 59
    /\ "08:00" = Dt.two_digits h +:+ ":" +:+ Dt.two_digits m
    /\ Dt.strptime_HM "08:00" = Ok (Dt.of_hm h m)
    /\ validate_time_format "08:00" = true.
Proof.
  apply (sequential_time_is_a_start_time [sample "a" "22:30" 30 true]
           (sample "b" "22:30" 30 true)).
  vm_compute. reflexivity.
Defined.

(* ================================================================== *)
(** * The shape and the order of the suggestions *)
(* ================================================================== *)

Section SlotsAll.
Variable P : string -> Prop.
Variable schedules : list Schedule.
Variable new_schedule : Schedule.
Hypothesis P_rounded :
  forall c m, m = 0 \/ m = 30 -> P (Dt.strftime_HM (Dt.replace_minute_second0 c m)).

Lemma before_step_all latest_start st :
  Forall P (snd st) ->
  match before_step schedules new_schedule latest_start st with
  | inl st' => Forall P (snd st')
  | inr r => all_slots P r
  end.
Proof.
  destruct st as [ct slots]. cbn [snd]. intros Hs. unfold before_step.
  destruct (_ && _); [|exact Hs].
  destruct (if Dt.minute ct <? 15 then _ else _) as [[m c]|e] eqn:Er; [|exact I].
  assert (Hm : m = 0 \/ m = 30).
  { destruct (Dt.minute ct <? 15); [injection Er as <- _; auto|].
    destruct (Dt.minute ct <? 45); [injection Er as <- _; auto|].
    destruct (Dt.add_hours ct 1); cbn in Er; [injection Er as <- _; auto | discriminate]. }
  destruct (Dt.add_minutes c 30); [|exact I]. cbn [snd].
  destruct (is_time_slot_safe _ _ _); [|exact Hs].
  apply Forall_app. split; [exact Hs|]. apply Forall_singleton, P_rounded, Hm.
Qed.

Lemma after_step_all end_of_day st :
  Forall P (snd st) ->
  match after_step schedules new_schedule end_of_day st with
  | inl st' => Forall P (snd st')
  | inr r => all_slots P r
  end.
Proof.
  destruct st as [ct slots]. cbn [snd]. intros Hs. unfold after_step.
  destruct (_ && _); [|exact Hs].
  destruct (_ || _).
  - destruct (Dt.add_minutes ct 30); [|exact I]. cbn [snd].
    destruct (is_time_slot_safe _ _ _); [|exact Hs].
    apply Forall_app. split; [exact Hs|]. apply Forall_singleton, P_rounded.
    destruct (Dt.minute ct <? 15); auto.
  - destruct (Dt.add_hours ct 1); [exact Hs | exact I].
Qed.

Lemma slot_loop_all (step : datetime * list string -> datetime * list string + result (list string))
    measure st :
  (forall s, Forall P (snd s) ->
     match step s with
     | inl s' => Forall P (snd s')
     | inr r => all_slots P r
     end) ->
  Forall P (snd st) ->
  all_slots P (run_while (while_loop step measure st)).
Proof.
  intros Hstep Hst. unfold while_loop.
  pose proof (iterate_invariant step (fun s => Forall P (snd s)) (all_slots P)
    ltac:(intros s s' Hs E; specialize (Hstep s Hs); rewrite E in Hstep; exact Hstep)
    ltac:(intros s r' Hs E; specialize (Hstep s Hs); rewrite E in Hstep; exact Hstep)
    (Z.to_nat (Z.log2_up (measure st + 1))) st Hst) as Hinv.
  destruct (iterate step _ st) as [s'|r']; [exact I | exact Hinv].
Qed.

Lemma find_slots_before_conflicts_all conflicting_schedules current_time :
  all_slots P (find_slots_before_conflicts schedules new_schedule
                 conflicting_schedules current_time).
Proof.
  unfold find_slots_before_conflicts.
  destruct conflicting_schedules as [|c cs]; [constructor|].
  destruct (earliest_conflict (c :: cs)) as [earliest|]; [|constructor].
  destruct (Dt.minutes _) as [td|]; cbn; [|exact I].
  destruct (Dt.sub earliest td) as [latest_start|]; cbn; [|exact I].
  destruct (Dt.add_minutes current_time 5) as [cpb|]; cbn; [|exact I].
  destruct (cpb <? _); [|constructor].
  apply slot_loop_all; [apply before_step_all | constructor].
Qed.

Lemma find_slots_after_conflicts_all conflicting_schedules now :
  all_slots P (find_slots_after_conflicts schedules new_schedule conflicting_schedules now).
Proof.
  unfold find_slots_after_conflicts.
  destruct conflicting_schedules as [|c cs]; [constructor|].
  destruct (latest_end (c :: cs)) as [latest|]; [|constructor].
  destruct (Dt.add_minutes latest 10) as [ea|]; cbn; [|exact I].
  apply slot_loop_all; [apply after_step_all | constructor].
Qed.

Lemma find_fallback_slots_all current_time :
  all_slots P (find_fallback_slots schedules new_schedule current_time).
Proof.
  unfold find_fallback_slots.
  destruct (Dt.add_hours current_time 1) as [t1|]; cbn; [|exact I].
  destruct (Dt.add_hours current_time 2) as [t2|]; cbn; [|exact I].
  destruct (Dt.add_hours current_time 3) as [t3|]; cbn; [|exact I].
  assert (Hslot : forall b,
    Forall P
      (if (6 <=? Dt.hour b) && (Dt.hour b <=? 22)
       then
         if is_time_slot_safe schedules
              (Dt.strftime_HM
                 (Dt.replace_minute_second0 b (if Dt.minute b <? 30 then 0 else 30)))
              new_schedule
         then [Dt.strftime_HM
                 (Dt.replace_minute_second0 b (if Dt.minute b <? 30 then 0 else 30))]
         else []
       else [])).
  { intros b. destruct (_ && _); [|constructor].
    destruct (is_time_slot_safe _ _ _); [|constructor].
    apply Forall_singleton, P_rounded. destruct (Dt.minute b <? 30); auto. }
  destruct (if 7 <? Dt.hour current_time then _ else _) as [t4|]; cbn; [|exact I].
  rewrite app_nil_r. repeat (apply Forall_app; split); apply Hslot.
Qed.

(** What holds of every rounded time holds of every suggestion. *)
Lemma get_safe_time_suggestions_all current_time now :
  all_slots P (get_safe_time_suggestions schedules new_schedule current_time now).
Proof.
  unfold get_safe_time_suggestions.
  pose proof (find_slots_before_conflicts_all
    (filter (fun existing => is_active existing = true
       ∧ check_schedule_conflicts_between new_schedule existing ≠ []) schedules)
    current_time) as Hb.
  destruct (find_slots_before_conflicts _ _ _ _) as [before_slots|]; cbn; [|exact I].
  pose proof (find_slots_after_conflicts_all
    (filter (fun existing => is_active existing = true
       ∧ check_schedule_conflicts_between new_schedule existing ≠ []) schedules)
    now) as Ha.
  destruct (find_slots_after_conflicts _ _ _ _) as [after_slots|]; cbn; [|exact I].
  cbn in Hb, Ha.
  assert (Hall : forall slots, Forall P slots ->
    Forall P (take 8 (sort_by_time_proximity (fromkeys [] slots)
                        (Dt.strftime_HM current_time)))).
  { intros slots Hs. apply Forall_take.
    rewrite sort_by_time_proximity_perm.
    rewrite Forall_forall in Hs. apply Forall_forall.
    intros t [Ht _]%fromkeys_elem. apply Hs, Ht. }
  destruct (Z.of_nat (length (before_slots ++ after_slots)) <? 3).
  - pose proof (find_fallback_slots_all current_time) as Hf.
    destruct (find_fallback_slots _ _ _) as [fallback_slots|]; cbn; [|exact I].
    apply Hall. repeat (apply Forall_app; split); assumption.
  - cbn. apply Hall. apply Forall_app; split; assumption.
Qed.
End SlotsAll.

Lemma rounded_half_hour_mark c m :
  m = 0 \/ m = 30 ->
  half_hour_mark (Dt.strftime_HM (Dt.replace_minute_second0 c m))
  /\ validate_time_format (Dt.strftime_HM (Dt.replace_minute_second0 c m)) = true.
Proof.
  intros Hm. split.
  - exists (Dt.hour (Dt.replace_minute_second0 c m)).
    split; [apply hour_range|].
    unfold Dt.strftime_HM. rewrite minute_replace_minute_second0 by lia.
    destruct Hm as [->| ->]; [left | right]; reflexivity.
  - unfold validate_time_format. rewrite strptime_strftime. reflexivity.
Qed.

(** X5.  Every time [get_safe_time_suggestions] returns is on the hour
    or on the half hour, with hour and minute in two digits, and is a
    start time [validate_time_format] accepts. *)
Theorem suggestions_are_half_hour_marks
    (schedules : list Schedule) (new_schedule : Schedule) (current_time now : datetime)
    (suggestions : list string) :
  get_safe_time_suggestions schedules new_schedule current_time now = Ok suggestions ->
  forall t, t ∈ suggestions -> half_hour_mark t /\ validate_time_format t = true.
Proof.
  intros Hget.
  pose proof (get_safe_time_suggestions_all
    (fun t => half_hour_mark t /\ validate_time_format t = true)
    schedules new_schedule rounded_half_hour_mark current_time now) as H.
  rewrite Hget in H. cbn in H. rewrite Forall_forall in H. exact H.
Qed.

(** The theorem for a candidate at 09:00 against a schedule at 09:00 for
    30 minutes, asked at 08:17, on the suggestion "10:30". *)
Lemma suggestions_are_half_hour_marks_witness :
  half_hour_mark "10:30" /\ validate_time_format "10:30" = true.
Proof.
  apply (suggestions_are_half_hour_marks [sample "a" "09:00" 30 true]
           (sample "b" "09:00" 30 true) morning morning
           ["09:30"; "10:00"; "10:30"; "11:00"]);
    [vm_compute; reflexivity | do 2 right; left].
Defined.

Lemma insert_by_ascending {A} (key : A -> Z) x l :
  ascending key l -> ascending key (insert_by key x l).
Proof.
  induction l as [|y l IH]; cbn; [intros _; split; constructor|].
  intros [Hy Hl]. destruct (Z.leb_spec (key x) (key y)) as [Hle|Hgt]; cbn.
  - split; [|split; assumption].
    constructor; [exact Hle|].
    eapply Forall_impl; [exact Hy|]. cbn. intros z Hz. lia.
  - split; [|apply IH, Hl].
    rewrite insert_by_perm. constructor; [lia | exact Hy].
Qed.

Lemma sorted_ascending {A} (key : A -> Z) l : ascending key (sorted key l).
Proof.
  induction l as [|x l IH]; cbn; [exact I|]. apply insert_by_ascending, IH.
Qed.

Lemma ascending_take {A} (key : A -> Z) n l :
  ascending key l -> ascending key (take n l).
Proof.
  revert n. induction l as [|x l IH]; intros [|n]; cbn; try (intros; exact I).
  intros [Hx Hl]. split; [apply Forall_take, Hx | apply IH, Hl].
Qed.

Lemma ascending_lookup {A} (key : A -> Z) l i j x y :
  ascending key l -> (i <= j)%nat -> l !! i = Some x -> l !! j = Some y ->
  key x <= key y.
Proof.
  revert i j. induction l as [|z l IH]; intros i j Hl Hij Hi Hj; [discriminate|].
  destruct Hl as [Hz Hl]. destruct i as [|i], j as [|j]; cbn in Hi, Hj.
  - injection Hi as <-. injection Hj as <-. lia.
  - injection Hi as <-. rewrite Forall_forall in Hz.
    apply Hz. eapply list_elem_of_lookup_2, Hj.
  - lia.
  - apply (IH i j); [exact Hl | lia | exact Hi | exact Hj].
Qed.

(** X6.  The suggestions are in the order of their distance from the
    time of day at which they were asked for, the nearest first, where a
    time that is not later than that time of day counts as 30 minutes
    farther ([time_distance], in minutes): the distances never go down
    along the list. *)
Theorem suggestions_ordered_by_proximity
    (schedules : list Schedule) (new_schedule : Schedule) (current_time now : datetime)
    (suggestions : list string) :
  get_safe_time_suggestions schedules new_schedule current_time now = Ok suggestions ->
  forall (i j : nat) (x y : string),
    (i <= j)%nat -> suggestions !! i = Some x -> suggestions !! j = Some y ->
    time_distance (Dt.of_hm (Dt.hour current_time) (Dt.minute current_time)) x
    <= time_distance (Dt.of_hm (Dt.hour current_time) (Dt.minute current_time)) y.
Proof.
  intros Hget i j x y Hij Hi Hj.
  apply (ascending_lookup _ suggestions i j); [|assumption..].
  revert Hget. unfold get_safe_time_suggestions.
  destruct (find_slots_before_conflicts _ _ _ _) as [before_slots|]; cbn; [|discriminate].
  destruct (find_slots_after_conflicts _ _ _ _) as [after_slots|]; cbn; [|discriminate].
  assert (Hall : forall slots,
    ascending (time_distance (Dt.of_hm (Dt.hour current_time) (Dt.minute current_time)))
      (take 8 (sort_by_time_proximity (fromkeys [] slots) (Dt.strftime_HM current_time)))).
  { intros slots. apply ascending_take. unfold sort_by_time_proximity.
    rewrite strptime_strftime. apply sorted_ascending. }
  destruct (Z.of_nat (length (before_slots ++ after_slots)) <? 3).
  - destruct (find_fallback_slots _ _ _) as [fallback_slots|]; cbn; [|discriminate].
    intros [= <-]. apply Hall.
  - cbn. intros [= <-]. apply Hall.
Qed.

(** The theorem for a candidate at 09:00 against a schedule at 09:00 for
    30 minutes, asked at 08:17: "09:30" comes before "11:00". *)
Lemma suggestions_ordered_by_proximity_witness :
  time_distance (Dt.of_hm (Dt.hour morning) (Dt.minute morning)) "09:30"
  <= time_distance (Dt.of_hm (Dt.hour morning) (Dt.minute morning)) "11:00".
Proof.
  apply (suggestions_ordered_by_proximity [sample "a" "09:00" 30 true]
           (sample "b" "09:00" 30 true) morning morning
           ["09:30"; "10:00"; "10:30"; "11:00"] ltac:(vm_compute; reflexivity) 0%nat 3%nat);
    [lia | reflexivity | reflexivity].
Defined.

(* ================================================================== *)
(** * Searches of the suggester that find nothing *)
(* ================================================================== *)

(** X7.  Once the clock shows 1900-01-02 or later, the search before the
    conflicts suggests nothing: the latest start it works out lies on
    1900-01-01, the date [strptime] gives a time of day, and is never
    after the clock's "now plus five minutes".  (The estimated duration
    of the candidate is taken not negative and below 900 million
    minutes.) *)
Theorem no_slots_before_conflicts
    (schedules : list Schedule) (new_schedule : Schedule)
    (conflicting_schedules : list Schedule) (current_time : datetime) :
  Dt.us_per_day <= current_time <= Dt.max - Dt.us_per_day ->
  ordinary_duration new_schedule ->
  find_slots_before_conflicts schedules new_schedule conflicting_schedules current_time
  = Ok [].
Proof.
  intros Hnow Hord. unfold find_slots_before_conflicts.
  destruct conflicting_schedules as [|c cs]; [reflexivity|].
  destruct (earliest_conflict (c :: cs)) as [earliest|] eqn:E; [|reflexivity].
  apply earliest_conflict_range in E. unfold ordinary_duration in Hord.
  unfold Dt.minutes. rewrite make_timedelta_ok by (units; lia).
  cbn. unfold Dt.sub.
  match goal with |- context [if ?b then _ else _] =>
    assert (b = true) as -> by (units; lia) end.
  cbn. rewrite add_minutes_ok by (units; lia). cbn.
  match goal with |- context [if ?b then _ else _] =>
    assert (b = false) as -> by (units; lia) end.
  reflexivity.
Qed.

(** The theorem for a candidate at 09:00 against a schedule at 09:00,
    asked at 08:17 on a morning of 2025. *)
Lemma no_slots_before_conflicts_witness :
  find_slots_before_conflicts [sample "a" "09:00" 30 true] (sample "b" "09:00" 30 true)
    [sample "a" "09:00" 30 true] morning = Ok [].
Proof.
  apply no_slots_before_conflicts; [|apply sample_ordinary].
  unfold morning, Dt.of_hm. units. lia.
Defined.

Section LoopInvariant.
Context {St R : Type}.
Variable step : St -> St + R.
Variable measure : St -> Z.

(** What an invariant of the turns gives for the value of a loop. *)
Lemma while_loop_invariant (P : St -> Prop) (Q : R -> Prop) st r :
  (forall s, P s -> match step s with inl s' => P s' | inr r => Q r end) ->
  P st -> while_loop step measure st = Some r -> Q r.
Proof.
  intros Hstep Hst. unfold while_loop.
  pose proof (iterate_invariant step P Q
    ltac:(intros s s' Hs E; specialize (Hstep s Hs); rewrite E in Hstep; exact Hstep)
    ltac:(intros s r' Hs E; specialize (Hstep s Hs); rewrite E in Hstep; exact Hstep)
    (Z.to_nat (Z.log2_up (measure st + 1))) st Hst) as Hinv.
  destruct (iterate step _ st) as [s'|r']; [discriminate|].
  intros [= <-]. exact Hinv.
Qed.
End LoopInvariant.

(** From a minute of 45 or more, a turn of the search after the
    conflicts moves on by an hour and adds nothing. *)
Lemma after_step_late schedules new_schedule end_of_day st :
  45 <= Dt.minute (fst st) /\ snd st = [] ->
  match after_step schedules new_schedule end_of_day st with
  | inl st' => 45 <= Dt.minute (fst st') /\ snd st' = []
  | inr r => forall l, r = Ok l -> l = []
  end.
Proof.
  destruct st as [ct slots]. cbn [fst snd]. intros [Hm ->]. unfold after_step.
  destruct (_ && _); [|intros l [= <-]; reflexivity].
  assert ((Dt.minute ct <? 15) || (Dt.minute ct <? 45) = false) as -> by lia.
  destruct (Dt.add_hours ct 1) as [ct'|] eqn:E; [|discriminate].
  apply add_hours_inv in E as ->. cbn [fst snd].
  rewrite minute_add_hour. auto.
Qed.

(** X8.  When the latest end among the conflicting schedules plus the
    ten minutes of buffer falls on minute 45 or later of its hour, the
    search after the conflicts suggests nothing: every turn of its loop
    moves the time on by a whole hour and goes round again without
    trying a slot.  (Clock and durations as for the suggester to
    return.) *)
Theorem no_slots_after_conflicts
    (schedules : list Schedule) (new_schedule : Schedule)
    (conflicting_schedules : list Schedule) (now e : datetime) :
  ordinary_time now ->
  Forall ordinary_duration conflicting_schedules ->
  latest_end conflicting_schedules = Some e ->
  45 <= Dt.minute (e + 10 * Dt.us_per_minute) ->
  find_slots_after_conflicts schedules new_schedule conflicting_schedules now = Ok [].
Proof.
  intros Hnow Hord He Hm.
  destruct (find_slots_after_conflicts_returns schedules new_schedule now Hnow
              conflicting_schedules Hord) as [l Hl].
  rewrite Hl. f_equal. revert Hl. unfold find_slots_after_conflicts.
  destruct conflicting_schedules as [|c cs]; [intros [= <-]; reflexivity|].
  rewrite He.
  destruct (Dt.add_minutes e 10) as [ea|] eqn:E; cbn; [|discriminate].
  apply add_minutes_inv in E as [-> _].
  destruct (while_loop _ _ _) as [r|] eqn:Ew; cbn; [|discriminate].
  intros ->.
  pose proof (while_loop_invariant _ _
           (fun st => 45 <= Dt.minute (fst st) /\ snd st = [])
           (fun r => forall l, r = Ok l -> l = [])
           (e + 10 * Dt.us_per_minute, []) _
           (after_step_late schedules new_schedule _)
           (conj Hm eq_refl) Ew) as Hq.
  apply Hq. reflexivity.
Qed.

(** The theorem after a schedule at 09:00 that takes 35 minutes, whose
    end plus the buffer is 09:45. *)
Lemma no_slots_after_conflicts_witness :
  find_slots_after_conflicts [sample "a" "09:00" 35 true] (sample "b" "09:00" 30 true)
    [sample "a" "09:00" 35 true] morning = Ok [].
Proof.
  apply (no_slots_after_conflicts _ _ _ _ (Dt.of_hm 9 35)).
  - apply morning_ordinary.
  - apply Forall_singleton. unfold ordinary_duration. cbn. lia.
  - vm_compute. reflexivity.
  - apply Z.leb_le. vm_compute. reflexivity.
Defined.

(* ================================================================== *)
(** * Managing the schedules *)
(* ================================================================== *)

Lemma select_ok {A} typed (l : list A) n x :
  Str.int (get_user_input None typed) = Some n -> 1 <= n ->
  l !! Z.to_nat (n - 1) = Some x ->
  select typed l = inr x.
Proof.
  intros Hint Hn Hx. unfold select. rewrite Hint.
  pose proof (lookup_lt_Some _ _ _ Hx) as Hlt.
  assert ((0 <=? n - 1) && (n - 1 <? Z.of_nat (length l)) = true) as -> by lia.
  rewrite Hx. reflexivity.
Qed.

Lemma select_invalid {A} typed (l : list A) :
  (forall n, Str.int (get_user_input None typed) = Some n ->
     ~ 1 <= n <= Z.of_nat (length l)) ->
  select typed l = inl InvalidInput \/ select typed l = inl InvalidSelection.
Proof.
  intros H. unfold select.
  destruct (Str.int (get_user_input None typed)) as [n|]; [|left; reflexivity].
  specialize (H n eq_refl).
  assert ((0 <=? n - 1) && (n - 1 <? Z.of_nat (length l)) = false) as -> by lia.
  right. reflexivity.
Qed.

Lemma set_is_active_twice s :
  set_is_active (negb (is_active (set_is_active (negb (is_active s)) s)))
    (set_is_active (negb (is_active s)) s) = s.
Proof. destruct s as [? ? ? ? ? ? ? ? []]; reflexivity. Qed.

(** X9.  [toggle_schedule] with the number of a schedule of the list
    turns [is_active] of that schedule round and nothing else: the other
    schedules and the keys of the dictionary stay, and [save_schedules]
    writes the store as it then is.  Given the same number again it puts
    the schedule back as it was. *)
Theorem toggle_schedule_flips_one
    (env : Env) (st : State) (typed : string) (n : Z) (a : addr) (s : Schedule) :
  Str.int (get_user_input None typed) = Some n -> 1 <= n ->
  map snd (schedules st) !! Z.to_nat (n - 1) = Some a ->
  objects st !! a = Some s ->
  exists st' : State,
    toggle_schedule env typed st = (Ok (Toggled (negb (is_active s))), st')
    /\ objects st' !! a = Some (set_is_active (negb (is_active s)) s)
    /\ (forall b, b <> a -> objects st' !! b = objects st !! b)
    /\ schedules st' = schedules st
    /\ saves st' = S (saves st)
    /\ disk st' = after_write (writes env (saves st)) (values st')
    /\ objects (snd (toggle_schedule env typed st')) = objects st.
Proof.
  intros Hint Hn Ha Hs.
  assert (Hstep : forall st0 s0, schedules st0 = schedules st ->
    objects st0 !! a = Some s0 ->
    toggle_schedule env typed st0
    = (Ok (Toggled (negb (is_active s0))),
       mkState (alter (fun s => set_is_active (negb (is_active s)) s) a (objects st0))
         (schedules st0)
         (after_write (writes env (saves st0))
            (omap (fun kv => alter (fun s => set_is_active (negb (is_active s)) s) a
                               (objects st0) !! snd kv) (schedules st0)))
         (console st0 ++ match writes env (saves st0) with
                         | Written => []
                         | WriteFailed _ => [SaveError]
                         end)
         (clock_reads st0) (runs st0) (S (saves st0)))).
  { intros st0 s0 Hsch Hs0. unfold toggle_schedule. step_M.
    rewrite <- Hsch in Ha.
    destruct (schedules st0) as [|kv l] eqn:E; [discriminate Ha|].
    rewrite (select_ok typed _ n a Hint Hn Ha). step_M.
    rewrite list_lookup_alter_eq, Hs0, E. reflexivity. }
  eexists. split; [apply (Hstep st s eq_refl Hs)|]. cbn.
  split; [rewrite list_lookup_alter_eq, Hs; reflexivity|].
  split; [intros b Hb; apply list_lookup_alter_ne; congruence|].
  do 3 (split; [reflexivity|]).
  erewrite Hstep; [|reflexivity | cbn; rewrite list_lookup_alter_eq, Hs; reflexivity].
  cbn. rewrite alter_alter. apply list_alter_id. intros x. apply set_is_active_twice.
Qed.

(** The theorem on the first of two schedules. *)
Lemma toggle_schedule_flips_one_witness :
  exists st' : State,
    toggle_schedule calm "1" busy = (Ok (Toggled false), st')
    /\ objects st' !! 1%nat = objects busy !! 1%nat
    /\ objects (snd (toggle_schedule calm "1" st')) = objects busy.
Proof.
  destruct (toggle_schedule_flips_one calm busy "1" 1 0%nat
              (set_currently_running true (sample "a" "08:00" 30 true))
              eq_refl ltac:(lia) eq_refl eq_refl)
    as (st' & Ht & _ & Hother & _ & _ & _ & Hback).
  exists st'. split; [exact Ht|]. split; [apply Hother; discriminate | exact Hback].
Defined.

(* ================================================================== *)
(** * Keys, ids and the file *)
(* ================================================================== *)

Lemma from_data_asdict s : from_data (asdict s) = s.
Proof. destruct s; reflexivity. Qed.

Lemma all_records_Some (l : list Schedule) :
  all_records (map (fun s => Some (asdict s)) l) = Some (map asdict l).
Proof. induction l as [|s l IH]; [reflexivity|]. cbn. rewrite IH. reflexivity. Qed.

(** Under keys that are ids, the values are the objects of the entries,
    one for one. *)
Lemma keyed_values_ids (objs : list Schedule) (d : list (string * addr)) :
  Forall (fun kv => exists s, objs !! snd kv = Some s /\ id s = fst kv) d ->
  map id (omap (fun kv => objs !! snd kv) d) = map fst d.
Proof.
  induction 1 as [|kv d (s & Hs & Hid) _ IH]; [reflexivity|].
  cbn. rewrite Hs. cbn. rewrite Hid, IH. reflexivity.
Qed.

(** Loading a file that holds the records of schedules with one id each
    gives those schedules, in order, each under its id. *)
Lemma load_schedules_of_records (st : State) (vs : list Schedule) :
  disk st = Records (map (fun s => Some (asdict s)) vs) ->
  NoDup (map id vs) ->
  load_schedules st
  = (Ok (), mkState (objects st ++ vs)
              (imap (fun i s => (id s, (length (objects st) + i)%nat)) vs)
              (disk st) (console st) (clock_reads st) (runs st) (saves st)).
Proof.
  intros Hdisk Hnd. unfold load_schedules. rewrite Hdisk, all_records_Some.
  destruct (load_records (map asdict vs) (objects st) []) as [objs dict] eqn:E.
  pose proof (load_records_objects (map asdict vs) (objects st) []) as Hobjs.
  pose proof (load_records_fresh (map asdict vs) (objects st) []) as Hdict.
  rewrite E in Hobjs, Hdict. cbn in Hobjs, Hdict.
  rewrite map_map in Hobjs, Hdict.
  rewrite (map_ext _ (fun s => s)), map_id in Hobjs by apply from_data_asdict.
  rewrite Hdict, Hobjs; [| exact Hnd | intros d _ Hd; one_element Hd].
  do 3 f_equal. rewrite (imap_fmap _ asdict vs). apply imap_ext. reflexivity.
Qed.

Lemma values_of_loaded (objs vs : list Schedule) :
  omap (fun kv : string * addr => (objs ++ vs) !! snd kv)
    (imap (fun i s => (id s, (length objs + i)%nat)) vs) = vs.
Proof.
  pose proof (omap_lookup_imap objs (map asdict vs) 0) as H.
  rewrite drop_0, map_map in H.
  rewrite (map_ext _ (fun s => s)), map_id in H by apply from_data_asdict.
  etrans; [|exact H]. f_equal.
  rewrite (imap_fmap _ asdict vs). apply imap_ext. intros i s _. cbn. f_equal. lia.
Qed.

Lemma imap_keys (vs : list Schedule) (n : nat) :
  map fst (imap (fun i s => (id s, (n + i)%nat)) vs) = map id vs.
Proof.
  rewrite (fmap_imap _ fst). etrans; [|apply (imap_const id)].
  apply imap_ext. reflexivity.
Qed.

Lemma keyed_loaded (objs vs : list Schedule) d c k r sv :
  NoDup (map id vs) ->
  keyed (mkState (objs ++ vs) (imap (fun i s => (id s, (length objs + i)%nat)) vs)
           d c k r sv).
Proof.
  intros Hnd. unfold keyed. cbn.
  split; [rewrite imap_keys; exact Hnd|].
  apply Forall_forall. intros [k0 a0] (i & s & [= -> ->] & Hi)%elem_of_lookup_imap.
  exists s. cbn. split; [|reflexivity].
  rewrite lookup_app_r by lia.
  replace (length objs + i - length objs)%nat with i by lia. exact Hi.
Qed.

(** X10.  A store whose keys are the ids of its schedules comes back from
    the file as it was written: after [save_schedules], when the write
    goes through, [load_schedules] gives the same schedules in the same
    order under the same keys, and the keys are the ids again. *)
Theorem save_then_load_round_trip (env : Env) (st : State) :
  keyed st -> writes env (saves st) = Written ->
  let st1 := snd (save_schedules env st) in
  let st2 := snd (load_schedules st1) in
  fst (load_schedules st1) = Ok ()
  /\ values st2 = values st
  /\ map fst (schedules st2) = map fst (schedules st)
  /\ keyed st2
  /\ disk st2 = Records (map (fun s => Some (asdict s)) (values st)).
Proof.
  intros [Hnd Hkeys] Hw st1 st2.
  assert (Hd1 : disk st1 = Records (map (fun s => Some (asdict s)) (values st)))
    by (unfold st1, save_schedules; cbn; rewrite Hw; reflexivity).
  assert (Hids : map id (values st) = map fst (schedules st))
    by apply keyed_values_ids, Hkeys.
  assert (Hnd' : NoDup (map id (values st))) by (rewrite Hids; exact Hnd).
  unfold st2. rewrite (load_schedules_of_records st1 (values st) Hd1 Hnd'). cbn.
  split; [reflexivity|]. split; [apply values_of_loaded|].
  split.
  - rewrite <- Hids. apply imap_keys.
  - split; [apply keyed_loaded, Hnd' | rewrite Hw; reflexivity].
Qed.

(** The theorem on the store of two schedules. *)
Lemma save_then_load_round_trip_witness :
  let st1 := snd (save_schedules calm busy) in
  let st2 := snd (load_schedules st1) in
  fst (load_schedules st1) = Ok ()
  /\ values st2 = values busy
  /\ map fst (schedules st2) = map fst (schedules busy)
  /\ keyed st2
  /\ disk st2 = Records (map (fun s => Some (asdict s)) (values busy)).
Proof.
  apply (save_then_load_round_trip calm busy); [|reflexivity].
  split; [repeat constructor; cbn; rewrite ?elem_of_cons; intros H; repeat (destruct H as [H|H]; [discriminate H|]); inversion H|].
  repeat constructor; eexists; split; reflexivity.
Defined.

Lemma same_ids_refl st : same_ids st st.
Proof. split; [reflexivity|]. intros a s Hs. exists s. auto. Qed.

Lemma same_ids_trans st1 st2 st3 : same_ids st1 st2 -> same_ids st2 st3 -> same_ids st1 st3.
Proof.
  intros [Hs1 Ho1] [Hs2 Ho2]. split; [congruence|].
  intros a s Hs. destruct (Ho1 a s Hs) as (s' & Hs' & Hid').
  destruct (Ho2 a s' Hs') as (s'' & Hs'' & Hid''). exists s''. split; [exact Hs''|congruence].
Qed.

Lemma keyed_same_ids st st' : same_ids st st' -> keyed st -> keyed st'.
Proof.
  intros [Hsch Hobj] [Hnd Hkeys]. unfold keyed. rewrite Hsch. split; [exact Hnd|].
  eapply Forall_impl; [exact Hkeys|]. cbn. intros kv (s & Hs & Hid).
  destruct (Hobj _ _ Hs) as (s' & Hs' & Hid'). exists s'. split; [exact Hs'|congruence].
Qed.

Lemma steady_same_objects {A} (m : M A) :
  (forall st, objects (snd (m st)) = objects st /\ schedules (snd (m st)) = schedules st) ->
  steady m.
Proof.
  intros H st. destruct (H st) as [Ho Hs]. split; [exact Hs|].
  intros a s Ha. exists s. rewrite Ho. auto.
Qed.

Lemma steady_bind {A B} (m : M A) (k : A -> M B) :
  steady m -> (forall x, steady (k x)) -> steady (m ≫= k).
Proof.
  intros Hm Hk st. unfold mbind, M_bind.
  specialize (Hm st). destruct (m st) as [[x|e] st1]; cbn in Hm |- *; [|exact Hm].
  eapply same_ids_trans; [exact Hm | apply Hk].
Qed.

Lemma steady_ret {A} (x : A) : steady (mret x).
Proof. apply steady_same_objects. intros st. split; reflexivity. Qed.

Lemma steady_update a f : (forall s, id (f s) = id s) -> steady (update a f).
Proof.
  intros Hf st. split; [reflexivity|]. cbn. intros b s Hb.
  destruct (decide (b = a)) as [->|Hne].
  - exists (f s). rewrite list_lookup_alter_eq, Hb. split; [reflexivity | apply Hf].
  - exists s. rewrite list_lookup_alter_ne by congruence. auto.
Qed.

Lemma steady_for_each {A} (body : A -> M unit) l :
  (forall x, steady (body x)) -> steady (for_each body l).
Proof.
  intros Hbody. induction l as [|x l IH]; cbn [for_each]; [apply steady_ret|].
  apply steady_bind; [apply Hbody | intros _; exact IH].
Qed.

Lemma steady_execute_schedule env a : steady (execute_schedule env a).
Proof.
  intros st. destruct (execute_schedule_state env a st) as (Ho & Hs & _).
  split; [exact Hs|]. rewrite Ho. intros b s Hb.
  destruct (decide (b = a)) as [->|Hne].
  - eexists. rewrite list_lookup_alter_eq, Hb. split; reflexivity.
  - exists s. rewrite list_lookup_alter_ne by congruence. auto.
Qed.

Lemma steady_get : steady get.
Proof. apply steady_same_objects. intros st. split; reflexivity. Qed.

Lemma steady_deref a : steady (deref a).
Proof. apply steady_same_objects. intros st. split; reflexivity. Qed.

Lemma steady_print l : steady (print l).
Proof. apply steady_same_objects. intros st. split; reflexivity. Qed.

Lemma steady_now env : steady (now env).
Proof. apply steady_same_objects. intros st. split; reflexivity. Qed.

Lemma steady_save_schedules env : steady (save_schedules env).
Proof. apply steady_same_objects. intros st. split; reflexivity. Qed.

(** Closes the steadiness of code made of the primitive steps. *)
Ltac steady_steps :=
  repeat lazymatch goal with
    | |- steady (mret _) => apply steady_ret
    | |- steady get => apply steady_get
    | |- steady (deref _) => apply steady_deref
    | |- steady (print _) => apply steady_print
    | |- steady (now _) => apply steady_now
    | |- steady (save_schedules _) => apply steady_save_schedules
    | |- steady (execute_schedule _ _) => apply steady_execute_schedule
    | |- steady (update _ _) => apply steady_update; intros []; reflexivity
    | |- steady (mbind _ _) => apply steady_bind; [|intros ?]
    | |- steady (match ?x with _ => _ end) => destruct x
    end.

Lemma steady_should_run env current_time s : steady (should_run env current_time s).
Proof.
  intros st. destruct (should_run_frame env current_time s st) as (st1 & -> & (Ho&Hs&_) & _).
  cbn. split; [exact Hs|]. intros a x Ha. exists x. rewrite Ho. auto.
Qed.

Lemma steady_visit env current_time running_schedules b :
  steady (visit env current_time running_schedules b).
Proof.
  unfold visit. apply steady_bind; [steady_steps|]. intros [s|]; [|steady_steps].
  destruct (currently_running s); [steady_steps|].
  apply steady_bind; [apply steady_should_run|]. intros [first|]; steady_steps.
Qed.

Lemma steady_ticks env n active : steady (ticks env n active).
Proof.
  induction n as [|n IH]; cbn [ticks]; [steady_steps|].
  apply steady_bind; [|intros _; exact IH].
  unfold tick. apply steady_bind; [steady_steps|]. intros t.
  apply steady_bind; [steady_steps|]. intros st0.
  apply steady_bind; [apply steady_for_each; intros b; apply steady_visit|].
  intros _. steady_steps.
Qed.

Lemma steady_toggle_schedule env typed : steady (toggle_schedule env typed).
Proof. unfold toggle_schedule. steady_steps. Qed.

Lemma steady_edit_schedule env typed new_name new_time :
  steady (edit_schedule env typed new_name new_time).
Proof. unfold edit_schedule. steady_steps. Qed.

Lemma steady_manual_schedule_run env typed confirm :
  steady (manual_schedule_run env typed confirm).
Proof.
  unfold manual_schedule_run. apply steady_bind; [steady_steps|]. intros st0.
  destruct (schedules st0); [steady_steps|].
  destruct (active_schedules st0); [steady_steps|].
  destruct (select _ _) as [r|a]; [steady_steps|].
  destruct (confirms _ _); [|steady_steps].
  intros st. pose proof (steady_execute_schedule env a st) as H.
  destruct (execute_schedule env a st) as [[]]; exact H.
Qed.

Lemma dict_set_in k v d : (k, v) ∈ dict_set k v d.
Proof.
  induction d as [|[k0 v0] d IH]; cbn; [left|].
  destruct (String.eqb k0 k); [left | right; exact IH].
Qed.

Lemma dict_set_other k v d k' v' :
  (k', v') ∈ d -> k' <> k -> (k', v') ∈ dict_set k v d.
Proof.
  intros Hin Hne. induction d as [|[k0 v0] d IH]; cbn; [inversion Hin|].
  apply elem_of_cons in Hin as [[= <- <-]|Hin].
  - destruct (String.eqb_spec k' k); [congruence | left].
  - destruct (String.eqb k0 k); right; [exact Hin | apply IH, Hin].
Qed.

Lemma dict_set_NoDup k v d : NoDup (map fst d) -> NoDup (map fst (dict_set k v d)).
Proof.
  induction d as [|[k0 v0] d IH]; cbn; [intros _; repeat constructor; inversion 1|].
  intros [Hk0 Hnd]%NoDup_cons.
  destruct (String.eqb_spec k0 k) as [->|Hne]; cbn; [constructor; assumption|].
  constructor; [|apply IH, Hnd].
  intros ([k1 v1] & -> & Hin)%list_elem_of_fmap. cbn in Hk0, Hne.
  apply dict_set_elem in Hin as [Hin|[= -> ->]]; [|congruence].
  apply Hk0. apply (list_elem_of_fmap_2 fst) in Hin. exact Hin.
Qed.

Lemma load_records_NoDup data objs dict :
  NoDup (map fst dict) -> NoDup (map fst (snd (load_records data objs dict))).
Proof.
  revert objs dict. induction data as [|d data IH]; intros objs dict Hnd; [exact Hnd|].
  cbn. apply IH, dict_set_NoDup, Hnd.
Qed.

(** Whatever the file, the store [load_schedules] leaves has the ids of
    the schedules for keys. *)
Lemma keyed_load_schedules st : keyed st -> keyed (snd (load_schedules st)).
Proof.
  intros Hk. unfold load_schedules.
  assert (Hempty : forall objs d c k r sv, keyed (mkState objs [] d c k r sv))
    by (intros; split; constructor).
  destruct (disk st) as [| |data]; [exact Hk | apply Hempty|].
  destruct (all_records data) as [records|]; [|apply Hempty].
  destruct (load_records records (objects st) []) as [objs dict] eqn:E.
  pose proof (load_records_objects records (objects st) []) as Hobjs.
  pose proof (load_records_NoDup records (objects st) [] ltac:(constructor)) as Hnd.
  pose proof (load_records_entries records (objects st) []) as Hent.
  rewrite E in Hobjs, Hnd, Hent. cbn in Hobjs, Hnd, Hent. subst objs.
  split; [exact Hnd|]. cbn. apply Forall_forall. intros [k a] Hin.
  destruct (Hent k a Hin) as [H|(i & d & Hi & -> & ->)]; [inversion H|].
  exists (from_data d). cbn. split; [|reflexivity].
  rewrite lookup_app_r by lia.
  replace (length (objects st) + i - length (objects st))%nat with i by lia.
  rewrite list_lookup_fmap, Hi. reflexivity.
Qed.

Lemma keys_filter_NoDup (P : string * addr -> Prop) `{!forall kv, Decision (P kv)}
    (d : list (string * addr)) :
  NoDup (map fst d) -> NoDup (map fst (filter P d)).
Proof.
  induction d as [|kv d IH]; [intros _; constructor|].
  intros Hnd. change (map fst (kv :: d)) with (fst kv :: map fst d) in Hnd.
  apply NoDup_cons in Hnd as [Hkv Hnd]. rewrite filter_cons.
  destruct (decide (P kv)); [|apply IH, Hnd].
  change (NoDup (fst kv :: map fst (filter P d))). constructor; [|apply IH, Hnd].
  intros (kv' & Hfst & [_ Hin]%list_elem_of_filter)%list_elem_of_fmap.
  apply Hkv. rewrite Hfst. apply (list_elem_of_fmap_2 fst), Hin.
Qed.

Lemma keyed_delete_schedule env typed confirm st :
  keyed st -> keyed (snd (delete_schedule env typed confirm st)).
Proof.
  intros Hk. unfold delete_schedule. step_M.
  destruct (schedules st) as [|kv0 l] eqn:E; [exact Hk|].
  destruct (select typed (kv0 :: l)) as [r|[k a]]; [exact Hk|].
  match goal with |- context [if ?b then _ else _] => destruct b end; [|exact Hk].
  step_M. destruct Hk as [Hnd Hkeys].
  split; cbn; [apply keys_filter_NoDup, Hnd|].
  unfold dict_del. apply Forall_forall. intros kv [_ Hin]%list_elem_of_filter.
  rewrite Forall_forall in Hkeys. apply Hkeys, Hin.
Qed.

(** ** Imported ids *)

Lemma append_inj_l a x y : a +:+ x = a +:+ y -> x = y.
Proof.
  induction a as [|c a IH]; [auto|]. rewrite !append_cons. intros [= H]. apply IH, H.
Qed.

(** Digits end at the first underscore. *)
Lemma digits_underscore_inj a a' b b' :
  all_digits a = true -> all_digits a' = true ->
  a +:+ String "_" b = a' +:+ String "_" b' -> a = a' /\ b = b'.
Proof.
  revert a'. induction a as [|c a IH]; intros [|c' a'] Ha Ha'; rewrite ?append_cons.
  - intros [= ->]. auto.
  - change ("" +:+ String "_" b) with (String "_" b). intros [= <- _].
    apply all_digits_cons in Ha' as [Hc _]. discriminate Hc.
  - change ("" +:+ String "_" b') with (String "_" b'). intros [= -> _].
    apply all_digits_cons in Ha as [Hc _]. discriminate Hc.
  - intros [= -> H].
    apply all_digits_cons in Ha as [_ Ha]. apply all_digits_cons in Ha' as [_ Ha'].
    destruct (IH a' Ha Ha' H) as [-> ->]. auto.
Qed.

(** An [int] is shown by its digits, after a minus sign when it is
    negative. *)
Lemma str_of_int_shape n :
  exists ds, all_digits ds = true
    /\ (str_of_int n = ds \/ str_of_int n = String "-" ds).
Proof.
  destruct (Z.ltb_spec n 0) as [Hneg|Hpos].
  - unfold str_of_int. assert ((n <? 0) = true) as -> by lia.
    destruct (digits_of_spec (Z.to_nat (Z.log2 (- n))) (- n)) as (ds & Hds & Hall & _).
    { rewrite Z2Nat.id by apply Z.log2_nonneg.
      pose proof (Z.log2_spec (- n) ltac:(lia)) as Hl.
      replace (Z.log2 (- n) + 1) with (Z.succ (Z.log2 (- n))) by lia. lia. }
    exists ds. split; [exact Hall|]. right. rewrite Hds, append_empty_r. reflexivity.
  - destruct (str_of_int_digits n Hpos) as (Hall & _). eauto.
Qed.

Lemma imported_id_inj t i t' j : imported_id t i = imported_id t' j -> i = j.
Proof.
  unfold imported_id. intros H%append_inj_l.
  assert (Hij : str_of_int (Z.of_nat i) = str_of_int (Z.of_nat j)).
  { destruct (str_of_int_shape t) as (ds & Hds & [E|E]),
             (str_of_int_shape t') as (ds' & Hds' & [E'|E']);
      rewrite E, E' in H; rewrite ?append_cons in H.
    - apply (digits_underscore_inj _ _ _ _ Hds Hds') in H as [_ H]. exact H.
    - destruct ds as [|c ds]; rewrite ?append_cons in H;
        [discriminate H | injection H as -> _].
      apply all_digits_cons in Hds as [Hc _]. discriminate Hc.
    - destruct ds' as [|c ds']; rewrite ?append_cons in H;
        [discriminate H | injection H as <- _].
      apply all_digits_cons in Hds' as [Hc _]. discriminate Hc.
    - injection H as H.
      apply (digits_underscore_inj _ _ _ _ Hds Hds') in H as [_ H]. exact H. }
  destruct (str_of_int_digits (Z.of_nat i) ltac:(lia)) as (_ & _ & Hi).
  destruct (str_of_int_digits (Z.of_nat j) ltac:(lia)) as (_ & _ & Hj).
  rewrite Hij in Hi. lia.
Qed.

(** The loop of [import_schedules] over the items that build a
    schedule. *)
Lemma import_items_spec stamp good tail c st :
  exists st1,
    import_items stamp (map Some good ++ tail) c st
    = import_items stamp tail (c + length good) st1
    /\ objects st1
       = objects st ++ imap (fun i d => set_id (imported_id (stamp (c + i)%nat) (c + i))
                                          (from_data d)) good
    /\ disk st1 = disk st /\ saves st1 = saves st /\ console st1 = console st
    /\ (forall kv, kv ∈ schedules st1 ->
          kv ∈ schedules st
          \/ exists i d, good !! i = Some d
               /\ kv = (imported_id (stamp (c + i)%nat) (c + i),
                        (length (objects st) + i)%nat))
    /\ (forall i d, good !! i = Some d ->
          (imported_id (stamp (c + i)%nat) (c + i), (length (objects st) + i)%nat)
          ∈ schedules st1)
    /\ (forall kv, kv ∈ schedules st ->
          (forall i, (i < length good)%nat ->
             fst kv <> imported_id (stamp (c + i)%nat) (c + i)) ->
          kv ∈ schedules st1)
    /\ (NoDup (map fst (schedules st)) -> NoDup (map fst (schedules st1))).
Proof.
  revert c st. induction good as [|d good IH]; intros c st.
  - exists st. cbn. rewrite Nat.add_0_r, app_nil_r.
    repeat split; auto. intros i d H. discriminate H.
  - pose (st0 := mkState
        (objects st ++ [set_id (imported_id (stamp c) c) (from_data d)])
        (dict_set (imported_id (stamp c) c) (length (objects st)) (schedules st))
        (disk st) (console st) (clock_reads st) (runs st) (saves st)).
    assert (Hstep : import_items stamp (map Some (d :: good) ++ tail) c st
                    = import_items stamp (map Some good ++ tail) (S c) st0)
      by reflexivity.
    destruct (IH (S c) st0)
      as (st1 & Hrun & Hobj & Hdisk & Hsaves & Hcons & Hfrom & Hin & Hkeep & Hnd).
    cbn in Hobj, Hdisk, Hsaves, Hcons, Hfrom, Hin, Hkeep, Hnd.
    exists st1. split.
    { rewrite Hstep, Hrun. replace (c + length (d :: good))%nat
        with (S c + length good)%nat by (cbn; lia). reflexivity. }
    split.
    { rewrite Hobj, <- app_assoc. cbn. rewrite Nat.add_0_r. do 2 f_equal.
      apply imap_ext. intros i x _. cbn. do 2 f_equal; f_equal; lia. }
    do 3 (split; [assumption|]).
    split; [|split; [|split]].
    + intros kv Hkv. destruct (Hfrom kv Hkv) as [H|(i & x & Hi & ->)].
      * destruct kv as [k0 a0]. apply dict_set_elem in H as [H | ->]; [left; exact H|].
        right. exists 0%nat, d. rewrite !Nat.add_0_r. auto.
      * right. exists (S i), x. split; [exact Hi|].
        replace (S (c + i)) with (c + S i)%nat by lia.
        rewrite length_app. cbn [length]. f_equal. lia.
    + intros [|i] x Hi.
      * injection Hi as <-. rewrite !Nat.add_0_r. apply Hkeep; [apply dict_set_in|].
        intros i _ H. cbn in H. apply imported_id_inj in H. lia.
      * specialize (Hin i x Hi). rewrite length_app in Hin. cbn [length] in Hin.
        replace (c + S i)%nat with (S (c + i)) by lia.
        replace (length (objects st) + S i)%nat with (length (objects st) + 1 + i)%nat by lia.
        exact Hin.
    + intros kv Hkv Hfresh. apply Hkeep.
      * destruct kv as [k a]. apply dict_set_other; [exact Hkv|].
        specialize (Hfresh 0%nat ltac:(cbn; lia)). rewrite Nat.add_0_r in Hfresh.
        exact Hfresh.
      * intros i Hi. replace (S (c + i)) with (c + S i)%nat by lia.
        apply Hfresh. cbn. lia.
    + intros H. apply Hnd, dict_set_NoDup, H.
Qed.

(** The items of a file up to the first that builds no schedule. *)
Lemma items_prefix (data : list (option schedule_data)) :
  exists good tail, data = map Some good ++ tail
    /\ (tail = [] \/ exists rest, tail = None :: rest).
Proof.
  induction data as [|[d|] data IH].
  - exists [], []. auto.
  - destruct IH as (good & tail & -> & Htail). exists (d :: good), tail. auto.
  - exists [], (None :: data). split; [reflexivity|]. right. eauto.
Qed.

Lemma keyed_after_items stamp good c st st1 :
  objects st1
  = objects st ++ imap (fun i d => set_id (imported_id (stamp (c + i)%nat) (c + i))
                                     (from_data d)) good ->
  (forall kv, kv ∈ schedules st1 ->
     kv ∈ schedules st
     \/ exists i d, good !! i = Some d
          /\ kv = (imported_id (stamp (c + i)%nat) (c + i),
                   (length (objects st) + i)%nat)) ->
  (NoDup (map fst (schedules st)) -> NoDup (map fst (schedules st1))) ->
  keyed st -> keyed st1.
Proof.
  intros Hobj Hfrom Hnd [Hnd0 Hkeys]. split; [apply Hnd, Hnd0|].
  apply Forall_forall. intros kv Hkv. rewrite Hobj.
  destruct (Hfrom kv Hkv) as [H|(i & d & Hi & ->)].
  - rewrite Forall_forall in Hkeys. destruct (Hkeys kv H) as (s & Hs & Hid).
    exists s. split; [|exact Hid]. apply lookup_app_l_Some, Hs.
  - exists (set_id (imported_id (stamp (c + i)%nat) (c + i)) (from_data d)).
    cbn [fst snd]. split; [|reflexivity].
    rewrite lookup_app_r by lia.
    replace (length (objects st) + i - length (objects st))%nat with i by lia.
    rewrite list_lookup_imap, Hi. reflexivity.
Qed.

Lemma keyed_save_schedules env st : keyed st -> keyed (snd (save_schedules env st)).
Proof. intros H. exact H. Qed.

Lemma keyed_import_schedules env source stamp st :
  keyed st -> keyed (snd (import_schedules env source stamp st)).
Proof.
  intros Hk. destruct source as [| |data]; [exact Hk..|].
  unfold import_schedules.
  destruct (items_prefix data) as (good & tail & -> & Htail).
  destruct (import_items_spec stamp good tail 0 st)
    as (st1 & Hrun & Hobj & _ & _ & _ & Hfrom & _ & _ & Hnd).
  pose proof (keyed_after_items stamp good 0 st st1 Hobj Hfrom Hnd Hk) as Hk1.
  unfold mbind at 1, M_bind at 1. rewrite Hrun.
  destruct Htail as [->|[rest ->]]; cbn; exact Hk1.
Qed.

(** X11.  [import_schedules] on a file whose items all build a schedule
    adds every one of them as a new object, under a new id
    [imported_<second>_<number>] that is also its key, whatever the
    stamps of the clock; it reports their number and calls
    [save_schedules] on the store as it then is. *)
Theorem import_schedules_adds_every_item
    (env : Env) (st : State) (records : list schedule_data) (stamp : nat -> Z) :
  let st' := snd (import_schedules env (Items (map Some records)) stamp st) in
  fst (import_schedules env (Items (map Some records)) stamp st)
  = Ok (Imported (length records))
  /\ objects st'
     = objects st ++ imap (fun i d => set_id (imported_id (stamp i) i) (from_data d)) records
  /\ (forall i d, records !! i = Some d ->
        (imported_id (stamp i) i, (length (objects st) + i)%nat) ∈ schedules st')
  /\ saves st' = S (saves st)
  /\ disk st' = after_write (writes env (saves st)) (values st').
Proof.
  destruct (import_items_spec stamp records [] 0 st)
    as (st1 & Hrun & Hobj & Hdisk & Hsaves & _ & _ & Hin & _ & _).
  rewrite app_nil_r in Hrun. cbn in Hrun, Hobj, Hin.
  cbv zeta. unfold import_schedules, mbind, M_bind. rewrite Hrun. step_M.
  split; [reflexivity|]. split; [exact Hobj|]. split; [exact Hin|].
  split; [congruence|]. rewrite Hsaves. reflexivity.
Qed.

(** X12.  [import_schedules] is not all or nothing: when an item of the
    file builds no schedule, the import fails and the file is not
    written, yet the items before it have been added to the store in
    memory, each under its new id. *)
Theorem import_schedules_keeps_the_items_before_a_bad_one
    (env : Env) (st : State) (good : list schedule_data)
    (rest : list (option schedule_data)) (stamp : nat -> Z) :
  let source := Items (map Some good ++ None :: rest) in
  let st' := snd (import_schedules env source stamp st) in
  fst (import_schedules env source stamp st) = Ok ImportFailed
  /\ disk st' = disk st
  /\ saves st' = saves st
  /\ objects st'
     = objects st ++ imap (fun i d => set_id (imported_id (stamp i) i) (from_data d)) good
  /\ (forall i d, good !! i = Some d ->
        (imported_id (stamp i) i, (length (objects st) + i)%nat) ∈ schedules st').
Proof.
  destruct (import_items_spec stamp good (None :: rest) 0 st)
    as (st1 & Hrun & Hobj & Hdisk & Hsaves & _ & _ & Hin & _ & _).
  cbn in Hrun, Hobj, Hin.
  cbv zeta. unfold import_schedules, mbind, M_bind. rewrite Hrun. cbn.
  auto.
Qed.

(* ================================================================== *)
(** * Deleting and editing *)
(* ================================================================== *)

Lemma filter_key_fresh (d : list (string * addr)) k :
  k ∉ map fst d -> filter (fun kv => fst kv <> k) d = d.
Proof.
  induction d as [|kv d IH]; [reflexivity|].
  change (map fst (kv :: d)) with (fst kv :: map fst d).
  intros [Hne Hk]%not_elem_of_cons. rewrite filter_cons.
  destruct (decide (fst kv <> k)) as [_|H]; [|destruct H; congruence].
  f_equal. apply IH, Hk.
Qed.

Lemma filter_key_delete (d : list (string * addr)) i k a :
  NoDup (map fst d) -> d !! i = Some (k, a) ->
  filter (fun kv => fst kv <> k) d = delete i d.
Proof.
  revert i. induction d as [|kv d IH]; intros i Hnd Hi; [discriminate Hi|].
  change (map fst (kv :: d)) with (fst kv :: map fst d) in Hnd.
  apply NoDup_cons in Hnd as [Hkv Hnd]. rewrite filter_cons.
  destruct i as [|i]; cbn in Hi |- *.
  - injection Hi as ->. cbn. destruct (decide (k <> k)) as [H|_]; [congruence|].
    apply filter_key_fresh, Hkv.
  - destruct (decide (fst kv <> k)) as [_|H].
    + f_equal. apply IH; assumption.
    + exfalso. apply Hkv. apply dec_stable in H. rewrite H.
      apply list_elem_of_lookup_2, (list_elem_of_fmap_2 fst) in Hi. exact Hi.
Qed.

(** X13.  [delete_schedule] with the number of a schedule of the list
    asks for confirmation: unless the answer is "y" (in either case,
    spaces around it aside) nothing changes; with it, exactly the chosen
    entry leaves the dictionary, the others stay in their order,
    [save_schedules] writes the store as it then is, and when the write
    goes through, the store loaded at the next start has the same
    schedules and no key of the deleted one.  (The keys of the store are
    the ids of its schedules.) *)
Theorem delete_schedule_removes_one
    (env : Env) (st : State) (typed confirm : string) (n : Z) (k : string) (a : addr) :
  keyed st ->
  Str.int (get_user_input None typed) = Some n -> 1 <= n ->
  schedules st !! Z.to_nat (n - 1) = Some (k, a) ->
  (confirms "n" confirm = false ->
   delete_schedule env typed confirm st = (Ok NotConfirmed, st))
  /\ (confirms "n" confirm = true ->
      exists st' : State,
        delete_schedule env typed confirm st = (Ok Deleted, st')
        /\ objects st' = objects st
        /\ schedules st' = delete (Z.to_nat (n - 1)) (schedules st)
        /\ (k ∉ map fst (schedules st'))
        /\ saves st' = S (saves st)
        /\ disk st' = after_write (writes env (saves st)) (values st')
        /\ (writes env (saves st) = Written ->
            values (snd (load_schedules st')) = values st'
            /\ k ∉ map fst (schedules (snd (load_schedules st'))))).
Proof.
  intros Hk Hint Hn Hsel.
  assert (Hrun : delete_schedule env typed confirm st
                 = if confirms "n" confirm
                   then (del_schedule k;; save_schedules env;; mret Deleted) st
                   else (Ok NotConfirmed, st)).
  { unfold delete_schedule. unfold mbind at 1, M_bind at 1, get at 1.
    rewrite (select_ok typed _ n (k, a) Hint Hn Hsel).
    destruct (schedules st); [discriminate Hsel|].
    destruct (confirms "n" confirm); reflexivity. }
  split; intros Hc; rewrite Hrun, Hc; [reflexivity|].
  pose proof (keyed_delete_schedule env typed confirm st Hk) as Hk'.
  rewrite Hrun, Hc in Hk'.
  destruct Hk as [Hnd Hkeys].
  assert (Hgone : k ∉ map fst (dict_del k (schedules st))).
  { intros ([k' a'] & Hfst & [Hne _]%list_elem_of_filter)%list_elem_of_fmap.
    cbn in Hfst, Hne. congruence. }
  eexists. split; [reflexivity|]. cbn.
  split; [reflexivity|].
  split; [apply filter_key_delete with (a := a); assumption|].
  split; [exact Hgone|]. do 2 (split; [reflexivity|]).
  intros Hw. cbn in Hk'. destruct Hk' as [Hnd' Hkeys'].
  match goal with |- context [load_schedules ?s] => set (st' := s) in * end.
  assert (Hids : map id (values st') = map fst (schedules st'))
    by apply keyed_values_ids, Hkeys'.
  assert (Hd : disk st' = Records (map (fun s => Some (asdict s)) (values st')))
    by (unfold st'; cbn; rewrite Hw; reflexivity).
  rewrite (load_schedules_of_records st' (values st') Hd)
    by (rewrite Hids; exact Hnd').
  cbn [snd]. split; [apply values_of_loaded|].
  cbn [schedules]. rewrite imap_keys, Hids. exact Hgone.
Qed.

(** The theorem on the second of two schedules. *)
Lemma delete_schedule_removes_one_witness :
  delete_schedule calm "2" "no" busy = (Ok NotConfirmed, busy)
  /\ exists st' : State,
       delete_schedule calm "2" " Y " busy = (Ok Deleted, st')
       /\ schedules st' = [("a", 0%nat)]
       /\ values (snd (load_schedules st')) = values st'.
Proof.
  assert (Hk : keyed busy).
  { split; [|repeat constructor; eexists; split; reflexivity].
    repeat constructor; cbn; rewrite ?elem_of_cons; intros H;
      repeat (destruct H as [H|H]; [discriminate H|]); inversion H. }
  split.
  - apply (delete_schedule_removes_one calm busy "2" "no" 2 "b" 1%nat Hk
             eq_refl ltac:(lia) eq_refl). reflexivity.
  - destruct (delete_schedule_removes_one calm busy "2" " Y " 2 "b" 1%nat Hk
                eq_refl ltac:(lia) eq_refl) as [_ H].
    destruct (H eq_refl) as (st' & Hdel & _ & Hsch & _ & _ & _ & Hload).
    exists st'. split; [exact Hdel|]. split; [exact Hsch|].
    apply Hload. reflexivity.
Defined.

(** What [edit_schedule] does to the objects: one of them, at most, gets
    a new name and a new start time, and a new start time is one that
    [validate_time_format] accepts. *)
Lemma edit_schedule_objects env st typed new_name new_time st' :
  st' = snd (edit_schedule env typed new_name new_time st) ->
  exists (a0 : addr) (f : Schedule -> Schedule),
    objects st' = alter f a0 (objects st)
    /\ schedules st' = schedules st
    /\ forall s, f s = set_start_time (start_time (f s)) (set_name (name (f s)) s)
                 /\ (start_time (f s) = start_time s
                     \/ validate_time_format (start_time (f s)) = true).
Proof.
  assert (Hid : forall s : Schedule,
            s = set_start_time (start_time s) (set_name (name s) s)
            /\ (start_time s = start_time s \/ validate_time_format (start_time s) = true))
    by (intros []; split; [reflexivity | left; reflexivity]).
  assert (Hsame : st' = st ->
    exists (a0 : addr) (f : Schedule -> Schedule),
      objects st' = alter f a0 (objects st)
      /\ schedules st' = schedules st
      /\ forall s, f s = set_start_time (start_time (f s)) (set_name (name (f s)) s)
                   /\ (start_time (f s) = start_time s
                       \/ validate_time_format (start_time (f s)) = true)).
  { intros ->. exists 0%nat, (fun s => s).
    split; [symmetry; apply list_alter_id; reflexivity|]. split; [reflexivity | exact Hid]. }
  unfold edit_schedule. unfold mbind at 1, M_bind at 1, get at 1.
  destruct (schedules st) as [|kv l] eqn:E; [exact Hsame|].
  destruct (select typed (map snd (kv :: l))) as [r|a]; [exact Hsame|].
  clear Hsame. unfold mbind at 1, M_bind at 1, deref at 1. cbv beta iota zeta.
  generalize (get_user_input (Some (from_option name "" (objects st !! a))) new_name).
  generalize (get_user_input (Some (from_option start_time "" (objects st !! a))) new_time).
  intros tm nm.
  destruct (negb (String.eqb nm _)); step_M;
    (destruct (validate_time_format tm) eqn:Ev; step_M; intros ->; cbn;
     rewrite ?alter_alter, ?E).
  - exists a, (fun s => set_start_time tm (set_name nm s)).
    split; [reflexivity|]. split; [reflexivity|]. intros []. cbn. auto.
  - exists a, (set_name nm).
    split; [reflexivity|]. split; [reflexivity|]. intros []. cbn. auto.
  - exists a, (set_start_time tm).
    split; [reflexivity|]. split; [reflexivity|]. intros []. cbn. auto.
  - exists a, (fun s => s). split; [symmetry; apply list_alter_id; reflexivity|].
    split; [reflexivity | exact Hid].
Qed.

(** X14.  [edit_schedule] changes at most the name and the start time of
    one schedule; no key and nothing else of any schedule changes, and a
    start time that changed is one [validate_time_format] accepts: when
    all start times of the store were accepted before, they are after. *)
Theorem edit_schedule_keeps_start_times_valid
    (env : Env) (st : State) (typed new_name new_time : string) :
  let st' := snd (edit_schedule env typed new_name new_time st) in
  schedules st' = schedules st
  /\ (forall a s, objects st !! a = Some s ->
        exists s', objects st' !! a = Some s'
          /\ s' = set_start_time (start_time s') (set_name (name s') s)
          /\ (start_time s' = start_time s
              \/ validate_time_format (start_time s') = true))
  /\ ((forall a s, objects st !! a = Some s ->
         validate_time_format (start_time s) = true) ->
      forall a s', objects st' !! a = Some s' ->
        validate_time_format (start_time s') = true).
Proof.
  cbv zeta.
  destruct (edit_schedule_objects env st typed new_name new_time _ eq_refl)
    as (a0 & f & -> & -> & Hf).
  split; [reflexivity|]. split.
  - intros a s Hs. destruct (decide (a = a0)) as [->|Hne].
    + exists (f s). rewrite list_lookup_alter_eq, Hs. split; [reflexivity | apply Hf].
    + exists s. rewrite list_lookup_alter_ne by congruence.
      split; [exact Hs|]. destruct s. split; [reflexivity | left; reflexivity].
  - intros Hvalid a s'. destruct (decide (a = a0)) as [->|Hne].
    + rewrite list_lookup_alter_eq.
      destruct (objects st !! a0) as [s|] eqn:Hs; [|discriminate].
      intros [= <-]. destruct (Hf s) as [_ [H|H]]; [|exact H].
      rewrite H. apply (Hvalid a0 s Hs).
    + rewrite list_lookup_alter_ne by congruence. apply Hvalid.
Qed.

(** The theorem on the store of two schedules: the second gets a new
    start time, and a new start time that is no time is not taken. *)
Lemma edit_schedule_keeps_start_times_valid_witness :
  (forall a s', objects (snd (edit_schedule calm "2" "" "18:45" busy)) !! a = Some s' ->
     validate_time_format (start_time s') = true)
  /\ (forall a s', objects (snd (edit_schedule calm "2" "" "25:00" busy)) !! a = Some s' ->
        validate_time_format (start_time s') = true).
Proof.
  assert (Hbusy : forall a s, objects busy !! a = Some s ->
                    validate_time_format (start_time s) = true).
  { intros [|[|a]] s; cbn; intros [= <-]; reflexivity. }
  split.
  - apply (edit_schedule_keeps_start_times_valid calm busy "2" "" "18:45"). exact Hbusy.
  - apply (edit_schedule_keeps_start_times_valid calm busy "2" "" "25:00"). exact Hbusy.
Defined.

(** X15.  The keys of the dictionary stay the ids of the schedules they
    lead to, each key there once: a store of which this holds still has
    it after [load_schedules] (whatever the file holds),
    [save_schedules], [toggle_schedule], [delete_schedule],
    [edit_schedule], [import_schedules], [execute_schedule],
    [manual_schedule_run] and any number of turns of the scheduler loop,
    whatever the operator enters and however the runs end. *)
Theorem keys_stay_ids (env : Env) (st : State) :
  keyed st ->
  keyed (snd (load_schedules st))
  /\ keyed (snd (save_schedules env st))
  /\ (forall typed, keyed (snd (toggle_schedule env typed st)))
  /\ (forall typed confirm, keyed (snd (delete_schedule env typed confirm st)))
  /\ (forall typed new_name new_time,
        keyed (snd (edit_schedule env typed new_name new_time st)))
  /\ (forall source stamp, keyed (snd (import_schedules env source stamp st)))
  /\ (forall schedule, keyed (snd (execute_schedule env schedule st)))
  /\ (forall typed confirm, keyed (snd (manual_schedule_run env typed confirm st)))
  /\ (forall n active, keyed (snd (ticks env n active st))).
Proof.
  intros Hk.
  split; [apply keyed_load_schedules, Hk|].
  split; [apply keyed_save_schedules, Hk|].
  split; [intros; eapply keyed_same_ids; [apply steady_toggle_schedule | exact Hk]|].
  split; [intros; apply keyed_delete_schedule, Hk|].
  split; [intros; eapply keyed_same_ids; [apply steady_edit_schedule | exact Hk]|].
  split; [intros; apply keyed_import_schedules, Hk|].
  split; [intros; eapply keyed_same_ids; [apply steady_execute_schedule | exact Hk]|].
  split; [intros; eapply keyed_same_ids; [apply steady_manual_schedule_run | exact Hk]|].
  intros; eapply keyed_same_ids; [apply steady_ticks | exact Hk].
Qed.

(** The theorem on a scraper that has just been made, with no schedule
    yet: the store it loads from a file with one record has the id for
    key. *)
Lemma keys_stay_ids_witness :
  keyed (snd (load_schedules (fresh (Records [Some (asdict stale)])))).
Proof.
  exact (proj1 (keys_stay_ids calm (fresh (Records [Some (asdict stale)]))
                  (conj (NoDup_nil_2 (A:=string)) (Forall_nil_2 _)))).
Defined.

(* ================================================================== *)
(** * The runs of a schedule *)
(* ================================================================== *)








(** The loop over the search terms up to the run that is interrupted. *)
Lemma run_terms_interrupted env terms limit skip n st i :
  (i < length terms)%nat ->
  (forall j, (j < i)%nat -> runner env (runs st + j) <> Interrupted) ->
  runner env (runs st + i) = Interrupted ->
  exists st' out,
    run_terms env terms limit skip n st = (Raise KeyboardInterrupt, st')
    /\ runs st' = (runs st + i + 1)%nat
    /\ console st' = console st ++ out /\ Forall run_line out.
Proof.
  revert n st i. induction terms as [|term terms IH]; intros n st i Hi Hbefore Hint;
    [cbn in Hi; lia|].
  cbn [run_terms]. step_M. destruct i as [|i].
  - rewrite Nat.add_0_r in Hint. rewrite Hint. step_M.
    eexists _, [_]. split; [reflexivity|]. cbn. split; [lia|].
    split; [reflexivity|]. repeat constructor.
  - pose proof (Hbefore 0%nat ltac:(lia)) as H0. rewrite Nat.add_0_r in H0.
    assert (Hrest : forall st1, runs st1 = S (runs st) ->
              (forall j, (j < i)%nat -> runner env (runs st1 + j) <> Interrupted)
              /\ runner env (runs st1 + i) = Interrupted).
    { intros st1 E. rewrite E. split.
      - intros j Hj. replace (S (runs st) + j)%nat with (runs st + S j)%nat by lia.
        apply Hbefore. lia.
      - replace (S (runs st) + i)%nat with (runs st + S i)%nat by lia. exact Hint. }
    cbn in Hi.
    destruct (runner env (runs st)) as [code| |] eqn:Er; [| |congruence].
    + destruct (code =? 0); step_M;
        match goal with |- context [run_terms env terms limit skip ?m ?s] =>
          destruct (Hrest s eq_refl) as [Hb Hx];
          destruct (IH m s i ltac:(lia) Hb Hx) as (st' & out & -> & Hr & Hc & Ho) end;
        cbn in Hr, Hc; eexists st', (_ :: _ :: out);
        (split; [reflexivity|]); (split; [lia|]);
        (split; [rewrite Hc, <- !app_assoc; reflexivity|]);
        repeat (constructor; [exact I|]); exact Ho.
    + step_M.
      match goal with |- context [run_terms env terms limit skip ?m ?s] =>
        destruct (Hrest s eq_refl) as [Hb Hx];
        destruct (IH m s i ltac:(lia) Hb Hx) as (st' & out & -> & Hr & Hc & Ho) end.
      cbn in Hr, Hc. eexists st', (_ :: _ :: out).
      split; [reflexivity|]. split; [lia|].
      split; [rewrite Hc, <- !app_assoc; reflexivity|].
      repeat (constructor; [exact I|]). exact Ho.
Qed.




(** The run that is interrupted is the last, and the interrupt leaves
    [execute_schedule]. *)
Lemma execute_schedule_interrupted
    (env : Env) (st : State) (a : addr) (s : Schedule) (i : nat) :
  objects st !! a = Some s ->
  (i < length (search_terms s))%nat ->
  (forall j, (j < i)%nat -> runner env (runs st + j) <> Interrupted) ->
  runner env (runs st + i) = Interrupted ->
  let st' := snd (execute_schedule env a st) in
  fst (execute_schedule env a st) = Raise KeyboardInterrupt
  /\ runs st' = (runs st + i + 1)%nat
  /\ exists out, console st' = console st ++ out /\ Forall run_line out.
Proof.
  intros Hs Hi Hbefore Hint. cbv zeta.
  unfold execute_schedule. step_M. rewrite list_lookup_alter_eq, Hs. cbn.
  unfold finally.
  match goal with |- context [run_terms env ?ts ?l ?k ?n ?s0] =>
    destruct (run_terms_interrupted env ts l k n s0 i Hi Hbefore Hint)
      as (st1 & out & Hterms & Hr & Hc & Hout)
  end.
  rewrite Hterms. cbn in Hr, Hc. unfold finish_run. step_M.
  split; [reflexivity|]. split; [exact Hr|].
  rewrite Hc.
  destruct (writes env (saves st)), (writes env (saves st1));
    rewrite <- ?app_assoc, ?app_nil_r; eexists; (split; [reflexivity|]);
    cbn; repeat (apply Forall_cons; split; [exact I|]);
    rewrite ?Forall_app; repeat split; try exact Hout; repeat constructor.
Qed.


(** X17.  When a run of the job runner is interrupted,
    [execute_schedule] runs no later term: the interrupt leaves it, after
    the [finally] has put the schedule down as finished, and no report
    is printed. *)
Theorem execute_schedule_stops_at_the_interrupt
    (env : Env) (st : State) (a : addr) (s : Schedule) (i : nat) :
  objects st !! a = Some s ->
  (i < length (search_terms s))%nat ->
  (forall j, (j < i)%nat -> runner env (runs st + j) <> Interrupted) ->
  runner env (runs st + i) = Interrupted ->
  let st' := snd (execute_schedule env a st) in
  fst (execute_schedule env a st) = Raise KeyboardInterrupt
  /\ runs st' = (runs st + i + 1)%nat
  /\ exists out, console st' = console st ++ out /\ Forall run_line out.
Proof. apply execute_schedule_interrupted. Qed.

(** The theorem on a schedule whose first run is interrupted. *)
Lemma execute_schedule_stops_at_the_interrupt_witness :
  let st' := snd (execute_schedule interrupted 0%nat before_run) in
  fst (execute_schedule interrupted 0%nat before_run) = Raise KeyboardInterrupt
  /\ runs st' = (0 + 0 + 1)%nat
  /\ exists out, console st' = console before_run ++ out /\ Forall run_line out.
Proof.
  exact (execute_schedule_stops_at_the_interrupt interrupted before_run 0%nat
           (sample "a" "09:00" 30 true) 0%nat eq_refl ltac:(cbn; lia)
           ltac:(intros j Hj; lia) eq_refl).
Defined.


(** X18.  An interrupt during a manual run does not leave
    [manual_schedule_run]: its bare [except] takes it, the function
    returns normally with "Invalid input!", and the schedule is left as
    [execute_schedule] leaves it, finished and counted as run. *)
Theorem manual_schedule_run_swallows_the_interrupt
    (env : Env) (st : State) (typed confirm : string) (n : Z) (a : addr) (s : Schedule)
    (i : nat) :
  Str.int (get_user_input None typed) = Some n -> 1 <= n ->
  active_schedules st !! Z.to_nat (n - 1) = Some a ->
  objects st !! a = Some s ->
  confirms "y" confirm = true ->
  (i < length (search_terms s))%nat ->
  (forall j, (j < i)%nat -> runner env (runs st + j) <> Interrupted) ->
  runner env (runs st + i) = Interrupted ->
  fst (execute_schedule env a st) = Raise KeyboardInterrupt
  /\ manual_schedule_run env typed confirm st
     = (Ok InvalidInput, snd (execute_schedule env a st))
  /\ exists s',
       objects (snd (manual_schedule_run env typed confirm st)) !! a = Some s'
       /\ currently_running s' = false
       /\ total_runs s' = total_runs s + 1.
Proof.
  intros Hint Hn Hsel Hs Hc Hi Hbefore Hx.
  destruct (execute_schedule_interrupted env st a s i Hs Hi Hbefore Hx)
    as (Hraise & _).
  assert (Hrun : manual_schedule_run env typed confirm st
                 = (Ok InvalidInput, snd (execute_schedule env a st))).
  { unfold manual_schedule_run. unfold mbind at 1, M_bind at 1, get at 1.
    destruct (schedules st) as [|kv l] eqn:E.
    { unfold active_schedules in Hsel. rewrite E in Hsel. discriminate Hsel. }
    rewrite (select_ok typed _ n a Hint Hn Hsel), Hc.
    destruct (active_schedules st); [discriminate Hsel|].
    destruct (execute_schedule env a st) as [[] st']; [discriminate Hraise | reflexivity]. }
  split; [exact Hraise|]. split; [exact Hrun|]. rewrite Hrun. cbn [snd].
  destruct (execute_schedule_state env a st) as (Ho & _).
  eexists. rewrite Ho, list_lookup_alter_eq, Hs. split; [reflexivity|].
  split; reflexivity.
Qed.

(** The theorem on a schedule whose first run is interrupted. *)
Lemma manual_schedule_run_swallows_the_interrupt_witness :
  fst (execute_schedule interrupted 0%nat before_run) = Raise KeyboardInterrupt
  /\ manual_schedule_run interrupted "1" "" before_run
     = (Ok InvalidInput, snd (execute_schedule interrupted 0%nat before_run))
  /\ exists s',
       objects (snd (manual_schedule_run interrupted "1" "" before_run)) !! 0%nat = Some s'
       /\ currently_running s' = false
       /\ total_runs s' = 0 + 1.
Proof.
  exact (manual_schedule_run_swallows_the_interrupt interrupted before_run "1" "" 1 0%nat
           (sample "a" "09:00" 30 true) 0%nat eq_refl ltac:(lia) eq_refl eq_refl eq_refl
           ltac:(cbn; lia) ltac:(intros j Hj; lia) eq_refl).
Defined.

(* ================================================================== *)
(** * Schedules the loop does not start *)
(* ================================================================== *)

(** A schedule that is not due at any reading of the clock is left alone
    by a visit, its own or another schedule's. *)
Lemma visit_keeps_not_due env current_time running_schedules b a s :
  (forall k, due env current_time s (clock env k) = None) ->
  keeps a s (visit env current_time running_schedules b).
Proof.
  intros Hnot st Hs. unfold visit. step_M.
  destruct (objects st !! b) as [x|] eqn:Hb; [|exact Hs].
  destruct (currently_running x); [exact Hs|].
  destruct (should_run_frame env current_time x st) as (st1 & Hdue & (Ho&_) & _).
  rewrite Hdue.
  destruct (due env current_time x (clock env (clock_reads st))) as [first|] eqn:Edue;
    [|cbn; rewrite Ho; exact Hs].
  destruct (decide (b = a)) as [->|Hne].
  - assert (x = s) as -> by congruence.
    rewrite Hnot in Edue. discriminate Edue.
  - destruct (auto_sequence x && _); step_M; [rewrite Ho; exact Hs|].
    destruct (existsb _ _); step_M; [rewrite Ho; exact Hs|].
    apply execute_schedule_keeps; [exact Hne|]. cbn. rewrite Ho. exact Hs.
Qed.

Lemma tick_keeps_not_due env active a s :
  (forall current_time k, due env current_time s (clock env k) = None) ->
  keeps a s (tick env active).
Proof.
  intros Hnot. unfold tick.
  apply keeps_bind; [apply now_keeps|]. intros t.
  apply keeps_bind; [apply keeps_same_objects; reflexivity|]. intros st0.
  apply keeps_bind.
  - apply keeps_for_each. intros b. apply visit_keeps_not_due, Hnot.
  - intros _. apply keeps_bind; [apply now_keeps|]. intros t'.
    destruct (_ =? 0).
    + apply keeps_bind; [apply now_keeps|]. intros _. apply keeps_same_objects. reflexivity.
    + apply keeps_same_objects. reflexivity.
Qed.

Lemma ticks_keeps_not_due env n active a s :
  (forall current_time k, due env current_time s (clock env k) = None) ->
  keeps a s (ticks env n active).
Proof.
  intros Hnot. induction n as [|n IH]; cbn [ticks].
  - apply keeps_same_objects. reflexivity.
  - apply keeps_bind; [apply tick_keeps_not_due; assumption | intros _; exact IH].
Qed.

(** X19.  A schedule that is not recurring runs once: after
    [execute_schedule], however the run ended, its [total_runs] is one
    more than before, and no number of turns of the scheduler loop
    changes the schedule again, whatever the clock shows and whichever
    schedules are in the loop's list. *)
Theorem one_time_schedule_runs_once
    (env : Env) (st : State) (a : addr) (s : Schedule) :
  objects st !! a = Some s ->
  is_recurring s = false ->
  0 <= total_runs s ->
  let st1 := snd (execute_schedule env a st) in
  exists s1,
    objects st1 !! a = Some s1
    /\ total_runs s1 = total_runs s + 1
    /\ forall (n : nat) (active : list addr),
         objects (snd (ticks env n active st1)) !! a = Some s1.
Proof.
  intros Hs Hrec Hruns st1.
  destruct (execute_schedule_state env a st) as (Ho & _).
  fold st1 in Ho.
  eexists. split; [|split].
  - rewrite Ho, list_lookup_alter_eq, Hs. reflexivity.
  - reflexivity.
  - intros n active. apply ticks_keeps_not_due.
    + intros current_time k. unfold due, first_run_due. cbn.
      assert ((total_runs s + 1 =? 0) = false) as -> by lia.
      rewrite Hrec. reflexivity.
    + rewrite Ho, list_lookup_alter_eq, Hs. reflexivity.
Qed.

(** The theorem on a sample schedule: it has run once, and is as its
    run left it after three turns of the loop. *)
Lemma one_time_schedule_runs_once_witness :
  exists s1,
    objects (snd (execute_schedule calm 0%nat before_run)) !! 0%nat = Some s1
    /\ total_runs s1 = 1
    /\ forall (n : nat) (active : list addr),
         objects (snd (ticks calm n active (snd (execute_schedule calm 0%nat before_run))))
           !! 0%nat = Some s1.
Proof.
  exact (one_time_schedule_runs_once calm before_run 0%nat (sample "a" "09:00" 30 true)
           eq_refl eq_refl ltac:(cbn; lia)).
Defined.

(** X20.  A recurring schedule that has run waits for its interval: as
    long as every reading of the clock is before [last_run] plus
    [duration_minutes], no number of turns of the scheduler loop changes
    the schedule ([total_runs] and [last_run] included), whichever
    schedules are in the loop's list. *)
Theorem recurring_schedule_waits_for_its_interval
    (env : Env) (st : State) (a : addr) (s : Schedule)
    (last_run_time next_run_time : datetime) (n : nat) (active : list addr) :
  objects st !! a = Some s ->
  total_runs s <> 0 ->
  strptime_full env (last_run s) = Ok last_run_time ->
  Dt.add_minutes last_run_time (duration_minutes s) = Ok next_run_time ->
  (forall k, clock env k < next_run_time) ->
  objects (snd (ticks env n active st)) !! a = Some s.
Proof.
  intros Hs Hruns Hlast Hnext Hclock.
  apply ticks_keeps_not_due; [|exact Hs].
  intros current_time k. unfold due, first_run_due.
  assert ((total_runs s =? 0) = false) as -> by lia.
  cbn [andb].
  destruct (is_recurring s && negb (String.eqb (last_run s) "")); [|reflexivity].
  rewrite Hlast. cbn. rewrite Hnext.
  specialize (Hclock k).
  assert ((next_run_time <=? clock env k) = false) as -> by lia.
  reflexivity.
Qed.

(** The theorem on an hourly schedule last run at 08:00, through three
    turns of the loop at 08:17. *)
Lemma recurring_schedule_waits_for_its_interval_witness :
  objects (snd (ticks today 3 [0%nat] (holding [hourly]))) !! 0%nat = Some hourly.
Proof.
  apply (recurring_schedule_waits_for_its_interval today (holding [hourly]) 0%nat hourly
           (46000 * Dt.us_per_day + Dt.of_hm 8 0)
           (46000 * Dt.us_per_day + Dt.of_hm 9 0) 3 [0%nat]).
  - reflexivity.
  - discriminate.
  - reflexivity.
  - reflexivity.
  - intros k. vm_compute. reflexivity.
Defined.

(* ================================================================== *)
(** * A choice that is not on the list *)
(* ================================================================== *)

Lemma select_out_of_range {A} typed (l : list A) (bound : nat) :
  (length l <= bound)%nat ->
  (forall n, Str.int (get_user_input None typed) = Some n ->
     n < 1 \/ Z.of_nat bound < n) ->
  select typed l
  = inl (match Str.int (get_user_input None typed) with
         | Some _ => InvalidSelection
         | None => InvalidInput
         end).
Proof.
  intros Hlen H. unfold select.
  destruct (Str.int (get_user_input None typed)) as [n|]; [|reflexivity].
  specialize (H n eq_refl).
  assert ((0 <=? n - 1) && (n - 1 <? Z.of_nat (length l)) = false) as -> by lia.
  reflexivity.
Qed.

Lemma active_schedules_length st : (length (active_schedules st) <= length (schedules st))%nat.
Proof.
  unfold active_schedules.
  etransitivity; [apply length_filter|]. rewrite length_map. reflexivity.
Qed.

(** X21.  When the text entered for the schedule number is not a number,
    or is a number that is not on the list, [toggle_schedule],
    [delete_schedule], [edit_schedule] and [manual_schedule_run] change
    nothing: store, file and counters are as they were, and the message
    is "Invalid input!" for text that is not a number and "Invalid
    selection!" for a number off the list. *)
Theorem invalid_choice_changes_nothing (env : Env) (st : State) (typed : string) :
  schedules st <> [] ->
  (forall n, Str.int (get_user_input None typed) = Some n ->
     n < 1 \/ Z.of_nat (length (schedules st)) < n) ->
  let msg := match Str.int (get_user_input None typed) with
             | Some _ => InvalidSelection
             | None => InvalidInput
             end in
  toggle_schedule env typed st = (Ok msg, st)
  /\ (forall confirm, delete_schedule env typed confirm st = (Ok msg, st))
  /\ (forall new_name new_time,
        edit_schedule env typed new_name new_time st = (Ok msg, st))
  /\ (forall confirm,
        manual_schedule_run env typed confirm st
        = (Ok (match active_schedules st with
               | [] => NoActiveSchedules
               | _ => msg
               end), st)).
Proof.
  intros Hne Hbad msg.
  assert (Hvalues : select typed (map snd (schedules st)) = inl msg).
  { apply (select_out_of_range typed _ (length (schedules st)));
      [rewrite length_map; reflexivity | exact Hbad]. }
  assert (Hitems : select typed (schedules st) = inl msg).
  { apply (select_out_of_range typed _ (length (schedules st)));
      [reflexivity | exact Hbad]. }
  assert (Hactive : select typed (active_schedules st) = inl msg).
  { apply (select_out_of_range typed _ (length (schedules st)));
      [apply active_schedules_length | exact Hbad]. }
  split; [|split; [|split]].
  - unfold toggle_schedule, mbind, M_bind, get.
    destruct (schedules st) as [|kv d] eqn:E; [destruct (Hne eq_refl)|].
    rewrite Hvalues. reflexivity.
  - intros confirm. unfold delete_schedule, mbind, M_bind, get.
    destruct (schedules st) as [|kv d] eqn:E; [destruct (Hne eq_refl)|].
    rewrite Hitems. reflexivity.
  - intros new_name new_time. unfold edit_schedule, mbind, M_bind, get.
    destruct (schedules st) as [|kv d] eqn:E; [destruct (Hne eq_refl)|].
    rewrite Hvalues. reflexivity.
  - intros confirm. unfold manual_schedule_run, mbind, M_bind, get.
    destruct (schedules st) as [|kv d] eqn:E; [destruct (Hne eq_refl)|].
    destruct (active_schedules st) as [|x l] eqn:Ea; [reflexivity|].
    rewrite Hactive. reflexivity.
Qed.

(** The theorem on a store of one schedule and the number 7. *)
Lemma invalid_choice_changes_nothing_witness :
  toggle_schedule calm "7" before_run = (Ok InvalidSelection, before_run)
  /\ (forall confirm, delete_schedule calm "7" confirm before_run
                      = (Ok InvalidSelection, before_run))
  /\ (forall new_name new_time,
        edit_schedule calm "7" new_name new_time before_run
        = (Ok InvalidSelection, before_run))
  /\ (forall confirm, manual_schedule_run calm "7" confirm before_run
                      = (Ok InvalidSelection, before_run)).
Proof.
  apply (invalid_choice_changes_nothing calm before_run "7").
  - discriminate.
  - intros n Hn. vm_compute in Hn. injection Hn as <-. right. vm_compute. reflexivity.
Defined.

(* ================================================================== *)
(** * The conflict checker *)
(* ================================================================== *)

Lemma pairs_elem {A} (l : list A) (x y : A) :
  (x, y) ∈ pairs l
  <-> exists i j, (i < j)%nat /\ l !! i = Some x /\ l !! j = Some y.
Proof.
  induction l as [|z l IH]; cbn [pairs].
  - split.
    + intros H. inversion H.
    + intros (i & j & _ & H & _). discriminate H.
  - rewrite elem_of_app, IH. split.
    + intros [H | (i & j & Hij & Hi & Hj)].
      * apply list_elem_of_fmap in H as (y' & E & Hy). injection E as -> ->.
        apply list_elem_of_lookup in Hy as (j & Hj).
        exists 0%nat, (S j). split; [lia|]. split; [reflexivity | exact Hj].
      * exists (S i), (S j). split; [lia|]. split; assumption.
    + intros (i & j & Hij & Hi & Hj).
      destruct j as [|j]; [lia|]. cbn in Hj.
      destruct i as [|i]; cbn in Hi.
      * left. injection Hi as ->.
        apply (list_elem_of_fmap_2 (pair x)), list_elem_of_lookup_2 with j, Hj.
      * right. exists i, j. split; [lia|]. split; assumption.
Qed.

(** [conflict_checker] and [check_schedule_conflicts_between] find an
    issue for the same pairs. *)
Lemma issues_between_none schedule1 schedule2 :
  issues_between schedule1 schedule2 = []
  <-> check_schedule_conflicts_between schedule1 schedule2 = [].
Proof.
  unfold issues_between, check_schedule_conflicts_between, check_execution_overlap.
  destruct (String.eqb _ _); [split; discriminate|].
  destruct (attempt (windows_overlap schedule1 schedule2)) as [[|]|];
    cbn; split; (reflexivity || discriminate).
Qed.

Lemma check_schedule_conflicts_between_sym schedule1 schedule2 :
  check_schedule_conflicts_between schedule1 schedule2 = []
  -> check_schedule_conflicts_between schedule2 schedule1 = [].
Proof.
  unfold check_schedule_conflicts_between.
  rewrite (windows_overlap_sym schedule1 schedule2), (String.eqb_sym (start_time schedule1)).
  destruct (String.eqb _ _); [discriminate|].
  destruct (attempt (windows_overlap schedule2 schedule1)) as [[|]|]; cbn; congruence.
Qed.

(** X22.  When [conflict_checker] gets to its check, it reports a pair
    of active schedules, the one that comes first in the store first,
    exactly when [check_schedule_conflicts_between] finds an issue for
    the pair; and it reports nothing ("NO CONFLICTS DETECTED!") exactly
    when no two active schedules at different places of the store have
    an issue, in either order. *)
Theorem conflict_checker_reports_the_conflicting_pairs
    (st : State) (reports : list (Schedule * Schedule * list string)) :
  conflict_checker st = inr reports ->
  let active_schedules := filter (fun s => is_active s = true) (values st) in
  (forall schedule1 schedule2,
     (exists issues, (schedule1, schedule2, issues) ∈ reports)
     <-> exists i j, (i < j)%nat
           /\ active_schedules !! i = Some schedule1
           /\ active_schedules !! j = Some schedule2
           /\ check_schedule_conflicts_between schedule1 schedule2 <> [])
  /\ (reports = []
      <-> forall i j schedule1 schedule2,
            i <> j ->
            active_schedules !! i = Some schedule1 ->
            active_schedules !! j = Some schedule2 ->
            check_schedule_conflicts_between schedule1 schedule2 = []).
Proof.
  intros Hrun active. unfold conflict_checker in Hrun. fold active in Hrun.
  destruct (length (schedules st) <? 2)%nat; [discriminate Hrun|].
  destruct (length active <? 2)%nat; [discriminate Hrun|].
  injection Hrun as Hrun. cbv zeta in Hrun.
  assert (Hpairs : forall schedule1 schedule2,
    (exists issues, (schedule1, schedule2, issues) ∈ reports)
    <-> exists i j, (i < j)%nat /\ active !! i = Some schedule1
          /\ active !! j = Some schedule2
          /\ check_schedule_conflicts_between schedule1 schedule2 <> []).
  { intros s1 s2. rewrite <- Hrun. split.
    - intros (issues & H).
      apply list_elem_of_In, in_flat_map in H as ([x y] & Hp & H).
      apply list_elem_of_In, pairs_elem in Hp as (i & j & Hij & Hi & Hj).
      cbn [fst snd] in H.
      destruct (issues_between x y) eqn:E; [destruct H|].
      destruct H as [H|[]]. injection H as <- <- _.
      exists i, j. split; [exact Hij|]. split; [exact Hi|]. split; [exact Hj|].
      intros Hnone. apply issues_between_none in Hnone. congruence.
    - intros (i & j & Hij & Hi & Hj & Hsome).
      exists (issues_between s1 s2).
      apply list_elem_of_In, in_flat_map. exists (s1, s2). split.
      + apply list_elem_of_In, pairs_elem. exists i, j. split; [exact Hij|].
        split; assumption.
      + cbn [fst snd].
        destruct (issues_between s1 s2) eqn:E.
        * destruct Hsome. apply issues_between_none, E.
        * left. reflexivity. }
  split; [exact Hpairs|].
  split.
  - intros Hnone i j s1 s2 Hij Hi Hj.
    destruct (check_schedule_conflicts_between s1 s2) eqn:E; [reflexivity|].
    exfalso.
    destruct (decide (i < j)%nat) as [Hlt|Hge].
    + destruct (proj2 (Hpairs s1 s2)) as (issues & H).
      { exists i, j. split; [exact Hlt|]. split; [exact Hi|]. split; [exact Hj|].
        rewrite E. discriminate. }
      rewrite Hnone in H. inversion H.
    + destruct (proj2 (Hpairs s2 s1)) as (issues & H).
      { exists j, i. split; [lia|]. split; [exact Hj|]. split; [exact Hi|].
        intros Hsym. apply check_schedule_conflicts_between_sym in Hsym. congruence. }
      rewrite Hnone in H. inversion H.
  - intros Hall.
    destruct reports as [|[[s1 s2] issues] l]; [reflexivity|].
    exfalso.
    destruct (proj1 (Hpairs s1 s2)) as (i & j & Hij & Hi & Hj & Hsome).
    { exists issues. left. }
    apply Hsome, (Hall i j); [lia | exact Hi | exact Hj].
Qed.

(** The theorem on two active schedules whose windows overlap. *)
Lemma conflict_checker_reports_the_conflicting_pairs_witness :
  exists issues,
    (sample "a" "09:00" 30 true, sample "b" "09:15" 30 true, issues)
    ∈ [(sample "a" "09:00" 30 true, sample "b" "09:15" 30 true,
        ["Execution windows overlap"])].
Proof.
  apply (proj1 (conflict_checker_reports_the_conflicting_pairs
                  (holding [sample "a" "09:00" 30 true; sample "b" "09:15" 30 true])
                  _ eq_refl)).
  exists 0%nat, 1%nat. split; [lia|]. split; [reflexivity|]. split; [reflexivity|].
  discriminate.
Defined.

(* ================================================================== *)
(** * The sequencer's time and the conflict detector *)
(* ================================================================== *)

Lemma flat_map_nil {A B} (f : A -> list B) (l : list A) :
  (forall x, x ∈ l -> f x = []) -> flat_map f l = [].
Proof.
  induction l as [|x l IH]; intros H; cbn; [reflexivity|].
  rewrite (H x) by left. apply IH. intros y Hy. apply H. right. exact Hy.
Qed.

(** A time of day on the minute is what [strftime] and [strptime] give
    back. *)
Lemma strptime_strftime_same d :
  0 <= d < Dt.us_per_day -> d mod Dt.us_per_minute = 0 ->
  Dt.strptime_HM (Dt.strftime_HM d) = Ok d.
Proof.
  intros Hd Hm. rewrite strptime_strftime. f_equal. fields.
Qed.

Lemma window_end_ordinary s t :
  Dt.strptime_HM (start_time s) = Ok t -> ordinary_duration s ->
  window_end s = Ok (t + estimated_duration_minutes s * Dt.us_per_minute).
Proof.
  intros Ht Hs. pose proof (strptime_HM_range _ _ Ht). unfold ordinary_duration in Hs.
  unfold window_end. rewrite Ht. cbn. apply add_minutes_ok; units; lia.
Qed.

(** X23.  When every active schedule has an estimated duration between 0
    and 900 million minutes and the latest end of their windows plus the
    ten minutes of buffer is before 23:00 of the same day,
    [calculate_sequential_time] returns a time, and
    [check_schedule_conflicts] finds no conflict for the candidate once
    it has that start time. *)
Theorem sequential_time_before_23_has_no_conflict
    (schedules : list Schedule) (new_schedule : Schedule) (latest : datetime) :
  (forall s, s ∈ schedules -> is_active s = true -> ordinary_duration s) ->
  latest_end_time schedules = Some latest ->
  latest + 10 * Dt.us_per_minute < Dt.of_hm 23 0 ->
  exists t,
    calculate_sequential_time schedules new_schedule = Ok (Some t)
    /\ check_schedule_conflicts schedules (set_start_time t new_schedule) = [].
Proof.
  intros Hord Hlatest Hearly.
  pose proof (fold_later_end_spec schedules None) as Hfold.
  fold (latest_end_time schedules) in Hfold. rewrite Hlatest in Hfold.
  destruct Hfold as (_ & Hall & [H|(s0 & Hs0 & Ha0 & Hw0)]); [discriminate H|].
  (* the latest end is a time on the minute, not before 00:00 *)
  assert (Hshape : 0 <= latest /\ latest mod Dt.us_per_minute = 0).
  { unfold window_end in Hw0.
    destruct (Dt.strptime_HM (start_time s0)) as [t0|] eqn:E0; cbn in Hw0; [|discriminate].
    apply add_minutes_inv in Hw0 as [-> _].
    apply strptime_HM_of_hm in E0 as (h & m & -> & Hh & Hm).
    pose proof (Hord s0 Hs0 Ha0) as Ho. unfold ordinary_duration in Ho.
    split; [unfold Dt.of_hm; units; lia|].
    unfold Dt.of_hm. units.
    replace (h * (60 * (60 * 1000000)) + m * (60 * 1000000)
             + estimated_duration_minutes s0 * (60 * 1000000))
      with ((h * 60 + m + estimated_duration_minutes s0) * (60 * 1000000)) by lia.
    apply Z.mod_mul. lia. }
  destruct Hshape as [Hlo Hmin].
  set (T := latest + 10 * Dt.us_per_minute) in *.
  assert (HT : 0 <= T < Dt.us_per_day /\ T mod Dt.us_per_minute = 0 /\ Dt.hour T < 23).
  { subst T. unfold Dt.of_hm in Hearly. split; [units; lia|]. split.
    - rewrite Z.mod_add by (units; lia). exact Hmin.
    - unfold Dt.hour. units. Z.to_euclidean_division_equations. lia. }
  destruct HT as (HTday & HTmin & HThour).
  assert (Hseq : sequential_datetime schedules = Ok (Some T)).
  { unfold sequential_datetime. rewrite Hlatest.
    rewrite add_minutes_ok by (units; lia). cbn. fold T.
    destruct (Z.leb_spec 23 (Dt.hour T)); [lia | reflexivity]. }
  exists (Dt.strftime_HM T). split.
  { unfold calculate_sequential_time. rewrite Hseq. reflexivity. }
  unfold check_schedule_conflicts. apply flat_map_nil. intros s Hs.
  destruct (is_active s) eqn:Ha; [cbn [negb] | reflexivity].
  pose proof (Hord s Hs Ha) as Ho.
  cbn [start_time set_start_time].
  destruct (Dt.strptime_HM (start_time s)) as [t1|e1] eqn:E1.
  - (* the schedule's window has ended ten minutes before [T] *)
    pose proof (window_end_ordinary s t1 E1 Ho) as Hw.
    pose proof (Hall s _ Hs Ha Hw) as Hend.
    unfold ordinary_duration in Ho.
    assert (Hlt : t1 < T) by (subst T; units; lia).
    destruct (String.eqb_spec (start_time s) (Dt.strftime_HM T)) as [Heq|_].
    { rewrite Heq, (strptime_strftime_same T HTday HTmin) in E1.
      injection E1 as <-. lia. }
    unfold check_execution_overlap, windows_overlap. cbn [start_time set_start_time].
    rewrite E1, (strptime_strftime_same T HTday HTmin). cbn.
    unfold window_end in Hw. rewrite E1 in Hw. cbn in Hw. rewrite Hw. cbn.
    destruct (Dt.add_minutes T _) as [end2|]; cbn; [|reflexivity].
    assert (((t1 <=? T) && (T <? t1 + estimated_duration_minutes s * Dt.us_per_minute)
             || (T <=? t1) && (t1 <? end2)) = false) as ->.
    { subst T. apply orb_false_iff. split; apply andb_false_iff; [right | left]; units; lia. }
    reflexivity.
  - destruct (String.eqb_spec (start_time s) (Dt.strftime_HM T)) as [Heq|_].
    { rewrite Heq, (strptime_strftime_same T HTday HTmin) in E1. discriminate E1. }
    unfold check_execution_overlap, windows_overlap. rewrite E1. reflexivity.
Qed.

(** The theorem after a schedule at 09:00 that takes 30 minutes: the
    sequencer answers 09:40, where the candidate has no conflict. *)
Lemma sequential_time_before_23_has_no_conflict_witness :
  exists t,
    calculate_sequential_time [sample "a" "09:00" 30 true] (sample "b" "09:00" 15 true)
    = Ok (Some t)
    /\ check_schedule_conflicts [sample "a" "09:00" 30 true]
         (set_start_time t (sample "b" "09:00" 15 true)) = [].
Proof.
  apply (sequential_time_before_23_has_no_conflict [sample "a" "09:00" 30 true]
           (sample "b" "09:00" 15 true) (Dt.of_hm 9 30)).
  - intros s Hs _. apply list_elem_of_singleton in Hs as ->. apply sample_ordinary.
  - reflexivity.
  - vm_compute. reflexivity.
Defined.
